(** * Browser-tools element resolver: a shallow embedding and its properties

    The development follows the two script files of the element command:
    [config.js] (flag normalisation, the connection resolver, [fail]) and
    [element.js] (selector synthesis, the three resolution modes, the
    in-page picker and the command's main flow).

    JavaScript values are modelled by the small universe the scripts really
    handle: finite doubles by their rational value, the three non-finite
    doubles as constructors, [undefined] as [None], and strings as
    [string], a sequence of 8-bit code units (the ASCII and Latin-1 part
    of a JavaScript string). A DOM node is referred to by its position in
    the document tree, which stands for the identity of the object.

    The later modules follow the rest of [config.js] (the command line
    parser, the choice of the page, the lookup of paths, polling) and
    the functions of [start.js], [screenshot.js] and the cookie script
    that are built on it. *)

From Stdlib Require Import List String Ascii Bool Arith ZArith QArith Lia.
From Stdlib Require Import Qround DecimalNat DecimalString.
Import ListNotations.
Local Close Scope Q_scope.
Local Open Scope nat_scope.
Local Open Scope string_scope.

(* ===================================================================== *)
(** ** JavaScript values used by the scripts *)
(* ===================================================================== *)

Module Js.

(** A JavaScript number. Every finite double is a rational, so [Finite]
    covers them; the three others are the non-finite doubles. *)
Inductive Number : Type :=
| Finite (q : Q)
| NaN
| PosInfinity
| NegInfinity.

(** The values a parsed flag or an environment entry can hold. *)
Inductive Value : Type :=
| VUndefined
| VBool (b : bool)
| VNum (n : Number)
| VStr (s : string).

(** [Number.isFinite(x)]: false for every non-number. *)
Definition isFinite (v : Value) : bool :=
  match v with
  | VNum (Finite _) => true
  | _ => false
  end.

(** Truthiness of a number: [0], [-0] and [NaN] are falsy. *)
Definition truthyNumber (n : Number) : bool :=
  match n with
  | Finite q => negb (Qeq_bool q 0%Q)
  | NaN => false
  | PosInfinity | NegInfinity => true
  end.

(** Truthiness of an optional string: [undefined] and [""] are falsy. *)
Definition truthyString (s : option string) : bool :=
  match s with
  | None => false
  | Some s => negb (s =? "")
  end.

(** The nullish coalescing operator [a ?? b] on optional values. *)
Definition nullish {A : Type} (a b : option A) : option A :=
  match a with
  | Some x => Some x
  | None => b
  end.

(** [a ?? d] with a default that is always defined. *)
Definition nullishOr {A : Type} (a : option A) (d : A) : A :=
  match a with
  | Some x => x
  | None => d
  end.

Definition ofZ (z : Z) : Number := Finite (inject_Z z).

End Js.

(* ===================================================================== *)
(** ** config.js *)
(* ===================================================================== *)

Module Config.
Import Js.

Definition DEFAULT_PORT : Number := ofZ 9222.

(** The flags object handed to [resolveBrowserConnection]. *)
Record Flags : Type := mkFlags {
  ws : option string;
  host : option string;
  port : Value;
}.

(** The three entries of [process.env] the resolver reads. *)
Record Env : Type := mkEnv {
  BROWSER_WS_URL : option string;
  BROWSER_HOST : option string;
  BROWSER_PORT : option string;
}.

(** The options object passed on to [puppeteer.connect]
    ([defaultViewport] is [null] in both shapes and is left out). *)
Inductive Connection : Type :=
| browserWSEndpoint (endpoint : option string)
| browserURL (url : string).

(** What a command leaves behind when it stops through [fail]. *)
#[warnings="-register-all"]
Inductive Json : Type :=
| JNull
| JBool (b : bool)
| JNum (z : Z)
| JString (s : string)
| JArray (items : list Json)
| JObject (fields : list (string * Json)).

Record Exit : Type := mkExit {
  exitCode : Z;
  stdout : list Json;
  stderr : list string;
}.

(** [fail(message, { code = 1, json = false })]. *)
Definition fail (message : string) (code : option Z) (json : bool) : Exit :=
  let code := nullishOr code 1%Z in
  if json
  then mkExit code [JObject [("ok", JBool false); ("error", JString message)]] []
  else mkExit code [] [message ++ String (ascii_of_nat 10) ""].

Section Resolver.

(** [Number(s)] on a string and the template conversion [`${n}`] are the
    engine's; the resolver is parametric in both. *)
Variable stringToNumber : string -> Number.
Variable numberToString : Number -> string.

(** [normalizeNumber(value, fallback)]. *)
Definition normalizeNumber (value : Value) (fallback : Number) : Number :=
  let number :=
    match value with
    | VStr s => VNum (stringToNumber s)
    | v => v
    end in
  match number with
  | VNum n => if isFinite number then n else fallback
  | _ => fallback
  end.

(** [flags.port ?? process.env.BROWSER_PORT ?? DEFAULT_PORT]. *)
Definition portOperand (flags : Flags) (env : Env) : Value :=
  match port flags with
  | VUndefined =>
      match BROWSER_PORT env with
      | Some s => VStr s
      | None => VNum DEFAULT_PORT
      end
  | v => v
  end.

(** [resolveBrowserConnection(flags)] under the environment [env]. *)
Definition resolveBrowserConnection (flags : Flags) (env : Env) : Connection :=
  if truthyString (ws flags) || truthyString (BROWSER_WS_URL env)
  then
    let endpoint := nullish (ws flags) (BROWSER_WS_URL env) in
    browserWSEndpoint endpoint
  else
    let host := nullishOr (nullish (host flags) (BROWSER_HOST env)) "localhost" in
    let port := normalizeNumber (portOperand flags env) DEFAULT_PORT in
    browserURL ("http://" ++ host ++ ":" ++ numberToString port).

End Resolver.

End Config.

(* ===================================================================== *)
(** ** The document: a tree of element and text nodes *)
(* ===================================================================== *)

Module Dom.

(** The properties of an element the scripts read. *)
Record ElementData : Type := mkElementData {
  nodeName : string;
  id : string;
  classList : list string;
  attributes : list (string * string);
}.

#[warnings="-register-all"]
Inductive Node : Type :=
| Text (data : string)
| Element (d : ElementData) (childNodes : list Node).

(** Induction over a document, with the hypothesis for every child. *)
Fixpoint Node_induction (P : Node -> Prop)
    (onText : forall data, P (Text data))
    (onElement : forall d kids, Forall P kids -> P (Element d kids))
    (n : Node) {struct n} : P n :=
  match n with
  | Text data => onText data
  | Element d kids =>
      onElement d kids
        ((fix all (ks : list Node) : Forall P ks :=
            match ks with
            | [] => Forall_nil P
            | k :: rest =>
                Forall_cons k (Node_induction P onText onElement k) (all rest)
            end) kids)
  end.

(** A reference to a node: its position among the child nodes of its
    parent, then the parent's position in its own parent, and so on up to
    the document element, which is [[]]. [parentElement] is the tail. *)
Definition Ref : Type := list nat.

Fixpoint lookup (doc : Node) (r : Ref) : option Node :=
  match r with
  | [] => Some doc
  | i :: parent =>
      match lookup doc parent with
      | Some (Element _ kids) => nth_error kids i
      | _ => None
      end
  end.

Definition element (doc : Node) (r : Ref) : option ElementData :=
  match lookup doc r with
  | Some (Element d _) => Some d
  | _ => None
  end.

Definition childNodesOf (doc : Node) (r : Ref) : list Node :=
  match lookup doc r with
  | Some (Element _ kids) => kids
  | _ => []
  end.

(** [parent.children]: the element children, each with its position among
    the child nodes (the position stands for the node's identity). *)
Fixpoint childrenFrom (i : nat) (kids : list Node) : list (nat * ElementData) :=
  match kids with
  | [] => []
  | Element d _ :: rest => (i, d) :: childrenFrom (S i) rest
  | Text _ :: rest => childrenFrom (S i) rest
  end.

Definition children (kids : list Node) : list (nat * ElementData) :=
  childrenFrom 0 kids.

(** [Array.prototype.indexOf] by identity; [None] stands for [-1]. *)
Fixpoint indexOf (i : nat) (l : list (nat * ElementData)) : option nat :=
  match l with
  | [] => None
  | (j, _) :: rest =>
      if Nat.eqb j i then Some 0
      else option_map S (indexOf i rest)
  end.

(** ASCII model of [String.prototype.toLowerCase]. *)
Definition lowerChar (c : ascii) : ascii :=
  let n := nat_of_ascii c in
  if ((65 <=? n) && (n <=? 90))%nat then ascii_of_nat (n + 32) else c.

Fixpoint toLowerCase (s : string) : string :=
  match s with
  | EmptyString => EmptyString
  | String c rest => String (lowerChar c) (toLowerCase rest)
  end.

(** ASCII model of [String.prototype.toUpperCase]. *)
Definition upperChar (c : ascii) : ascii :=
  let n := nat_of_ascii c in
  if ((97 <=? n) && (n <=? 122))%nat then ascii_of_nat (n - 32) else c.

Fixpoint toUpperCase (s : string) : string :=
  match s with
  | EmptyString => EmptyString
  | String c rest => String (upperChar c) (toUpperCase rest)
  end.

(** The character class [[a-zA-Z0-9_\-]] of the fallback escaper. *)
Definition isWordChar (c : ascii) : bool :=
  let n := nat_of_ascii c in
  (((97 <=? n) && (n <=? 122)) || ((65 <=? n) && (n <=? 90))
   || ((48 <=? n) && (n <=? 57)) || (n =? 95) || (n =? 45))%nat.

(** [value.replace(/[^a-zA-Z0-9_\-]/g, (char) => `\\${char}`)]. *)
Fixpoint fallbackEscape (value : string) : string :=
  match value with
  | EmptyString => EmptyString
  | String c rest =>
      if isWordChar c then String c (fallbackEscape rest)
      else String "\" (String c (fallbackEscape rest))
  end.

(** Decimal rendering of a non-negative integer, as a template does. *)
Definition decimal (n : nat) : string :=
  DecimalString.NilEmpty.string_of_uint (Nat.to_uint n).

(** [f] applied to each child node with its position, from [i] on, the
    results appended in order. *)
Definition overChildren {A : Type} (f : nat -> Node -> list A)
    : nat -> list Node -> list A :=
  fix visit (i : nat) (ks : list Node) {struct ks} : list A :=
    match ks with
    | [] => []
    | k :: rest => (f i k ++ visit (S i) rest)%list
    end.

(** The element nodes of the subtree at [n], in document order; [here] is
    the reference of [n] itself. This is the order in which [querySelector]
    and the XPath descendant axis visit the document. *)
Fixpoint elementsFrom (n : Node) (here : Ref) {struct n} : list Ref :=
  match n with
  | Text _ => []
  | Element _ kids =>
      here :: overChildren (fun i k => elementsFrom k (i :: here)) 0 kids
  end.

Definition allElements (doc : Node) : list Ref := elementsFrom doc [].

(** [node.textContent]: the text of all descendants, in document order. *)
Fixpoint textContent (n : Node) : string :=
  match n with
  | Text data => data
  | Element _ kids =>
      (fix gather (ks : list Node) : string :=
         match ks with
         | [] => ""
         | k :: rest => textContent k ++ gather rest
         end) kids
  end.

Section Synthesis.

(** [window.CSS.escape] when the page has it. *)
Variable cssEscape : option (string -> string).

Definition escapeIdent (value : string) : string :=
  match cssEscape with
  | Some native => native value
  | None => fallbackEscape value
  end.

(** The tag-and-classes prefix of a segment. *)
Definition tagAndClasses (d : ElementData) : string :=
  let part := toLowerCase (nodeName d) in
  if (0 <? List.length (classList d))%nat
  then part ++ "." ++ String.concat "." (map escapeIdent (classList d))
  else part.

(** The sibling test of one loop iteration, for the node at position [i]
    among the child nodes [kids] of its parent. *)
Definition withNthOfType (part : string) (d : ElementData) (i : nat)
    (kids : list Node) : string :=
  let siblings :=
    filter (fun child => nodeName (snd child) =? nodeName d) (children kids) in
  if (1 <? List.length siblings)%nat
  then
    let index :=
      match indexOf i siblings with
      | Some k => k + 1
      | None => 0
      end in
    part ++ ":nth-of-type(" ++ decimal index ++ ")"
  else part.

(** The [while] loop of [toSelector]: [current] walks up through
    [parentElement]; [parts] is the array the segments are unshifted to. *)
Fixpoint toSelectorLoop (doc : Node) (current : Ref) (parts : list string)
    : list string :=
  match lookup doc current with
  | Some (Element d _) =>
      if negb (id d =? "")
      then ("#" ++ escapeIdent (id d)) :: parts
      else
        let part := tagAndClasses d in
        match current with
        | [] => part :: parts
        | i :: parent =>
            let part := withNthOfType part d i (childNodesOf doc parent) in
            toSelectorLoop doc parent (part :: parts)
        end
  | _ => parts
  end.

Definition toSelector (doc : Node) (element : Ref) : string :=
  String.concat " > " (toSelectorLoop doc element []).

End Synthesis.

End Dom.

(* ===================================================================== *)
(** ** The page as the scripts see it, and descriptor collection *)
(* ===================================================================== *)

Module Page.
Import Js Dom.

(** A [DOMRect]: viewport-relative, fractional. *)
Record DOMRect : Type := mkDOMRect {
  rx : Q;
  ry : Q;
  rwidth : Q;
  rheight : Q;
}.

(** The rounded rectangle of a descriptor. *)
Record Rect : Type := mkRect {
  x : Z;
  y : Z;
  width : Z;
  height : Z;
}.

(** A page: the document, and what layout and the engine answer about
    its elements. *)
Record Page : Type := mkPage {
  document : Node;
  cssEscape : option (string -> string);
  getBoundingClientRect : Ref -> DOMRect;
  innerText : Ref -> option string;
  offsetParent : Ref -> bool;
  isHTMLElement : Ref -> bool;
}.

(** [Math.round]: the nearest integer, halves upwards. *)
Definition round (q : Q) : Z := Qfloor (q + (1 # 2))%Q.

Definition roundRect (r : DOMRect) : Rect :=
  mkRect (round (rx r)) (round (ry r)) (round (rwidth r)) (round (rheight r)).

(** White space in the sense of [String.prototype.trim], ASCII range. *)
Definition isWhiteSpace (c : ascii) : bool :=
  let n := nat_of_ascii c in
  (((9 <=? n) && (n <=? 13)) || (n =? 32) || (n =? 160))%nat.

Fixpoint trimStart (s : string) : string :=
  match s with
  | EmptyString => EmptyString
  | String c rest => if isWhiteSpace c then trimStart rest else s
  end.

Fixpoint reverse (s : string) : string :=
  match s with
  | EmptyString => EmptyString
  | String c rest => reverse rest ++ String c EmptyString
  end.

Definition trim (s : string) : string :=
  reverse (trimStart (reverse (trimStart s))).

(** [s.slice(0, n)] for a non-negative [n]. *)
Definition slice0 (n : nat) (s : string) : string := substring 0 n s.

(** [(el.innerText ?? el.textContent ?? "").trim().slice(0, 160)]. *)
Definition shortText (p : Page) (r : Ref) (n : Node) : string :=
  slice0 160 (trim (nullishOr (innerText p r) (textContent n))).

(** The descriptor [collectElementInfo] returns. *)
Record Info : Type := mkInfo {
  selector : string;
  tag : string;
  id : option string;
  classes : list string;
  text : string;
  attributes : list (string * string);
  rect : Rect;
  visible : bool;
  children : nat;
}.

(** [collectElementInfo(page, handle, selectorOverride)]; [None] when the
    handle does not denote an element of the document. *)
Definition collectElementInfo (p : Page) (handle : Ref)
    (selectorOverride : option string) : option Info :=
  match lookup (document p) handle with
  | Some (Element d kids as n) =>
      Some {|
        selector :=
          nullishOr selectorOverride
            (toSelector (cssEscape p) (document p) handle);
        tag := toLowerCase (nodeName d);
        id := if Dom.id d =? "" then None else Some (Dom.id d);
        classes := classList d;
        text := shortText p handle n;
        attributes := Dom.attributes d;
        rect := roundRect (getBoundingClientRect p handle);
        visible := offsetParent p handle;
        children := List.length (Dom.children kids);
      |}
  | _ => None
  end.

(** The basic descriptor [buildInfo] of the picker. *)
Record BasicInfo : Type := mkBasicInfo {
  btag : string;
  btext : string;
  brect : Rect;
}.

(** What the in-page pick settles with on a selection:
    [{ ...info, selector }]. *)
Record Selection : Type := mkSelection {
  basic : BasicInfo;
  pickedSelector : string;
}.

Definition buildInfo (p : Page) (r : Ref) : option BasicInfo :=
  match lookup (document p) r with
  | Some (Element d _ as n) =>
      Some (mkBasicInfo (toLowerCase (nodeName d)) (shortText p r n)
              (roundRect (getBoundingClientRect p r)))
  | _ => None
  end.

End Page.

(* ===================================================================== *)
(** ** Text lookup: the XPath query of [findByText] *)
(* ===================================================================== *)

Module TextQuery.
Import Dom.

(** The double quote character. *)
Definition dquote : ascii := ascii_of_nat 34.

(** The replace call of [findByText]: every double quote gets a backslash
    in front; the quote itself stays. *)
Fixpoint escapeQuotes (text : string) : string :=
  match text with
  | EmptyString => EmptyString
  | String c rest =>
      if Ascii.eqb c dquote
      then String "\" (String c (escapeQuotes rest))
      else String c (escapeQuotes rest)
  end.

(** The fixed text of the expression in front of the literal, up to and
    including its opening quote. *)
Definition expressionHead : string :=
  "//*[contains(normalize-space(text()), " ++ String dquote EmptyString.

(** The expression handed to [page.$x]. *)
Definition expression (text : string) : string :=
  expressionHead ++ escapeQuotes text ++ String dquote ")]".

(** XPath white space. *)
Definition isSpace (c : ascii) : bool :=
  let n := nat_of_ascii c in
  ((n =? 32) || (n =? 9) || (n =? 10) || (n =? 13))%nat.

(** The words of a string: its maximal runs of non-space characters.
    [word] is the run read so far. *)
Fixpoint wordsFrom (word : string) (s : string) : list string :=
  match s with
  | EmptyString => if word =? "" then [] else [word]
  | String c rest =>
      if isSpace c
      then if word =? "" then wordsFrom "" rest else word :: wordsFrom "" rest
      else wordsFrom (word ++ String c EmptyString) rest
  end.

(** XPath [normalize-space]: leading and trailing white space stripped,
    inner runs replaced by one space. *)
Definition normalizeSpace (s : string) : string :=
  String.concat " " (wordsFrom "" s).

(** XPath [contains(a, b)]. *)
Definition contains (a b : string) : bool :=
  match index 0 b a with
  | Some _ => true
  | None => false
  end.

(** The string value of the node set [text()] of an element: the data of
    its first text child, or the empty string when it has none. *)
Fixpoint firstText (kids : list Node) : string :=
  match kids with
  | [] => ""
  | Text data :: _ => data
  | Element _ _ :: rest => firstText rest
  end.

(** The predicate [contains(normalize-space(text()), literal)] at an
    element. *)
Definition predicate (doc : Node) (literal : string) (r : Ref) : bool :=
  contains (normalizeSpace (firstText (childNodesOf doc r))) literal.

(** A double-quoted XPath literal: everything up to the next double quote
    (XPath 1.0 literals have no escape). Returns the literal and what
    follows the closing quote. *)
Fixpoint readLiteral (s : string) : option (string * string) :=
  match s with
  | EmptyString => None
  | String c rest =>
      if Ascii.eqb c dquote then Some ("", rest)
      else
        match readLiteral rest with
        | Some (lit, after) => Some (String c lit, after)
        | None => None
        end
  end.

(** Removes a prefix, when it is one. *)
Fixpoint stripPrefix (prefix s : string) : option string :=
  match prefix, s with
  | EmptyString, _ => Some s
  | String a prefix', String b s' =>
      if Ascii.eqb a b then stripPrefix prefix' s' else None
  | String _ _, EmptyString => None
  end.

(** [page.$x(expr)] for the expressions of the one shape [findByText]
    builds. [None]: the string is not an expression of that shape (the
    engine rejects a malformed one with an error). *)
Definition evaluate (doc : Node) (expr : string) : option (list Ref) :=
  match stripPrefix expressionHead expr with
  | Some body =>
      match readLiteral body with
      | Some (literal, after) =>
          if after =? ")]"
          then Some (filter (predicate doc literal) (allElements doc))
          else None
      | None => None
      end
  | None => None
  end.

(** The outcome of [findByText]: the handle returned (if any) and the
    handles disposed of, or an error thrown by the query. *)
Inductive Outcome : Type :=
| Threw
| Returned (first : option Ref) (disposed : list Ref).

Definition findByText (doc : Node) (text : string) : Outcome :=
  match evaluate doc (expression text) with
  | None => Threw
  | Some handles =>
      match handles with
      | [] => Returned None []
      | first :: rest => Returned (Some first) rest
      end
  end.

Fixpoint hasQuote (s : string) : bool :=
  match s with
  | EmptyString => false
  | String c rest => Ascii.eqb c dquote || hasQuote rest
  end.

(** In the words of the specification of the text query, which has the
    match run over the text content of every element: the predicate on
    the white-space-normalized [textContent]. *)
Definition textContentPredicate (doc : Node) (literal : string) (r : Ref) : bool :=
  match lookup doc r with
  | Some n => contains (normalizeSpace (textContent n)) literal
  | None => false
  end.

End TextQuery.

(* ===================================================================== *)
(** ** The in-page picker of [pickElement] *)
(* ===================================================================== *)

Module Picker.
Import Js Dom Page.

(** What the page's global object holds under the name [resolve]. The
    picker's click listener calls [resolve], and no scope enclosing that
    listener declares it: the parameter of the promise executor is local
    to the executor, which is a sibling of the listener. The call therefore
    goes through the global object of the page. *)
Inductive GlobalBinding : Type :=
| Unbound
| BoundToNonFunction
| BoundToFunction.

(** What the handoff slot [window.__BT_PICKED_ELEMENT] can hold: a node
    of the document, or some other value a page script put there. *)
Inductive Held : Type :=
| HeldNode (r : Ref)
| HeldOther.

(** What a listener run leaves behind besides the state change. *)
Inductive Effect : Type :=
| PreventDefault
| StopPropagation
| Cleanup
| Uncaught (error : string)
| ForeignCall (argument : option Selection).

(** The closure variables of the evaluated function ([originalCursor],
    [state.highlight], [state.previousOutline], [state.resolved],
    [timerId]), the parts of the page it writes, the promise it returns
    ([settled]: [None] while pending) and the effects so far, oldest
    first. *)
Record State : Type := mkState {
  originalCursor : string;
  highlight : option Ref;
  previousOutline : option string;
  resolved : bool;
  timerId : option nat;
  outline : Ref -> string;
  cursor : string;
  hoverListener : bool;
  clickListener : bool;
  blurListener : bool;
  cancelHook : bool;
  pendingTimeout : option Number;
  pickedElement : option Held;
  settled : option (option Selection);
  effects : list Effect;
}.

Definition setHighlight (s : State) (v : option Ref) : State :=
  mkState (originalCursor s) v (previousOutline s) (resolved s) (timerId s) (outline s) (cursor s) (hoverListener s) (clickListener s) (blurListener s) (cancelHook s) (pendingTimeout s) (pickedElement s) (settled s) (effects s).

Definition setPreviousOutline (s : State) (v : option string) : State :=
  mkState (originalCursor s) (highlight s) v (resolved s) (timerId s) (outline s) (cursor s) (hoverListener s) (clickListener s) (blurListener s) (cancelHook s) (pendingTimeout s) (pickedElement s) (settled s) (effects s).

Definition setResolved (s : State) (v : bool) : State :=
  mkState (originalCursor s) (highlight s) (previousOutline s) v (timerId s) (outline s) (cursor s) (hoverListener s) (clickListener s) (blurListener s) (cancelHook s) (pendingTimeout s) (pickedElement s) (settled s) (effects s).

Definition setTimerId (s : State) (v : option nat) : State :=
  mkState (originalCursor s) (highlight s) (previousOutline s) (resolved s) v (outline s) (cursor s) (hoverListener s) (clickListener s) (blurListener s) (cancelHook s) (pendingTimeout s) (pickedElement s) (settled s) (effects s).

Definition setOutline (s : State) (v : Ref -> string) : State :=
  mkState (originalCursor s) (highlight s) (previousOutline s) (resolved s) (timerId s) v (cursor s) (hoverListener s) (clickListener s) (blurListener s) (cancelHook s) (pendingTimeout s) (pickedElement s) (settled s) (effects s).

Definition setCursor (s : State) (v : string) : State :=
  mkState (originalCursor s) (highlight s) (previousOutline s) (resolved s) (timerId s) (outline s) v (hoverListener s) (clickListener s) (blurListener s) (cancelHook s) (pendingTimeout s) (pickedElement s) (settled s) (effects s).

Definition setHoverListener (s : State) (v : bool) : State :=
  mkState (originalCursor s) (highlight s) (previousOutline s) (resolved s) (timerId s) (outline s) (cursor s) v (clickListener s) (blurListener s) (cancelHook s) (pendingTimeout s) (pickedElement s) (settled s) (effects s).

Definition setClickListener (s : State) (v : bool) : State :=
  mkState (originalCursor s) (highlight s) (previousOutline s) (resolved s) (timerId s) (outline s) (cursor s) (hoverListener s) v (blurListener s) (cancelHook s) (pendingTimeout s) (pickedElement s) (settled s) (effects s).

Definition setBlurListener (s : State) (v : bool) : State :=
  mkState (originalCursor s) (highlight s) (previousOutline s) (resolved s) (timerId s) (outline s) (cursor s) (hoverListener s) (clickListener s) v (cancelHook s) (pendingTimeout s) (pickedElement s) (settled s) (effects s).

Definition setPendingTimeout (s : State) (v : option Number) : State :=
  mkState (originalCursor s) (highlight s) (previousOutline s) (resolved s) (timerId s) (outline s) (cursor s) (hoverListener s) (clickListener s) (blurListener s) (cancelHook s) v (pickedElement s) (settled s) (effects s).

Definition setPickedElement (s : State) (v : option Held) : State :=
  mkState (originalCursor s) (highlight s) (previousOutline s) (resolved s) (timerId s) (outline s) (cursor s) (hoverListener s) (clickListener s) (blurListener s) (cancelHook s) (pendingTimeout s) v (settled s) (effects s).

Definition setSettled (s : State) (v : option (option Selection)) : State :=
  mkState (originalCursor s) (highlight s) (previousOutline s) (resolved s) (timerId s) (outline s) (cursor s) (hoverListener s) (clickListener s) (blurListener s) (cancelHook s) (pendingTimeout s) (pickedElement s) v (effects s).

Definition setEffects (s : State) (v : list Effect) : State :=
  mkState (originalCursor s) (highlight s) (previousOutline s) (resolved s) (timerId s) (outline s) (cursor s) (hoverListener s) (clickListener s) (blurListener s) (cancelHook s) (pendingTimeout s) (pickedElement s) (settled s) v.


Definition refEqb (a b : Ref) : bool :=
  if list_eq_dec Nat.eq_dec a b then true else false.

(** [element.style.outline = value]. *)
Definition writeOutline (s : State) (element : Ref) (value : string) : State :=
  setOutline s (fun r => if refEqb r element then value else outline s r).

Definition emit (s : State) (e : Effect) : State :=
  setEffects s (effects s ++ [e])%list.

(** Calling the [resolve] of the promise: only the first call settles. *)
Definition settle (s : State) (v : option Selection) : State :=
  match settled s with
  | None => setSettled s (Some v)
  | Some _ => s
  end.

Section Session.

Variable page : Page.
Variable globalResolve : GlobalBinding.

Definition cleanup (s : State) : State :=
  let s :=
    match highlight s with
    | Some h => writeOutline s h (nullishOr (previousOutline s) "")
    | None => s
    end in
  let s := setCursor s (originalCursor s) in
  let s := setHoverListener s false in
  let s := setClickListener s false in
  let s :=
    match timerId s with
    | Some _ => setTimerId (setPendingTimeout s None) None
    | None => s
    end in
  emit s Cleanup.

Definition highlightElement (s : State) (element : Ref) : State :=
  match highlight s with
  | Some h =>
      if refEqb h element then s
      else
        let s := writeOutline s h (nullishOr (previousOutline s) "") in
        let s := setHighlight s (Some element) in
        let s := setPreviousOutline s (Some (outline s element)) in
        writeOutline s element "3px solid #ff4444"
  | None =>
      let s := setHighlight s (Some element) in
      let s := setPreviousOutline s (Some (outline s element)) in
      writeOutline s element "3px solid #ff4444"
  end.

(** [resolveSelection(element)] for an event target. The result is [inl]
    of the state with the node stashed and the selection, or [inr] when
    [buildInfo] throws because the target is not an element. *)
Definition resolveSelection (s : State) (element : Ref)
    : (State * option Selection) + State :=
  match buildInfo page element with
  | Some info =>
      let selector := toSelector (cssEscape page) (document page) element in
      let s := setPickedElement s (Some (HeldNode element)) in
      inl (s, Some (mkSelection info selector))
  | None => inr (emit s (Uncaught "TypeError"))
  end.

Definition onHover (s : State) (target : Ref) : State :=
  if resolved s then s
  else if negb (isHTMLElement page target) then s
  else highlightElement s target.

(** The click listener. Its last statement evaluates the callee [resolve]
    first: an unbound name throws before the argument is evaluated; a
    bound one lets [resolveSelection] run and then either throws (not
    callable) or calls the page's own function. The promise is not
    involved in any of the three. *)
Definition onClick (s : State) (target : Ref) : State :=
  let s := emit s PreventDefault in
  let s := emit s StopPropagation in
  if resolved s then s
  else
    let s := setResolved s true in
    let s := cleanup s in
    match globalResolve with
    | Unbound => emit s (Uncaught "ReferenceError: resolve is not defined")
    | BoundToNonFunction =>
        match resolveSelection s target with
        | inl (s, _) => emit s (Uncaught "TypeError: resolve is not a function")
        | inr s => s
        end
    | BoundToFunction =>
        match resolveSelection s target with
        | inl (s, v) => emit s (ForeignCall v)
        | inr s => s
        end
    end.

(** The timer callback, inside the promise executor. *)
Definition onTimeout (s : State) : State :=
  if resolved s then s
  else
    let s := setResolved s true in
    let s := cleanup s in
    settle s None.

(** The blur listener of the window, inside the promise executor. *)
Definition onBlur (s : State) : State :=
  if resolved s then s
  else
    let s := setResolved s true in
    let s := cleanup s in
    settle s None.

(** [window.__BT_PICKER_CANCEL], inside the promise executor. *)
Definition cancel (s : State) : State :=
  if resolved s then s
  else
    let s := setResolved s true in
    let s := cleanup s in
    settle s None.

(** The page state the evaluated function finds: the outlines, the body
    cursor and whatever the handoff slot holds. *)
Record Before : Type := mkBefore {
  outline0 : Ref -> string;
  cursor0 : string;
  picked0 : option Held;
}.

(** The evaluated function up to the point where it awaits its promise. *)
Definition arm (b : Before) (timeout : Number) : State :=
  {|
    originalCursor := cursor0 b;
    highlight := None;
    previousOutline := None;
    resolved := false;
    timerId := if truthyNumber timeout then Some 1 else None;
    outline := outline0 b;
    cursor := "crosshair";
    hoverListener := true;
    clickListener := true;
    blurListener := true;
    cancelHook := true;
    pendingTimeout := if truthyNumber timeout then Some timeout else None;
    pickedElement := picked0 b;
    settled := None;
    effects := [];
  |}.

(** What can happen to the page while the host waits. *)
Inductive Event : Type :=
| Mouseover (target : Ref)
| Click (target : Ref)
| TimerFires
| WindowBlur
| CancelCalled.

(** The page delivers an event to the listener installed for it, if one
    still is; a timer fires only while pending, a once-listener leaves
    when it has run. *)
Definition dispatch (s : State) (e : Event) : State :=
  match e with
  | Mouseover target => if hoverListener s then onHover s target else s
  | Click target => if clickListener s then onClick s target else s
  | TimerFires =>
      match pendingTimeout s with
      | Some _ => onTimeout (setPendingTimeout s None)
      | None => s
      end
  | WindowBlur =>
      if blurListener s then onBlur (setBlurListener s false) else s
  | CancelCalled => if cancelHook s then cancel s else s
  end.

Definition run (s : State) (events : list Event) : State :=
  fold_left dispatch events s.

End Session.

(** How often [cleanup] ran in a list of effects. *)
Fixpoint cleanupCount (l : list Effect) : nat :=
  match l with
  | [] => 0
  | Cleanup :: rest => S (cleanupCount rest)
  | _ :: rest => cleanupCount rest
  end.

(** The events that end a session armed with [timeout]: a click, a blur,
    a call of the cancel hook, and the timer when there is one. *)
Definition ends (timeout : Number) (e : Event) : bool :=
  match e with
  | Mouseover _ => false
  | TimerFires => truthyNumber timeout
  | Click _ | WindowBlur | CancelCalled => true
  end.

(** *** The invariants of a session *)

(** What [cleanup] relies on: it has not run yet, nothing is settled, the
    original cursor is remembered, the timer is pending only if [timerId]
    says so, and every outline but the highlighted node's is the original
    one, the original of the highlighted node being remembered. *)
Record Tidy (b : Before) (s : State) : Prop := mkTidy {
  tidy_count : cleanupCount (effects s) = 0;
  tidy_settled : settled s = None;
  tidy_cursor : originalCursor s = cursor0 b;
  tidy_timer : timerId s = None -> pendingTimeout s = None;
  tidy_outline :
    match highlight s with
    | None => forall r, outline s r = outline0 b r
    | Some h =>
        previousOutline s = Some (outline0 b h) /\
        forall r, r <> h -> outline s r = outline0 b r
    end;
}.

(** While a session is open every handler is installed and the state is
    tidy. *)
Record Open (b : Before) (s : State) : Prop := mkOpen {
  open_resolved : resolved s = false;
  open_hover : hoverListener s = true;
  open_click : clickListener s = true;
  open_blur : blurListener s = true;
  open_cancel : cancelHook s = true;
  open_tidy : Tidy b s;
}.

(** Once a session is over, cleanup has run exactly once and the page is
    as it was found. *)
Record Closed (b : Before) (s : State) : Prop := mkClosed {
  closed_resolved : resolved s = true;
  closed_hover : hoverListener s = false;
  closed_click : clickListener s = false;
  closed_count : cleanupCount (effects s) = 1;
  closed_cursor : cursor s = cursor0 b;
  closed_timer : pendingTimeout s = None;
  closed_timerId : timerId s = None;
  closed_outline : forall r, outline s r = outline0 b r;
}.

(** Until the session ends the timer table and the handoff slot stay as
    [arm] left them. *)
Record Fresh (b : Before) (timeout : Number) (s : State) : Prop := mkFresh {
  fresh_timer :
    pendingTimeout s = if truthyNumber timeout then Some timeout else None;
  fresh_slot : pickedElement s = picked0 b;
}.

(** [timeoutMs || 60000], the argument [pickElement] evaluates the
    function with; [None] is an absent [timeoutMs]. *)
Definition pickTimeout (timeoutMs : option Number) : Number :=
  match timeoutMs with
  | Some t => if truthyNumber t then t else ofZ 60000
  | None => ofZ 60000
  end.

End Picker.

(* ===================================================================== *)
(** ** element.js: the host side *)
(* ===================================================================== *)

Module Element.
Import Js Dom Page.

(** The handle [page.evaluateHandle] gives back for the handoff slot. *)
Inductive JSHandle : Type :=
| NodeHandle (r : Ref)
| ValueHandle.

(** [handle.asElement()]: the handle itself for a node, [null] otherwise. *)
Definition asElement (h : JSHandle) : option Ref :=
  match h with
  | NodeHandle r => Some r
  | ValueHandle => None
  end.

(** The evaluated retrieval: [window.__BT_PICKED_ELEMENT ?? null]. *)
Definition retrieve (slot : option Picker.Held) : JSHandle :=
  match slot with
  | Some (Picker.HeldNode r) => NodeHandle r
  | Some Picker.HeldOther => ValueHandle
  | None => ValueHandle
  end.

(** What the host does to the page and to its handles, in order. *)
Inductive Step : Type :=
| QueriedSelector (selector : string)
| QueriedText (text : string)
| EvaluatedPicker (timeout : Number)
| RetrievedHandoff
| DisposedValue
| Disposed (r : Ref)
| Captured (r : Ref)
| ScrolledIntoView (r : Ref)
| ClickedOn (r : Ref)
| Emitted.

(** How an awaited host call ends. *)
Inductive Completion (A : Type) : Type :=
| Threw (message : string)
| Pending
| Done (value : A) (steps : list Step).
Arguments Threw {A} message.
Arguments Pending {A}.
Arguments Done {A} value steps.

(** The part of [pickElement] after the in-page evaluation has settled
    with [result], the handoff slot holding [slot]. *)
Definition pickElementAfter (p : Page) (result : option Selection)
    (slot : option Picker.Held) : Completion (option (Ref * Info)) :=
  match result with
  | None => Done None []
  | Some selection =>
      let handle := retrieve slot in
      match asElement handle with
      | None => Done None [RetrievedHandoff; DisposedValue]
      | Some element =>
          match collectElementInfo p element (Some (pickedSelector selection)) with
          | Some info => Done (Some (element, info)) [RetrievedHandoff; Captured element]
          | None => Threw "TypeError"
          end
      end
  end.

(** What happens on the page while a pick is awaited. *)
Record Happenings : Type := mkHappenings {
  before : Picker.Before;
  globalResolve : Picker.GlobalBinding;
  events : list Picker.Event;
}.

(** [pickElement(page, timeoutMs)]: [Pending] while the promise of the
    evaluated function has not settled. *)
Definition pickElement (p : Page) (timeoutMs : option Number) (h : Happenings)
    : Completion (option (Ref * Info)) :=
  let timeout := Picker.pickTimeout timeoutMs in
  let s := Picker.run p (globalResolve h) (Picker.arm (before h) timeout) (events h) in
  match Picker.settled s with
  | None => Pending
  | Some result =>
      match pickElementAfter p result (Picker.pickedElement s) with
      | Done v steps => Done v (EvaluatedPicker timeout :: steps)
      | other => other
      end
  end.

(** The parsed command line, as the main flow reads it. *)
Record Args : Type := mkArgs {
  click : bool;
  scroll : bool;
  json : bool;
  quiet : bool;
  positional : option string;
  textFlag : option string;
  timeoutFlag : Value;
}.

(** A line of the informational log. *)
Inductive LogLine : Type :=
| LogScrolled
| LogClicked
| LogElement (selector : string).

(** What the process has written and how it ended. *)
Inductive Printed : Type :=
| AsJson (j : Config.Json)
| AsText (info : Info).

Inductive ErrLine : Type :=
| Message (line : string)
| Log (l : LogLine).

Inductive Outcome : Type :=
| Exited (code : Z) (out : list Printed) (err : list ErrLine)
| Hung (err : list ErrLine).

Record Run : Type := mkRun {
  outcome : Outcome;
  steps : list Step;
  finalPage : Page;
}.

(** The object written on success. *)
Definition output (info : Info) : Config.Json :=
  Config.JObject [
    ("ok", Config.JBool true);
    ("selector", Config.JString (selector info));
    ("tag", Config.JString (tag info));
    ("id", match Page.id info with
           | Some i => Config.JString i
           | None => Config.JNull
           end);
    ("classes", Config.JArray (map Config.JString (classes info)));
    ("text", Config.JString (text info));
    ("attributes",
       Config.JObject (map (fun kv => (fst kv, Config.JString (snd kv)))
                         (Page.attributes info)));
    ("rect", Config.JObject [
       ("x", Config.JNum (x (rect info)));
       ("y", Config.JNum (y (rect info)));
       ("width", Config.JNum (width (rect info)));
       ("height", Config.JNum (height (rect info)))]);
    ("visible", Config.JBool (visible info));
    ("children", Config.JNum (Z.of_nat (children info)))
  ].

Section Host.

(** The browser behind the puppeteer calls: the CSS query of [page.$]
    ([inl] is the message of a thrown error), the scroll and the click
    with their effect on the page, and the message of a rejected XPath
    expression. *)
Variable query : Page -> string -> string + option Ref.
Variable scrollIntoView : Page -> Ref -> Page.
Variable clickElement : Page -> Ref -> string + Page.
Variable xpathError : string.
Variable stringToNumber : string -> Number.

(** [resolveElement(page, { selector, textSearch, timeout })]. *)
Definition resolveElement (p : Page) (rawSelector rawText : option string)
    (timeoutMs : Number) (h : Happenings) : Completion (option (Ref * Info)) :=
  if truthyString rawSelector then
    let rawSelector := nullishOr rawSelector "" in
    match query p rawSelector with
    | inl message => Threw message
    | inr None => Done None [QueriedSelector rawSelector]
    | inr (Some handle) =>
        match collectElementInfo p handle (Some rawSelector) with
        | Some info =>
            Done (Some (handle, info)) [QueriedSelector rawSelector; Captured handle]
        | None => Threw "TypeError"
        end
    end
  else if truthyString rawText then
    let rawText := nullishOr rawText "" in
    match TextQuery.findByText (document p) rawText with
    | TextQuery.Threw => Threw xpathError
    | TextQuery.Returned None _ => Done None [QueriedText rawText]
    | TextQuery.Returned (Some handle) rest =>
        match collectElementInfo p handle None with
        | Some info =>
            Done (Some (handle, info))
              (QueriedText rawText :: map Disposed rest ++ [Captured handle])%list
        | None => Threw "TypeError"
        end
    end
  else pickElement p (Some timeoutMs) h.

(** [logger.info]: silent under [--quiet] or [--json]. *)
Definition info (a : Args) (l : LogLine) : list ErrLine :=
  if negb (quiet a) && negb (json a) then [Log l] else [].

(** A stop through [fail(message, { json })]. *)
Definition failed (a : Args) (message : string) (err : list ErrLine)
    (done : list Step) (p : Page) : Run :=
  let e := Config.fail message None (json a) in
  mkRun
    (Exited (Config.exitCode e) (map AsJson (Config.stdout e))
       (err ++ map Message (Config.stderr e))%list)
    done p.

(** The main flow of the command once the browser is connected and the
    active page [p0] is found. *)
Definition main (a : Args) (p0 : Page) (h : Happenings) : Run :=
  let selector := positional a in
  let textSearch := textFlag a in
  let timeout := Config.normalizeNumber stringToNumber (timeoutFlag a) (ofZ 15000) in
  match resolveElement p0 selector textSearch timeout h with
  | Threw message => failed a ("Element lookup failed: " ++ message) [] [] p0
  | Pending => mkRun (Hung []) [] p0
  | Done None done =>
      let message :=
        if truthyString selector
        then "Selector not found: " ++ nullishOr selector ""
        else if truthyString textSearch
        then "No element found containing text: " ++ nullishOr textSearch ""
        else "No element selected." in
      failed a message [] done p0
  | Done (Some (handle, found)) done =>
      let '(p1, done, err) :=
        if scroll a
        then (scrollIntoView p0 handle,
              (done ++ [ScrolledIntoView handle])%list,
              info a LogScrolled)
        else (p0, done, []) in
      let clicked :=
        if click a
        then
          match clickElement p1 handle with
          | inl message => inl message
          | inr p2 => inr (p2, (done ++ [ClickedOn handle])%list,
                           (err ++ info a LogClicked)%list)
          end
        else inr (p1, done, err) in
      match clicked with
      | inl message => failed a ("Click failed: " ++ message) err done p1
      | inr (p2, done, err) =>
          let printed :=
            if json a then [AsJson (output found)] else [AsText found] in
          let err :=
            if json a then err
            else (err ++ info a (LogElement (Page.selector found)))%list in
          mkRun (Exited 0 printed err)
            (done ++ [Emitted; Disposed handle])%list p2
      end
  end.

End Host.

End Element.

(* ===================================================================== *)
(** ** Selectors: the synthesis as the specification words it, and the
       CSS query that reads a selector back *)
(* ===================================================================== *)

Module Css.
Import Dom.

(** A compound selector of the fragment the synthesizer emits. *)
Inductive Compound : Type :=
| ById (name : string)
| ByType (tag : string) (classes : list string) (nth : option nat).

(** A chain of compounds under the child combinator, the subject first
    and its ancestors after it. *)
Definition Chain : Type := list Compound.

(** *** The synthesis in the words of the specification *)

(** How many of the first [i] child nodes are elements named [name]. *)
Fixpoint sameTypeBefore (name : string) (i : nat) (kids : list Node) : nat :=
  match i, kids with
  | S i', Element d _ :: rest =>
      (if nodeName d =? name then 1 else 0) + sameTypeBefore name i' rest
  | S i', Text _ :: rest => sameTypeBefore name i' rest
  | _, _ => 0
  end.

(** How many child elements are named [name]. *)
Definition sameTypeCount (name : string) (kids : list Node) : nat :=
  sameTypeBefore name (List.length kids) kids.

(** In the words of the specification of the synthesizer: the segment
    of a node without id is its lower-cased tag name with every class,
    and the 1-based position among the same-tag siblings exactly when
    the parent has more than one child of that tag. *)
Definition segment (doc : Node) (r : Ref) (d : ElementData) : Compound :=
  ByType (toLowerCase (nodeName d)) (classList d)
    match r with
    | [] => None
    | i :: parent =>
        let kids := childNodesOf doc parent in
        if (1 <? sameTypeCount (nodeName d) kids)%nat
        then Some (S (sameTypeBefore (nodeName d) i kids))
        else None
    end.

(** The walk from the node toward the root: it stops at the first node
    with a non-empty id, which contributes the id alone. *)
Fixpoint segmentsUp (doc : Node) (r : Ref) : Chain :=
  match element doc r with
  | Some d =>
      if negb (id d =? "") then [ById (id d)]
      else
        segment doc r d ::
        match r with
        | [] => []
        | _ :: parent => segmentsUp doc parent
        end
  | None => []
  end.

Section Rendering.

Variable escape : string -> string.

Fixpoint renderClasses (classes : list string) : string :=
  match classes with
  | [] => ""
  | c :: rest => "." ++ escape c ++ renderClasses rest
  end.

Definition renderNth (nth : option nat) : string :=
  match nth with
  | Some n => ":nth-of-type(" ++ decimal n ++ ")"
  | None => ""
  end.

Definition renderCompound (c : Compound) : string :=
  match c with
  | ById name => "#" ++ escape name
  | ByType tag classes nth => tag ++ renderClasses classes ++ renderNth nth
  end.

(** The segments joined in root-to-node order. *)
Definition render (chain : Chain) : string :=
  String.concat " > " (map renderCompound (rev chain)).

End Rendering.

(** The selector the specification describes for the node [r]. *)
Definition specSelector (cssEscape : option (string -> string)) (doc : Node)
    (r : Ref) : string :=
  render (escapeIdent cssEscape) (segmentsUp doc r).

(** *** Reading a selector: identifiers *)

Definition backslash : ascii := ascii_of_nat 92.

Definition isDigit (c : ascii) : bool :=
  let n := nat_of_ascii c in ((48 <=? n) && (n <=? 57))%nat.

Definition isLetter (c : ascii) : bool :=
  let n := nat_of_ascii c in
  (((97 <=? n) && (n <=? 122)) || ((65 <=? n) && (n <=? 90)))%nat.

Definition isNonAscii (c : ascii) : bool := (128 <=? nat_of_ascii c)%nat.

(** An ident-start code point and an ident code point of CSS Syntax. *)
Definition isIdentStart (c : ascii) : bool :=
  isLetter c || isNonAscii c || (nat_of_ascii c =? 95)%nat.

Definition isIdentChar (c : ascii) : bool :=
  isIdentStart c || isDigit c || (nat_of_ascii c =? 45)%nat.

Definition isHexDigit (c : ascii) : bool :=
  let n := nat_of_ascii c in
  (isDigit c || ((97 <=? n) && (n <=? 102)) || ((65 <=? n) && (n <=? 70)))%nat.

(** Line feed, form feed, carriage return. *)
Definition isNewline (c : ascii) : bool :=
  let n := nat_of_ascii c in ((n =? 10) || (n =? 12) || (n =? 13))%nat.

Definition isNul (c : ascii) : bool := (nat_of_ascii c =? 0)%nat.

Definition isHyphen (c : ascii) : bool := (nat_of_ascii c =? 45)%nat.

Definition prepend (c : ascii) (r : option (string * string))
    : option (string * string) :=
  match r with
  | Some (name, rest) => Some (String c name, rest)
  | None => None
  end.

(** Consuming an ident sequence: ident code points, and a backslash with
    the character it escapes. Numeric escapes (a backslash before a hex
    digit), an escaped NUL and a backslash at the end of the input are
    outside the fragment, answered by [None]; a backslash before a
    newline is no escape and ends the name. *)
Fixpoint consumeName (s : string) : option (string * string) :=
  match s with
  | EmptyString => Some (EmptyString, EmptyString)
  | String c rest =>
      if isIdentChar c then prepend c (consumeName rest)
      else if Ascii.eqb c backslash then
        match rest with
        | EmptyString => None
        | String d rest' =>
            if isNewline d then Some (EmptyString, s)
            else if isHexDigit d || isNul d then None
            else prepend d (consumeName rest')
        end
      else Some (EmptyString, s)
  end.

(** Whether two characters are a valid escape. *)
Definition validEscape (s : string) : bool :=
  match s with
  | String c (String d _) => Ascii.eqb c backslash && negb (isNewline d)
  | _ => false
  end.

(** Whether the input would start an ident sequence. *)
Definition startsIdent (s : string) : bool :=
  match s with
  | EmptyString => false
  | String c rest =>
      if isHyphen c then
        match rest with
        | EmptyString => false
        | String d _ => isIdentStart d || isHyphen d || validEscape rest
        end
      else isIdentStart c || validEscape s
  end.

(** An ident token. *)
Definition parseIdent (s : string) : option (string * string) :=
  if startsIdent s then consumeName s else None.

(** *** Reading a selector: compounds and chains *)

(** The class selectors of a compound; [fuel] bounds their number. *)
Fixpoint parseClasses (fuel : nat) (s : string) : option (list string * string) :=
  match s with
  | String "." rest =>
      match fuel with
      | 0 => None
      | S fuel' =>
          match parseIdent rest with
          | Some (c, rest') =>
              match parseClasses fuel' rest' with
              | Some (cs, after) => Some (c :: cs, after)
              | None => None
              end
          | None => None
          end
      end
  | _ => Some ([], s)
  end.

(** The longest prefix of digits. *)
Fixpoint spanDigits (s : string) : string * string :=
  match s with
  | EmptyString => (EmptyString, EmptyString)
  | String c rest =>
      if isDigit c
      then let (ds, after) := spanDigits rest in (String c ds, after)
      else (EmptyString, s)
  end.

(** The functional pseudo-class [:nth-of-type(n)] with a plain integer
    argument, when the input starts with one. *)
Definition parseNth (s : string) : option (option nat * string) :=
  match TextQuery.stripPrefix ":nth-of-type(" s with
  | Some body =>
      let (ds, after) := spanDigits body in
      match ds, after with
      | String _ _, String ")" rest =>
          match NilEmpty.uint_of_string ds with
          | Some u => Some (Some (Nat.of_uint u), rest)
          | None => None
          end
      | _, _ => None
      end
  | None => Some (None, s)
  end.

Definition parseCompound (fuel : nat) (s : string) : option (Compound * string) :=
  match s with
  | String "#" rest =>
      match parseIdent rest with
      | Some (name, after) => Some (ById name, after)
      | None => None
      end
  | _ =>
      match parseIdent s with
      | Some (tag, rest) =>
          match parseClasses fuel rest with
          | Some (classes, rest') =>
              match parseNth rest' with
              | Some (nth, after) => Some (ByType tag classes nth, after)
              | None => None
              end
          | None => None
          end
      | None => None
      end
  end.

(** Compounds separated by the child combinator, written with one space
    on either side; the compounds read so far are in [seen], the last
    one first. *)
Fixpoint parseChain (fuel : nat) (seen : Chain) (s : string) : option Chain :=
  match fuel with
  | 0 => None
  | S fuel' =>
      match parseCompound fuel s with
      | Some (c, EmptyString) => Some (c :: seen)
      | Some (c, rest) =>
          match TextQuery.stripPrefix " > " rest with
          | Some rest' => parseChain fuel' (c :: seen) rest'
          | None => None
          end
      | None => None
      end
  end.

(** A selector of the fragment, the subject first. *)
Definition parseSelector (s : string) : option Chain :=
  parseChain (S (String.length s)) [] s.

(** *** Matching *)

(** The position of an element among the siblings of its type, from 1. *)
Definition typeIndex (doc : Node) (r : Ref) (d : ElementData) : nat :=
  match r with
  | [] => 1
  | i :: parent => S (sameTypeBefore (nodeName d) i (childNodesOf doc parent))
  end.

Definition hasClass (d : ElementData) (c : string) : bool :=
  existsb (String.eqb c) (classList d).

(** Whether the element at [r] matches a compound. Elements are HTML
    elements of an HTML document in no-quirks mode: a type selector is
    compared with the element's name without regard to ASCII case; ids
    and classes are compared exactly. *)
Definition matchesCompound (doc : Node) (r : Ref) (c : Compound) : bool :=
  match element doc r with
  | Some d =>
      match c with
      | ById name => id d =? name
      | ByType tag classes nth =>
          (toLowerCase tag =? toLowerCase (nodeName d))
          && forallb (hasClass d) classes
          && match nth with
             | Some n => (typeIndex doc r d =? n)%nat
             | None => true
             end
      end
  | None => false
  end.

(** Whether the element at [r] matches the chain: the subject matches
    the first compound and, under the child combinator, its parent
    matches the rest. *)
Fixpoint matchesChain (doc : Node) (r : Ref) (chain : Chain) {struct chain}
    : bool :=
  match chain with
  | [] => true
  | c :: ancestors =>
      matchesCompound doc r c &&
      match ancestors with
      | [] => true
      | _ :: _ =>
          match r with
          | [] => false
          | _ :: parent => matchesChain doc parent ancestors
          end
      end
  end.

(** *** The documents and nodes the round trip is stated for *)

(** What may follow an identifier in a selector of the fragment: the end,
    or a character that neither continues the name nor starts an escape. *)
Definition delimited (rest : string) : bool :=
  match rest with
  | EmptyString => true
  | String c _ => negb (isIdentChar c) && negb (Ascii.eqb c backslash)
  end.

(** No newline and no NUL. *)
Fixpoint clean (s : string) : bool :=
  match s with
  | EmptyString => true
  | String c rest => negb (isNewline c || isNul c) && clean rest
  end.

(** The names the fallback escaper turns into an identifier that reads
    back as the name: not empty, free of newlines and NUL, not starting
    with a digit, nor with a hyphen that is alone or before a digit. *)
Definition fallbackSafe (name : string) : bool :=
  match name with
  | EmptyString => false
  | String c rest =>
      negb (isDigit c)
      && (if isHyphen c
          then match rest with
               | EmptyString => false
               | String d _ => negb (isDigit d)
               end
          else true)
      && clean name
  end.

Fixpoint allWordChars (s : string) : bool :=
  match s with
  | EmptyString => true
  | String c rest => isWordChar c && allWordChars rest
  end.

(** A name that is an identifier as it stands. *)
Definition plainIdent (name : string) : bool :=
  allWordChars name && fallbackSafe name.

(** An escaper writes the name [name] properly when the identifier it
    writes reads back as [name] wherever an identifier may end. *)
Definition readsBack (escape : string -> string) (name : string) : Prop :=
  forall rest, delimited rest = true ->
    parseIdent (escape name ++ rest) = Some (name, rest).

(** Where a compound of the fragment may end: at the end of the input or
    before the space of a combinator. *)
Definition compoundEnd (rest : string) : bool :=
  match rest with
  | EmptyString => true
  | String c _ => Ascii.eqb c " "
  end.

(** What a compound must satisfy to read back: its tag is an identifier
    as it stands, and its id or classes are written properly. *)
Definition Readable (escape : string -> string) (c : Compound) : Prop :=
  match c with
  | ById name => readsBack escape name
  | ByType tag classes _ =>
      plainIdent tag = true /\ Forall (readsBack escape) classes
  end.

(** The nearest node with a non-empty id on the way up from [r]. *)
Fixpoint anchorOf (doc : Node) (r : Ref) : option Ref :=
  match element doc r with
  | Some d =>
      if negb (id d =? "") then Some r
      else
        match r with
        | [] => None
        | _ :: parent => anchorOf doc parent
        end
  | None => None
  end.

Definition hasId (doc : Node) (name : string) (r : Ref) : bool :=
  match element doc r with
  | Some d => id d =? name
  | None => false
  end.

(** [r] is below (or is) a node with an id, and no other element of the
    document carries that id. *)
Definition anchoredUniquely (doc : Node) (r : Ref) : bool :=
  match anchorOf doc r with
  | Some a =>
      match element doc a with
      | Some d =>
          (List.length (filter (hasId doc (id d)) (allElements doc)) =? 1)%nat
      | None => false
      end
  | None => false
  end.

(** Every element name is in upper case, as the names of HTML elements
    in an HTML document are. *)
Definition canonicalNames (doc : Node) : bool :=
  forallb
    (fun r =>
       match element doc r with
       | Some d => nodeName d =? toUpperCase (nodeName d)
       | None => true
       end)
    (allElements doc).

(** The tag names of the segments of a chain are identifiers as they
    stand. *)
Fixpoint plainTags (chain : Chain) : bool :=
  match chain with
  | [] => true
  | ById _ :: rest => plainTags rest
  | ByType tag _ _ :: rest => plainIdent tag && plainTags rest
  end.

(** The ids and classes of a chain, which the synthesizer escapes. *)
Fixpoint escapedNames (chain : Chain) : list string :=
  match chain with
  | [] => []
  | ById name :: rest => name :: escapedNames rest
  | ByType _ classes _ :: rest => (classes ++ escapedNames rest)%list
  end.

(** The names are escaped properly: by the native primitive when the
    page has one, which is then taken to do its job on them; by the
    fallback otherwise, which does on the names that are safe for it. *)
Definition escapesProperly (cssEscape : option (string -> string))
    (names : list string) : Prop :=
  match cssEscape with
  | Some native => Forall (readsBack native) names
  | None => forallb fallbackSafe names = true
  end.

(** The outcome of [document.querySelector]. *)
Inductive Answer : Type :=
| NotInFragment
| Matched (first : option Ref).

(** [document.querySelector(selector)]: the first element in document
    order that matches. *)
Definition querySelector (doc : Node) (selector : string) : Answer :=
  match parseSelector selector with
  | Some chain => Matched (find (fun r => matchesChain doc r chain) (allElements doc))
  | None => NotInFragment
  end.

End Css.

(* ===================================================================== *)
(** ** A small page used to run the definitions *)
(* ===================================================================== *)

Module Sample.
Import Js Dom Page.

Definition el (name ident : string) (classes : list string)
    (kids : list Node) : Node :=
  Element (mkElementData name ident classes []) kids.

(** A form with two buttons below an anchored [div], and a second [div]
    without an id. *)
Definition doc : Node :=
  el "HTML" "" [] [
    el "BODY" "" [] [
      el "DIV" "main" [] [
        Text "  Sign   in ";
        el "BUTTON" "" ["btn"; "primary"] [Text "Submit"];
        el "P" "" [] [el "B" "" [] [Text "Submit"]; Text " now"];
        el "BUTTON" "" [] [Text "Cancel"]
      ];
      el "DIV" "" [] []
    ]
  ].

(** Every element is 100 by 20 at (10, 1000), is an HTML element, is
    rendered, and has no [innerText] override. *)
Definition page : Page :=
  {|
    document := doc;
    cssEscape := None;
    getBoundingClientRect := fun _ => mkDOMRect (10 # 1) (1000 # 1) (100 # 1) (20 # 1);
    innerText := fun _ => None;
    offsetParent := fun _ => true;
    isHTMLElement := fun _ => true;
  |}.

(** The same page scrolled by 700. *)
Definition scrolled (p : Page) : Page :=
  {|
    document := document p;
    cssEscape := cssEscape p;
    getBoundingClientRect := fun r =>
      let box := getBoundingClientRect p r in
      mkDOMRect (rx box) (ry box - (700 # 1))%Q (rwidth box) (rheight box);
    innerText := innerText p;
    offsetParent := offsetParent p;
    isHTMLElement := isHTMLElement p;
  |}.

Definition before : Picker.Before :=
  {|
    Picker.outline0 := fun r => match r with [] => "1px dotted" | _ => "" end;
    Picker.cursor0 := "pointer";
    Picker.picked0 := None;
  |}.

(** The first button of the form. *)
Definition button : Ref := [1; 0; 0].

(** A document in which two [div] elements carry the same id. *)
Definition twins : Node :=
  el "HTML" "" [] [
    el "BODY" "" [] [
      el "DIV" "a" [] [el "SPAN" "" [] [Text "first"]];
      el "DIV" "a" [] [el "SPAN" "" [] [Text "second"]]
    ]
  ].

(** The [span] below the second of them. *)
Definition secondSpan : Ref := [0; 1; 0].

(** A browser for the sample page: it knows two selectors, scrolls by 700
    and clicks without changing the page. *)
Definition query (p : Page) (selector : string) : string + option Ref :=
  if selector =? "#main" then inr (Some [0; 0])
  else if selector =? "button" then inr (Some button)
  else inr None.

Definition scrollIntoView (p : Page) (r : Ref) : Page := scrolled p.

Definition clickElement (p : Page) (r : Ref) : string + Page := inr p.

Definition stringToNumber (s : string) : Number := NaN.

(** Nothing happens on the page. *)
Definition quietPage : Element.Happenings :=
  Element.mkHappenings before Picker.Unbound [].

(** The command line [element.js button --scroll --json]. *)
Definition scrollArgs : Element.Args :=
  {|
    Element.click := false;
    Element.scroll := true;
    Element.json := true;
    Element.quiet := false;
    Element.positional := Some "button";
    Element.textFlag := None;
    Element.timeoutFlag := VNum (ofZ 15000);
  |}.

(** The command line [element.js .missing --json]. *)
Definition missingArgs : Element.Args :=
  {|
    Element.click := false;
    Element.scroll := false;
    Element.json := true;
    Element.quiet := false;
    Element.positional := Some ".missing";
    Element.textFlag := None;
    Element.timeoutFlag := VNum (ofZ 15000);
  |}.

End Sample.

(* ===================================================================== *)
(** ** config.js: the command line parser *)
(* ===================================================================== *)

Module Argv.
Import Js.

(** [key.replace(/^--?/, "")]: one leading dash, or two, are removed. *)
Definition normalizeKey (key : string) : string :=
  match key with
  | String "-" (String "-" rest) => rest
  | String "-" rest => rest
  | _ => key
  end.

(** [coerceBoolean(value)] for a boolean or a string (the one call hands
    over a piece of the token). *)
Definition coerceBoolean (value : bool + string) : bool :=
  match value with
  | inl b => b
  | inr s =>
      let normalized := Dom.toLowerCase s in
      if existsb (String.eqb normalized) ["false"; "0"; "no"; "off"]
      then false
      else true
  end.

(** The text before the first [=] of a string and, when there is one, the
    text after it. *)
Fixpoint cut (s : string) : string * option string :=
  match s with
  | EmptyString => (EmptyString, None)
  | String c rest =>
      if Ascii.eqb c "="
      then (EmptyString, Some rest)
      else let (before, after) := cut rest in (String c before, after)
  end.

(** [token.split("=", 2)]: the first piece and, when the token holds a
    [=], the second piece, which ends at the next [=]. *)
Definition split2 (token : string) : string * option string :=
  let (rawKey, rest) := cut token in
  (rawKey, option_map (fun r => fst (cut r)) rest).

(** [s.slice(n)] for a non-negative [n]. *)
Fixpoint sliceFrom (n : nat) (s : string) : string :=
  match n, s with
  | O, _ => s
  | S n', String _ rest => sliceFrom n' rest
  | S _, EmptyString => EmptyString
  end.

(** What the result object holds under a key: the array of positional
    arguments (under [_]) or the value of a flag. *)
Inductive Entry : Type :=
| Positional (items : list string)
| Flag (v : Value).

(** The own properties of the result object, the latest assignment first;
    the object is only ever looked up by key. *)
Definition Object : Type := list (string * Entry).

Fixpoint own (result : Object) (key : string) : option Entry :=
  match result with
  | [] => None
  | (k, e) :: rest => if k =? key then Some e else own rest key
  end.

(** The property names every plain object inherits from
    [Object.prototype]. *)
Definition prototypeKeys : list string :=
  ["constructor"; "__defineGetter__"; "__defineSetter__"; "hasOwnProperty";
   "__lookupGetter__"; "__lookupSetter__"; "isPrototypeOf";
   "propertyIsEnumerable"; "toString"; "valueOf"; "__proto__";
   "toLocaleString"].

Definition inherited (key : string) : bool :=
  existsb (String.eqb key) prototypeKeys.

(** [key in result]. *)
Definition has (result : Object) (key : string) : bool :=
  match own result key with
  | Some _ => true
  | None => inherited key
  end.

(** [result[key] = value] for a primitive value: the inherited setter of
    [__proto__] ignores it, every other key becomes an own property. *)
Definition assign (result : Object) (key : string) (e : Entry) : Object :=
  if key =? "__proto__" then result else (key, e) :: result.

(** A default: a plain value, or a function called when the default is
    needed. *)
Inductive Default : Type :=
| Constant (v : Value)
| Computed (f : unit -> Value).

Definition force (d : Default) : Value :=
  match d with
  | Constant v => v
  | Computed f => f tt
  end.

(** The options of [parseArgs]; [alias] and [defaults] are the entries of
    the two objects. *)
Record Options : Type := mkOptions {
  boolean : list string;
  string_ : list string;
  number : list string;
  alias : list (string * string);
  defaults : list (string * Default);
}.

(** How [parseArgs] ends: with the result object, or with the
    [TypeError] of a [push] on something that is no array. *)
Inductive Outcome : Type :=
| TypeError
| Parsed (result : Object).

(** [result._.push(...tokens)]. *)
Definition push (result : Object) (tokens : list string) : Outcome :=
  match own result "_" with
  | Some (Positional items) =>
      Parsed (("_", Positional (items ++ tokens)%list) :: result)
  | _ => TypeError
  end.

(** [new Set(names.map(normalizeKey)).has(key)]. *)
Definition member (names : list string) (key : string) : bool :=
  existsb (fun name => normalizeKey name =? key) names.

(** The own property [key] of the alias object built by
    [Object.fromEntries]: of two entries with the same normalized key the
    later one stays. *)
Fixpoint ownAlias (alias : list (string * string)) (key : string)
    : option string :=
  match alias with
  | [] => None
  | (name, target) :: rest =>
      match ownAlias rest key with
      | Some t => Some t
      | None => if normalizeKey name =? key then Some (normalizeKey target) else None
      end
  end.

Section Parser.

(** [Number(s)] is the engine's, and so is the text [String(f)] of the
    members of [Object.prototype], under which a flag named like one of
    them is stored. *)
Variable stringToNumber : string -> Number.
Variable nativeText : string -> string.

(** [aliases[normalized] ?? normalized], as a property key. *)
Definition target (o : Options) (key : string) : string :=
  let normalized := normalizeKey key in
  match ownAlias (alias o) normalized with
  | Some t => t
  | None => if inherited normalized then nativeText normalized else normalized
  end.

Definition assignValue (o : Options) (result : Object) (key : string)
    (value : Value) : Object :=
  assign result (target o key) (Flag value).

(** The loop over [argv], from the token at [index] on. *)
Fixpoint scan (o : Options) (argv : list string) (result : Object) : Outcome :=
  match argv with
  | [] => Parsed result
  | token :: rest =>
      if token =? "--" then push result rest
      else if negb (prefix "-" token) then
        match push result [token] with
        | Parsed result => scan o rest result
        | TypeError => TypeError
        end
      else if prefix "--no-" token then
        let key := sliceFrom 5 token in
        scan o rest (assignValue o result key (VBool false))
      else
        let (rawKey, inlineValue) := split2 token in
        let key := normalizeKey rawKey in
        if member (boolean o) key then
          scan o rest
            (assignValue o result key
               (VBool match inlineValue with
                      | None => true
                      | Some v => coerceBoolean (inr v)
                      end))
        else
          let expectsString := member (string_ o) key in
          let expectsNumber := member (number o) key in
          match inlineValue with
          | Some v =>
              scan o rest
                (assignValue o result key
                   (if expectsNumber then VNum (stringToNumber v) else VStr v))
          | None =>
              match rest with
              | nextToken :: rest' =>
                  if (expectsString || expectsNumber) && negb (prefix "--" nextToken)
                  then
                    scan o rest'
                      (assignValue o result key
                         (if expectsNumber then VNum (stringToNumber nextToken)
                          else VStr nextToken))
                  else if expectsString || expectsNumber then
                    scan o rest
                      (assignValue o result key
                         (if expectsNumber then VNum NaN else VStr ""))
                  else scan o rest (assignValue o result key (VBool true))
              | [] =>
                  if expectsString || expectsNumber then
                    scan o rest
                      (assignValue o result key
                         (if expectsNumber then VNum NaN else VStr ""))
                  else scan o rest (assignValue o result key (VBool true))
              end
          end
  end.

(** The loop over the entries of [defaults]. *)
Fixpoint applyDefaults (defaults : list (string * Default)) (result : Object)
    : Object :=
  match defaults with
  | [] => result
  | (key, value) :: rest =>
      applyDefaults rest
        (if has result key then result else assign result key (Flag (force value)))
  end.

(** [parseArgs(argv, options)]. *)
Definition parseArgs (o : Options) (argv : list string) : Outcome :=
  match scan o argv [("_", Positional [])] with
  | Parsed result => Parsed (applyDefaults (defaults o) result)
  | TypeError => TypeError
  end.

End Parser.

(** [args[key]] for a key that is not inherited. *)
Definition read (result : Object) (key : string) : Value :=
  match own result key with
  | Some (Flag v) => v
  | _ => VUndefined
  end.

(** The first default written for a key. *)
Fixpoint defaultFor (defaults : list (string * Default)) (key : string)
    : option Default :=
  match defaults with
  | [] => None
  | (k, d) :: rest => if k =? key then Some d else defaultFor rest key
  end.

(** Truthiness of a flag value. *)
Definition truthy (v : Value) : bool :=
  match v with
  | VUndefined => false
  | VBool b => b
  | VNum n => truthyNumber n
  | VStr s => negb (s =? "")
  end.

(** [l] is [argv] with some tokens left out. *)
Inductive Subsequence : list string -> list string -> Prop :=
| subsequence_nil : Subsequence [] []
| subsequence_skip (t : string) (l argv : list string) :
    Subsequence l argv -> Subsequence l (t :: argv)
| subsequence_keep (t : string) (l argv : list string) :
    Subsequence l argv -> Subsequence (t :: l) (t :: argv).

(** Whether a string holds a [=]. *)
Fixpoint hasEquals (s : string) : bool :=
  match s with
  | EmptyString => false
  | String c rest => Ascii.eqb c "=" || hasEquals rest
  end.

(** A flag name as it is written after the dashes: not empty, no dash in
    front, no [=] inside. *)
Definition plainKey (key : string) : bool :=
  negb (key =? "") && negb (prefix "-" key) && negb (hasEquals key).

(** The options of the element command. *)
Definition elementOptions : Options :=
  {|
    boolean := ["click"; "scroll"; "json"; "quiet"];
    string_ := ["text"; "ws"; "host"];
    number := ["port"; "timeout"];
    alias := [("j", "json"); ("q", "quiet")];
    defaults := [("port", Constant (VNum Config.DEFAULT_PORT));
                 ("timeout", Constant (VNum (ofZ 15000)))];
  |}.

End Argv.

(* ===================================================================== *)
(** ** config.js: pages, paths and polling *)
(* ===================================================================== *)

Module Util.
Import Js.

(** [pages[index]] for a number: an element exists under the integers
    from 0 up to the length, and under nothing else. *)
Definition elementAt {P : Type} (pages : list P) (index : Number) : option P :=
  match index with
  | Finite q =>
      if ((Qnum q mod Zpos (Qden q) =? 0)%Z && (0 <=? Qnum q)%Z)%bool
      then nth_error pages (Z.to_nat (Qnum q / Zpos (Qden q)))
      else None
  | _ => None
  end.

(** [index === -1]. *)
Definition isMinusOne (index : Number) : bool :=
  match index with
  | Finite q => Qeq_bool q (inject_Z (-1))
  | _ => false
  end.

(** [getActivePage(browser, { index = -1 })], [pages] being what
    [browser.pages()] answers; [None] is [null]. *)
Definition getActivePage {P : Type} (pages : list P) (index : option Number)
    : option P :=
  let index := nullishOr index (ofZ (-1)) in
  if (List.length pages =? 0)%nat then None
  else if isMinusOne index
       then nth_error pages (List.length pages - 1)
       else elementAt pages index.

Section Files.

(** The file system and the path functions of the platform. *)
Variable existsSync : string -> bool.
Variable homedir : string.
Variable join : string -> string -> string.
Variable resolvePath : string -> string.

(** [findExistingPath(paths)]; a candidate is a string or [undefined]. *)
Fixpoint findExistingPath (paths : list (option string)) : option string :=
  match paths with
  | [] => None
  | candidate :: rest =>
      if negb (truthyString candidate) then findExistingPath rest
      else if existsSync (nullishOr candidate "") then candidate
      else findExistingPath rest
  end.

(** [expandPath(value)]. *)
Definition expandPath (value : option string) : option string :=
  if negb (truthyString value) then value
  else
    let value := nullishOr value "" in
    if prefix "~" value
    then Some (resolvePath (join homedir (Argv.sliceFrom 1 value)))
    else Some (resolvePath value).

(** [value && expandPath(value)]. *)
Definition expanded (value : option string) : option string :=
  if truthyString value then expandPath value else value.

(** [resolveChromeExecutable(parsed)] of start.js: the two spellings of
    the flag, the two environment variables and the candidates of the
    platform. *)
Definition resolveChromeExecutable (chromePathFlag chromePathCamel : option string)
    (CHROME_PATH PUPPETEER_EXECUTABLE_PATH : option string)
    (platformCandidates : list (option string)) : option string :=
  let providedPath := nullish (nullish chromePathFlag chromePathCamel) CHROME_PATH in
  let puppeteerPath := PUPPETEER_EXECUTABLE_PATH in
  findExistingPath
    (expanded providedPath :: expanded puppeteerPath :: platformCandidates).

End Files.

(** *** Polling *)

(** What one call of [fn] does: it answers a value, throws, or never
    settles. *)
Inductive Attempt (A E : Type) : Type :=
| Returns (result : A)
| Throws (error : E)
| Hangs.
Arguments Returns {A E} result.
Arguments Throws {A E} error.
Arguments Hangs {A E}.

(** One round of the loop: the clock reading of the loop test and what
    [fn] does when it is then called. *)
Record Round (A E : Type) : Type := mkRound {
  now : Z;
  attempt : Attempt A E;
}.
Arguments mkRound {A E} now attempt.
Arguments now {A E} r.
Arguments attempt {A E} r.

(** How [waitFor] ends; [Waiting]: it has not ended within the rounds
    observed. *)
Inductive Waited (A E : Type) : Type :=
| Answered (result : option A)
| Rethrown (error : E)
| Waiting.
Arguments Answered {A E} result.
Arguments Rethrown {A E} error.
Arguments Waiting {A E}.

(** [elapsed < timeout] for an integer on the left. *)
Definition lessThan (elapsed : Z) (timeout : Number) : bool :=
  match timeout with
  | Finite q => negb (Qle_bool q (inject_Z elapsed))
  | PosInfinity => true
  | NaN | NegInfinity => false
  end.

Section Polling.

Variables A E : Type.

(** Truthiness of what [fn] answers and of what it throws. *)
Variable truthy : A -> bool.
Variable truthyError : E -> bool.

(** The [while] loop of [waitFor] and what follows it; [lastError] is
    [None] while the variable is [undefined]. *)
Fixpoint waitForLoop (start : Z) (timeout : Number) (lastError : option E)
    (rounds : list (Round A E)) : Waited A E :=
  match rounds with
  | [] => Waiting
  | round :: rest =>
      if lessThan (now round - start) timeout then
        match attempt round with
        | Returns result =>
            if truthy result then Answered (Some result)
            else waitForLoop start timeout lastError rest
        | Throws error => waitForLoop start timeout (Some error) rest
        | Hangs => Waiting
        end
      else
        match lastError with
        | Some error => if truthyError error then Rethrown error else Answered None
        | None => Answered None
        end
  end.

(** [waitFor(fn, { timeout = 10000, interval })], started when the clock
    reads [start]. The interval only spaces the clock readings. *)
Definition waitFor (start : Z) (timeout : option Number)
    (rounds : list (Round A E)) : Waited A E :=
  waitForLoop start (nullishOr timeout (ofZ 10000)) None rounds.

(** The error the loop holds after the given rounds. *)
Fixpoint lastThrown (lastError : option E) (rounds : list (Round A E))
    : option E :=
  match rounds with
  | [] => lastError
  | round :: rest =>
      match attempt round with
      | Throws error => lastThrown (Some error) rest
      | _ => lastThrown lastError rest
      end
  end.

(** A round in which the loop goes on: in time, and [fn] neither answers
    something truthy nor hangs. *)
Definition fruitless (start : Z) (timeout : Number) (round : Round A E) : bool :=
  lessThan (now round - start) timeout &&
  match attempt round with
  | Returns result => negb (truthy result)
  | Throws _ => true
  | Hangs => false
  end.

End Polling.

End Util.

(* ===================================================================== *)
(** ** screenshot.js: the quality of the image *)
(* ===================================================================== *)

Module Screenshot.
Import Js.

(** [Math.max] and [Math.min] of two numbers. *)
Definition mathMax (a b : Number) : Number :=
  match a, b with
  | NaN, _ | _, NaN => NaN
  | PosInfinity, _ | _, PosInfinity => PosInfinity
  | NegInfinity, x | x, NegInfinity => x
  | Finite p, Finite q => if Qle_bool p q then Finite q else Finite p
  end.

Definition mathMin (a b : Number) : Number :=
  match a, b with
  | NaN, _ | _, NaN => NaN
  | NegInfinity, _ | _, NegInfinity => NegInfinity
  | PosInfinity, x | x, PosInfinity => x
  | Finite p, Finite q => if Qle_bool p q then Finite p else Finite q
  end.

Section Quality.

Variable stringToNumber : string -> Number.

(** [determineQuality(value, currentFormat)]; [None] is [undefined]. *)
Definition determineQuality (value : Value) (currentFormat : string)
    : option Number :=
  if negb (currentFormat =? "jpeg") then None
  else
    match value with
    | VUndefined => Some (ofZ 80)
    | _ =>
        let numeric := Config.normalizeNumber stringToNumber value (ofZ 80) in
        Some (mathMin (ofZ 100) (mathMax (ofZ 1) numeric))
    end.

End Quality.

End Screenshot.

(* ===================================================================== *)
(** ** The cookie import: what is handed to the browser *)
(* ===================================================================== *)

Module Cookies.
Import Js.

(** A property of a cookie read from the file: absent, or one of the
    primitive values of JSON. *)
Inductive Field : Type :=
| Missing
| Null
| Bool (b : bool)
| Num (n : Number)
| Str (s : string).

Record Cookie : Type := mkCookie {
  name : Field;
  value : Field;
  domain : Field;
  path : Field;
  expires : Field;
  httpOnly : Field;
  secure : Field;
  sameSite : Field;
  priority : Field;
}.

(** The parameter object built for [Network.setCookies]; [None] is a
    property that is not set. *)
Record Param : Type := mkParam {
  paramName : Field;
  paramValue : Field;
  paramDomain : Field;
  paramPath : Field;
  paramExpires : option Number;
  paramHttpOnly : option bool;
  paramSecure : option bool;
  paramSameSite : option string;
}.

(** [!value]. *)
Definition falsy (f : Field) : bool :=
  match f with
  | Missing | Null => true
  | Bool b => negb b
  | Num n => negb (truthyNumber n)
  | Str s => s =? ""
  end.

Section Text.

Variable numberToString : Number -> string.

(** [String(value)]. *)
Definition toText (f : Field) : string :=
  match f with
  | Missing => "undefined"
  | Null => "null"
  | Bool true => "true"
  | Bool false => "false"
  | Num n => numberToString n
  | Str s => s
  end.

(** [normalizeSameSite(value)]; [None] is [undefined]. *)
Definition normalizeSameSite (value : Field) : option string :=
  if falsy value then None
  else
    let normalized := Dom.toLowerCase (toText value) in
    if normalized =? "lax" then Some "Lax"
    else if normalized =? "strict" then Some "Strict"
    else if normalized =? "none" then Some "None"
    else None.

(** [normalizeCookie(cookie)]. *)
Definition normalizeCookie (cookie : Cookie) : Param :=
  let sameSite := normalizeSameSite (sameSite cookie) in
  {|
    paramName := name cookie;
    paramValue := value cookie;
    paramDomain := domain cookie;
    paramPath :=
      match path cookie with
      | Missing | Null => Str "/"
      | p => p
      end;
    paramExpires :=
      match expires cookie with
      | Num n => if truthyNumber n && isFinite (VNum n) then Some n else None
      | _ => None
      end;
    paramHttpOnly :=
      match httpOnly cookie with
      | Missing => None
      | f => Some (negb (falsy f))
      end;
    paramSecure :=
      match secure cookie with
      | Missing => None
      | f => Some (negb (falsy f))
      end;
    paramSameSite := if truthyString sameSite then sameSite else None;
  |}.

End Text.

(** A parameter object read as a cookie again. *)
Definition asCookie (p : Param) : Cookie :=
  let field {T : Type} (wrap : T -> Field) (v : option T) : Field :=
    match v with
    | Some x => wrap x
    | None => Missing
    end in
  {|
    name := paramName p;
    value := paramValue p;
    domain := paramDomain p;
    path := paramPath p;
    expires := field Num (paramExpires p);
    httpOnly := field Bool (paramHttpOnly p);
    secure := field Bool (paramSecure p);
    sameSite := field Str (paramSameSite p);
    priority := Missing;
  |}.

End Cookies.

(* ===================================================================== *)
(** ** What an onlooker sees of a picker session *)
(* ===================================================================== *)

Module Onlooker.
Import Dom Page Picker.

(** The colour of the highlight. *)
Definition highlightOutline : string := "3px solid #ff4444".

(** The last HTML element the pointer moved over. *)
Definition lastHovered (page : Page) (events : list Event) : option Ref :=
  fold_left
    (fun (h : option Ref) (e : Event) =>
       match e with
       | Mouseover target => if isHTMLElement page target then Some target else h
       | _ => h
       end)
    events None.

(** The outlines of a page found as [b] with the highlight on [h]. *)
Definition shown (b : Before) (h : option Ref) (r : Ref) : string :=
  match h with
  | Some h => if refEqb r h then highlightOutline else outline0 b r
  | None => outline0 b r
  end.

Definition isMouseover (e : Event) : bool :=
  match e with
  | Mouseover _ => true
  | _ => false
  end.

(** How many clicks a session has kept from the page. *)
Fixpoint prevented (l : list Effect) : nat :=
  match l with
  | [] => 0
  | PreventDefault :: rest => S (prevented rest)
  | _ :: rest => prevented rest
  end.

Fixpoint stopped (l : list Effect) : nat :=
  match l with
  | [] => 0
  | StopPropagation :: rest => S (stopped rest)
  | _ :: rest => stopped rest
  end.

End Onlooker.

(* ===================================================================== *)
(** ** Values used to run the definitions above *)
(* ===================================================================== *)

Module Examples.
Import Js.

(** [Number(s)] for the strings of decimal digits (the empty string is
    0); every other string is taken to be no number. *)
Fixpoint digits (acc : Z) (s : string) : option Z :=
  match s with
  | EmptyString => Some acc
  | String c rest =>
      let n := nat_of_ascii c in
      if ((48 <=? n) && (n <=? 57))%nat
      then digits (10 * acc + Z.of_nat (n - 48)) rest
      else None
  end.

Definition stringToNumber (s : string) : Number :=
  match digits 0 s with
  | Some z => ofZ z
  | None => NaN
  end.

(** The text of a native function, as V8 prints it. *)
Definition nativeText (key : string) : string :=
  "function " ++ key ++ "() { [native code] }".

(** Truthiness of an error message. *)
Definition truthyError (error : string) : bool := negb (error =? "").

(** Three rounds of a poll started at 0 with a timeout of 1000: a
    refused connection, a falsy answer, and a loop test at 1000. *)
Definition refused : Util.Round bool string :=
  Util.mkRound 0 (Util.Throws "ECONNREFUSED").
Definition notYet : Util.Round bool string :=
  Util.mkRound 500 (Util.Returns false).
Definition tooLate : Util.Round bool string :=
  Util.mkRound 1000 (Util.Returns true).

(** The descriptor of the first button of the sample page. *)
Definition buttonInfo : Page.Info :=
  {|
    Page.selector := "#main > button.btn.primary:nth-of-type(1)";
    Page.tag := "button";
    Page.id := None;
    Page.classes := ["btn"; "primary"];
    Page.text := "Submit";
    Page.attributes := [];
    Page.rect := Page.mkRect 10 1000 100 20;
    Page.visible := true;
    Page.children := 0;
  |}.

(** The command line [element.js --text <a link with quoted text>]. *)
Definition quotedArgs : Element.Args :=
  {|
    Element.click := true;
    Element.scroll := false;
    Element.json := false;
    Element.quiet := false;
    Element.positional := None;
    Element.textFlag := Some ("Say " ++ String TextQuery.dquote "hi");
    Element.timeoutFlag := VNum (ofZ 15000);
  |}.

(** The command line [element.js --timeout 0]. *)
Definition pickArgs : Element.Args :=
  {|
    Element.click := false;
    Element.scroll := false;
    Element.json := false;
    Element.quiet := false;
    Element.positional := None;
    Element.textFlag := None;
    Element.timeoutFlag := VNum (ofZ 0);
  |}.

End Examples.

(* ===================================================================== *)
(** * Properties *)
(* ===================================================================== *)

(** ** The picker session *)

Section PickerFacts.
Import Js Dom Page Picker.

Variable page : Page.
Variable globalResolve : GlobalBinding.
Variable b : Before.
Variable timeout : Number.

Local Abbreviation dispatch := (Picker.dispatch page globalResolve).
Local Abbreviation run := (Picker.run page globalResolve).
Local Abbreviation Tidy := (Picker.Tidy b).
Local Abbreviation Open := (Picker.Open b).
Local Abbreviation Closed := (Picker.Closed b).
Local Abbreviation Fresh := (Picker.Fresh b timeout).
Local Abbreviation tidy_count := (Picker.tidy_count b).
Local Abbreviation open_resolved := (Picker.open_resolved b).
Local Abbreviation open_hover := (Picker.open_hover b).
Local Abbreviation open_click := (Picker.open_click b).
Local Abbreviation open_blur := (Picker.open_blur b).
Local Abbreviation open_cancel := (Picker.open_cancel b).
Local Abbreviation open_tidy := (Picker.open_tidy b).
Local Abbreviation closed_resolved := (Picker.closed_resolved b).
Local Abbreviation closed_hover := (Picker.closed_hover b).
Local Abbreviation closed_click := (Picker.closed_click b).
Local Abbreviation closed_count := (Picker.closed_count b).
Local Abbreviation closed_timer := (Picker.closed_timer b).
Local Abbreviation fresh_timer := (Picker.fresh_timer b timeout).
Local Abbreviation fresh_slot := (Picker.fresh_slot b timeout).

Lemma refEqb_true (a c : Ref) : refEqb a c = true <-> a = c.
Proof.
  unfold refEqb. destruct (list_eq_dec Nat.eq_dec a c); split; congruence.
Qed.

Lemma cleanupCount_app (l1 l2 : list Effect) :
  cleanupCount (l1 ++ l2) = cleanupCount l1 + cleanupCount l2.
Proof.
  induction l1 as [|e l1 IH]; simpl; [reflexivity|].
  destruct e; simpl; rewrite IH; reflexivity.
Qed.

Lemma arm_open : Open (arm b timeout).
Proof.
  constructor; simpl; try reflexivity.
  constructor; simpl; try reflexivity.
  destruct (truthyNumber timeout); [discriminate | reflexivity].
Qed.

(** [cleanup] on a tidy state. *)
Lemma cleanup_closes (s : State) :
  Tidy s ->
  let s' := cleanup (setResolved s true) in
  hoverListener s' = false /\ clickListener s' = false /\
  cleanupCount (effects s') = 1 /\ cursor s' = cursor0 b /\
  pendingTimeout s' = None /\ timerId s' = None /\
  (forall r, outline s' r = outline0 b r) /\
  resolved s' = true /\ settled s' = None /\
  pickedElement s' = pickedElement s.
Proof.
  intros [Hn Hs Hcur Ht Ho]. unfold cleanup.
  destruct s as [oc hl po rs ti ol cu hv ck bl ch pt pk st ef]; simpl in *.
  subst. destruct hl as [h|], ti as [t|]; simpl;
    rewrite cleanupCount_app, Hn; simpl;
    repeat split; try reflexivity; try (apply Ht; reflexivity);
    try exact Ho.
  all: intros r; destruct Ho as [Hp Ho]; rewrite Hp; simpl.
  all: destruct (refEqb r h) eqn:E; [apply refEqb_true in E; subst; reflexivity|].
  all: apply Ho; intros ->.
  all: assert (refEqb h h = true) by (apply refEqb_true; reflexivity); congruence.
Qed.

Lemma refEqb_false (a c : Ref) : refEqb a c = false <-> a <> c.
Proof.
  unfold refEqb. destruct (list_eq_dec Nat.eq_dec a c); split; congruence.
Qed.

Lemma highlight_tidy (s : State) (element : Ref) :
  Tidy s -> Tidy (highlightElement s element).
Proof.
  intros [Hn Hs Hcur Ht Ho]. unfold highlightElement.
  destruct s as [oc hl po rs ti ol cu hv ck bl ch pt pk st ef]; simpl in *.
  destruct hl as [h|]; simpl.
  - destruct (refEqb h element) eqn:E.
    + constructor; simpl; assumption.
    + apply refEqb_false in E. destruct Ho as [Hpo Ho].
      constructor; simpl; try assumption. split.
      * f_equal. destruct (refEqb element h) eqn:E'.
        { apply refEqb_true in E'. congruence. }
        apply Ho. congruence.
      * intros r Hr. destruct (refEqb r element) eqn:E1.
        { apply refEqb_true in E1. contradiction. }
        destruct (refEqb r h) eqn:E2.
        { apply refEqb_true in E2. subst r. rewrite Hpo. reflexivity. }
        apply Ho. apply refEqb_false. exact E2.
  - constructor; simpl; try assumption. split.
    + f_equal. apply Ho.
    + intros r Hr. destruct (refEqb r element) eqn:E1.
      { apply refEqb_true in E1. contradiction. }
      apply Ho.
Qed.

(** Highlighting touches neither the flag, the listeners nor the timer. *)
Lemma highlight_frame (s : State) (element : Ref) :
  let s' := highlightElement s element in
  resolved s' = resolved s /\ hoverListener s' = hoverListener s /\
  clickListener s' = clickListener s /\ blurListener s' = blurListener s /\
  cancelHook s' = cancelHook s /\ pendingTimeout s' = pendingTimeout s /\
  pickedElement s' = pickedElement s.
Proof.
  unfold highlightElement. destruct (highlight s) as [h|]; simpl.
  - destruct (refEqb h element); simpl; repeat split.
  - repeat split.
Qed.

Lemma mouseover_open (s : State) (target : Ref) :
  Open s -> Open (dispatch s (Mouseover target)).
Proof.
  intros H. simpl. rewrite (open_hover s H). unfold onHover.
  rewrite (open_resolved s H).
  destruct (isHTMLElement page target); simpl; [|exact H].
  destruct (highlight_frame s target) as (F1 & F2 & F3 & F4 & F5 & _).
  destruct H. constructor; try congruence.
  apply highlight_tidy. assumption.
Qed.

(** Emitting an effect other than [Cleanup] changes nothing the
    invariants look at. *)
Lemma closed_emit (s : State) (e : Effect) :
  e <> Cleanup -> Closed s -> Closed (emit s e).
Proof.
  intros He [H1 H2 H3 H4 H5 H6 H7 H8].
  constructor; simpl; try assumption.
  rewrite cleanupCount_app, H4. destruct e; simpl; congruence.
Qed.

Lemma arm_fresh : Fresh (arm b timeout).
Proof. constructor; reflexivity. Qed.

(** An event that does not end the session leaves it open: a hover, or
    the timer when none was armed. *)
Lemma idle_step (s : State) (e : Event) :
  ends timeout e = false -> Open s -> Fresh s ->
  Open (dispatch s e) /\ Fresh (dispatch s e).
Proof.
  intros He H F. destruct e as [t|t| | |]; simpl in He; try discriminate.
  - split; [apply mouseover_open; exact H|].
    simpl. destruct (hoverListener s); [|exact F]. unfold onHover.
    destruct (resolved s); [exact F|].
    destruct (isHTMLElement page t); simpl; [|exact F].
    destruct (highlight_frame s t) as (_ & _ & _ & _ & _ & F1 & F2).
    destruct F. constructor; congruence.
  - simpl. rewrite (fresh_timer s F), He. split; assumption.
Qed.

Lemma idle_run (s : State) (pre : list Event) :
  forallb (fun e => negb (ends timeout e)) pre = true ->
  Open s -> Fresh s -> Open (run s pre) /\ Fresh (run s pre).
Proof.
  revert s. induction pre as [|e pre IH]; intros s Hpre H F; simpl; [auto|].
  simpl in Hpre. apply andb_true_iff in Hpre as [He Hpre].
  apply negb_true_iff in He.
  destruct (idle_step s e He H F) as [H' F'].
  apply IH; assumption.
Qed.

(** Writes that the invariants do not look at. *)
Lemma closed_picked (s : State) (v : option Held) :
  Closed s -> Closed (setPickedElement s v).
Proof. intros []. constructor; assumption. Qed.

Lemma closed_settled (s : State) (v : option (option Selection)) :
  Closed s -> Closed (setSettled s v).
Proof. intros []. constructor; assumption. Qed.

Lemma tidy_emit (s : State) (e : Effect) :
  e <> Cleanup -> Tidy s -> Tidy (emit s e).
Proof.
  intros He []. constructor; try assumption.
  cbn [effects emit setEffects]. rewrite cleanupCount_app.
  destruct e; simpl; try lia. congruence.
Qed.

(** The three handlers written inside the promise executor. *)
Lemma noSelection_closes (s : State) :
  Tidy s ->
  let s' := settle (cleanup (setResolved s true)) None in
  Closed s' /\ settled s' = Some None /\ pickedElement s' = pickedElement s.
Proof.
  intros H.
  pose proof (cleanup_closes s H) as A. cbv zeta in A |- *.
  generalize dependent (cleanup (setResolved s true)).
  intros c (A1 & A2 & A3 & A4 & A5 & A6 & A7 & A8 & A9 & A10).
  assert (E : settle c None = setSettled c (Some None)).
  { unfold settle. rewrite A9. reflexivity. }
  rewrite E.
  split; [apply closed_settled; constructor; assumption|].
  split; [reflexivity | exact A10].
Qed.

(** The click listener after the flag test, on the state [s1] the two
    calls on the event have left. *)
Lemma click_tail_closes (s1 : State) (target : Ref) :
  Tidy s1 ->
  let c := cleanup (setResolved s1 true) in
  let s' :=
    match globalResolve with
    | Unbound => emit c (Uncaught "ReferenceError: resolve is not defined")
    | BoundToNonFunction =>
        match resolveSelection page c target with
        | inl (s, _) => emit s (Uncaught "TypeError: resolve is not a function")
        | inr s => s
        end
    | BoundToFunction =>
        match resolveSelection page c target with
        | inl (s, v) => emit s (ForeignCall v)
        | inr s => s
        end
    end in
  Closed s' /\ settled s' = None /\
  (globalResolve = Unbound -> pickedElement s' = pickedElement s1).
Proof.
  intros H1.
  pose proof (cleanup_closes s1 H1) as A. cbv zeta in A |- *.
  generalize dependent (cleanup (setResolved s1 true)).
  intros c (A1 & A2 & A3 & A4 & A5 & A6 & A7 & A8 & A9 & A10).
  assert (C : Closed c) by (constructor; assumption).
  destruct globalResolve.
  - split; [apply closed_emit; [discriminate | exact C]|].
    split; [exact A9 | intros _; exact A10].
  - unfold resolveSelection. destruct (buildInfo page target).
    + split; [|split; [exact A9 | discriminate]].
      apply closed_emit; [discriminate|]. apply closed_picked. exact C.
    + split; [|split; [exact A9 | discriminate]].
      apply closed_emit; [discriminate | exact C].
  - unfold resolveSelection. destruct (buildInfo page target).
    + split; [|split; [exact A9 | discriminate]].
      apply closed_emit; [discriminate|]. apply closed_picked. exact C.
    + split; [|split; [exact A9 | discriminate]].
      apply closed_emit; [discriminate | exact C].
Qed.

(** The click listener: the session closes, the promise stays pending. *)
Lemma click_closes (s : State) (target : Ref) :
  Open s ->
  let s' := onClick page globalResolve s target in
  Closed s' /\ settled s' = None /\
  (globalResolve = Unbound -> pickedElement s' = pickedElement s).
Proof.
  intros H.
  assert (H1 : Tidy (emit (emit s PreventDefault) StopPropagation)).
  { apply tidy_emit; [discriminate|]. apply tidy_emit; [discriminate|]. apply H. }
  pose proof (click_tail_closes _ target H1) as T.
  unfold onClick.
  change (resolved (emit (emit s PreventDefault) StopPropagation))
    with (resolved s).
  rewrite (open_resolved s H). exact T.
Qed.

(** Changing the timer table or the blur listener keeps a state tidy when
    [timerId] still accounts for the timer. *)
Lemma tidy_timer_fired (s : State) : Tidy s -> Tidy (setPendingTimeout s None).
Proof. intros []. constructor; simpl; try assumption. reflexivity. Qed.

Lemma tidy_blur_left (s : State) : Tidy s -> Tidy (setBlurListener s false).
Proof. intros []. constructor; simpl; assumption. Qed.

(** The first ending event closes an open session; every ending but the
    click settles the promise with no selection. *)
Lemma ending_closes (s : State) (e : Event) :
  Open s -> Fresh s -> ends timeout e = true ->
  let s' := dispatch s e in
  Closed s' /\
  settled s' = (match e with Click _ => None | _ => Some None end).
Proof.
  intros H Ha He.
  destruct e as [t|t| | |]; simpl in He; try discriminate; simpl.
  - rewrite (open_click s H).
    destruct (click_closes s t H) as (C & S & _). split; assumption.
  - rewrite (fresh_timer s Ha), He. unfold onTimeout.
    cbn [resolved setPendingTimeout].
    rewrite (open_resolved s H).
    destruct (noSelection_closes (setPendingTimeout s None)) as (C & S & _).
    { apply tidy_timer_fired, H. }
    split; assumption.
  - rewrite (open_blur s H). unfold onBlur. cbn [resolved setBlurListener].
    rewrite (open_resolved s H).
    destruct (noSelection_closes (setBlurListener s false)) as (C & S & _).
    { apply tidy_blur_left, H. }
    split; assumption.
  - rewrite (open_cancel s H). unfold cancel. rewrite (open_resolved s H).
    destruct (noSelection_closes s) as (C & S & _); [apply H|].
    split; assumption.
Qed.

(** After the end nothing moves any more: every later event finds its
    listener gone or the flag set. *)
Lemma closed_dispatch (s : State) (e : Event) :
  Closed s ->
  let s' := dispatch s e in
  Closed s' /\ settled s' = settled s /\ pickedElement s' = pickedElement s /\
  effects s' = effects s.
Proof.
  intros C. destruct e as [t|t| | |]; simpl.
  - rewrite (closed_hover s C). auto.
  - rewrite (closed_click s C). auto.
  - rewrite (closed_timer s C). auto.
  - destruct (blurListener s); [|auto].
    unfold onBlur. cbn [resolved setBlurListener]. rewrite (closed_resolved s C).
    split; [|auto]. destruct C. constructor; simpl; assumption.
  - destruct (cancelHook s); [|auto].
    unfold cancel. rewrite (closed_resolved s C). auto.
Qed.

Lemma closed_run (s : State) (post : list Event) :
  Closed s ->
  let s' := run s post in
  Closed s' /\ settled s' = settled s /\ pickedElement s' = pickedElement s /\
  effects s' = effects s.
Proof.
  revert s. induction post as [|e post IH]; intros s C; simpl; [auto|].
  destruct (closed_dispatch s e C) as (C' & S & P & E).
  destruct (IH _ C') as (C'' & S' & P' & E').
  split; [exact C''|]. split; [congruence|]. split; congruence.
Qed.

Lemma run_app (s : State) (l1 l2 : list Event) :
  run s (l1 ++ l2) = run (run s l1) l2.
Proof. apply fold_left_app. Qed.

(** A session is open or closed at every moment. *)
Lemma open_or_closed (events : list Event) :
  let s := run (arm b timeout) events in
  (Open s /\ Fresh s) \/ Closed s.
Proof.
  assert (G : forall events s, (Open s /\ Fresh s) \/ Closed s ->
                (Open (run s events) /\ Fresh (run s events)) \/
                Closed (run s events)).
  { clear events. induction events as [|e events IH]; intros s Hs; simpl; [exact Hs|].
    apply IH. destruct Hs as [[H F]|C].
    - destruct (ends timeout e) eqn:He.
      + right. apply ending_closes; assumption.
      + left. apply idle_step; assumption.
    - right. apply closed_dispatch. exact C. }
  apply G. left. split; [apply arm_open | apply arm_fresh].
Qed.

(** The shape of every session that ends: idle events, the ending event,
    anything after it. The session is closed from the ending event on and
    the promise is as that event left it. *)
Lemma ended_session (pre : list Event) (e : Event) (post : list Event) :
  forallb (fun e => negb (ends timeout e)) pre = true ->
  ends timeout e = true ->
  let s := run (arm b timeout) (pre ++ e :: post) in
  Closed s /\
  settled s = (match e with Click _ => None | _ => Some None end) /\
  (globalResolve = Unbound \/ (forall t, e <> Click t) ->
   pickedElement s = picked0 b).
Proof.
  intros Hpre He. simpl. rewrite run_app. simpl.
  destruct (idle_run (arm b timeout) pre Hpre arm_open arm_fresh) as [H F].
  set (s0 := run (arm b timeout) pre) in *.
  destruct (ending_closes s0 e H F He) as (C & S).
  destruct (closed_run (dispatch s0 e) post C) as (C' & S' & P' & _).
  split; [exact C'|]. split; [congruence|].
  intros Hg. rewrite P', <- (fresh_slot s0 F).
  destruct e as [t|t| | |]; simpl in He; try discriminate; simpl.
  - rewrite (open_click s0 H). destruct Hg as [Hg|Hg]; [|exfalso; apply (Hg t); reflexivity].
    apply click_closes; assumption.
  - rewrite (fresh_timer s0 F), He. unfold onTimeout.
    cbn [resolved setPendingTimeout]. rewrite (open_resolved s0 H).
    apply (noSelection_closes (setPendingTimeout s0 None)).
    apply tidy_timer_fired, H.
  - rewrite (open_blur s0 H). unfold onBlur. cbn [resolved setBlurListener].
    rewrite (open_resolved s0 H).
    apply (noSelection_closes (setBlurListener s0 false)).
    apply tidy_blur_left, H.
  - rewrite (open_cancel s0 H). unfold cancel. rewrite (open_resolved s0 H).
    apply noSelection_closes, H.
Qed.

(** No handler settles the promise with a selection: the only calls that
    reach it pass null. *)
Lemma settled_dispatch (s : State) (e : Event) :
  settled (dispatch s e) = settled s \/ settled (dispatch s e) = Some None.
Proof.
  assert (Hc : forall s, settled (cleanup s) = settled s).
  { intros s0. unfold cleanup.
    destruct s0 as [oc hl po rs ti ol cu hv ck bl ch pt pk st ef]; simpl.
    destruct hl, ti; reflexivity. }
  assert (Hn : forall s, settled (settle (cleanup (setResolved s true)) None)
                         = settled s \/
                         settled (settle (cleanup (setResolved s true)) None)
                         = Some None).
  { intros s0. unfold settle. rewrite Hc. simpl.
    destruct (settled s0) eqn:E.
    - left. rewrite Hc. simpl. exact E.
    - right. reflexivity. }
  destruct e as [t|t| | |]; simpl.
  - destruct (hoverListener s); [|auto]. unfold onHover.
    destruct (resolved s); [auto|].
    destruct (isHTMLElement page t); simpl; [|auto].
    unfold highlightElement. destruct (highlight s) as [h|]; simpl; [|auto].
    destruct (refEqb h t); auto.
  - destruct (clickListener s); [|auto]. unfold onClick.
    cbn [resolved emit setEffects]. destruct (resolved s); [auto|].
    assert (He : forall s0 e0, settled (emit s0 e0) = settled s0) by reflexivity.
    assert (Hp : forall s0 v, settled (setPickedElement s0 v) = settled s0)
      by reflexivity.
    left. destruct globalResolve.
    + rewrite He, Hc. reflexivity.
    + unfold resolveSelection. destruct (buildInfo page t);
        rewrite ?He, ?Hp, Hc; reflexivity.
    + unfold resolveSelection. destruct (buildInfo page t);
        rewrite ?He, ?Hp, Hc; reflexivity.
  - destruct (pendingTimeout s); [|auto]. unfold onTimeout.
    cbn [resolved setPendingTimeout]. destruct (resolved s); [auto|].
    apply (Hn (setPendingTimeout s None)).
  - destruct (blurListener s); [|auto]. unfold onBlur.
    cbn [resolved setBlurListener]. destruct (resolved s); [auto|].
    apply (Hn (setBlurListener s false)).
  - destruct (cancelHook s); [|auto]. unfold cancel.
    destruct (resolved s); [auto|]. apply Hn.
Qed.

Lemma settled_run (s : State) (events : list Event) :
  settled (run s events) = settled s \/ settled (run s events) = Some None.
Proof.
  revert s. induction events as [|e events IH]; intros s; simpl; [auto|].
  destruct (IH (dispatch s e)) as [H|H]; [|auto].
  rewrite H. apply settled_dispatch.
Qed.


End PickerFacts.


(** ** The host side of the pick *)

Section PickFacts.
Import Js Dom Page Picker.

Variable p : Page.

(** C1. In a session where a click comes first (after hovers only), the
    session is marked resolved and cleaned up exactly once, but the click
    listener's call of [resolve] does not reach the promise: the
    evaluation stays pending whatever follows, on a page without a global
    [resolve] the clicked node is not even stashed, and [pickElement]
    never returns a descriptor. *)
Theorem click_path_never_settles (timeoutMs : option Number) (bf : Before)
    (g : GlobalBinding) (pre : list Event) (target : Ref) (post : list Event) :
  forallb (fun e => negb (ends (pickTimeout timeoutMs) e)) pre = true ->
  let h := Element.mkHappenings bf g (pre ++ Click target :: post) in
  let s := run p g (arm bf (pickTimeout timeoutMs)) (Element.events h) in
  resolved s = true /\
  cleanupCount (effects s) = 1 /\
  settled s = None /\
  (g = Unbound -> pickedElement s = picked0 bf) /\
  Element.pickElement p timeoutMs h = Element.Pending.
Proof.
  intros Hpre h s.
  destruct (ended_session p g bf (pickTimeout timeoutMs) pre (Click target) post
              Hpre eq_refl) as (C & S & P).
  fold s in C, S, P.
  split; [apply C|]. split; [apply C|]. split; [exact S|].
  split; [intros Hg; apply P; left; exact Hg|].
  unfold Element.pickElement. simpl. fold s. rewrite S. reflexivity.
Qed.

(** The whole of [pickElement]: whatever happens on the page, the host
    is either still waiting or gets null. No run of the picker hands a
    selection over, and none makes the host throw. *)
Lemma pickElement_outcomes (timeoutMs : option Number) (h : Element.Happenings) :
  Element.pickElement p timeoutMs h = Element.Pending \/
  Element.pickElement p timeoutMs h =
    Element.Done None [Element.EvaluatedPicker (pickTimeout timeoutMs)].
Proof.
  unfold Element.pickElement.
  destruct (settled_run p (Element.globalResolve h)
              (arm (Element.before h) (pickTimeout timeoutMs))
              (Element.events h)) as [H|H]; rewrite H; simpl; auto.
Qed.

(** The picker's timeout is never falsy once [pickElement] has supplied
    its default. *)
Lemma pickTimeout_truthy (timeoutMs : option Number) :
  truthyNumber (pickTimeout timeoutMs) = true.
Proof.
  destruct timeoutMs as [t|]; simpl; [|reflexivity].
  destruct (truthyNumber t) eqn:E; [exact E | reflexivity].
Qed.

(** C3, as the code has it. [pickElement] replaces an absent or falsy
    timeout (0, NaN) by 60 000 ms and passes any other on, so the timer
    of a pick is always armed; the evaluated function by itself arms no
    timer for a falsy timeout. When the timer fires before anything else
    ends the session, cleanup runs once, the page is restored, the
    evaluation settles with no selection and [pickElement] returns
    null without touching the handoff slot. *)
Theorem picker_timer_semantics :
  pickTimeout None = ofZ 60000 /\
  (forall t, truthyNumber t = false -> pickTimeout (Some t) = ofZ 60000) /\
  (forall t, truthyNumber t = true -> pickTimeout (Some t) = t) /\
  (forall bf timeoutMs,
     pendingTimeout (arm bf (pickTimeout timeoutMs)) = Some (pickTimeout timeoutMs)) /\
  (forall bf t, truthyNumber t = false ->
     pendingTimeout (arm bf t) = None /\ timerId (arm bf t) = None) /\
  (forall timeoutMs bf g pre post,
     forallb (fun e => negb (ends (pickTimeout timeoutMs) e)) pre = true ->
     let h := Element.mkHappenings bf g (pre ++ TimerFires :: post) in
     let s := run p g (arm bf (pickTimeout timeoutMs)) (Element.events h) in
     settled s = Some None /\
     cleanupCount (effects s) = 1 /\
     hoverListener s = false /\ clickListener s = false /\
     (forall r, outline s r = outline0 bf r) /\ cursor s = cursor0 bf /\
     Element.pickElement p timeoutMs h =
       Element.Done None [Element.EvaluatedPicker (pickTimeout timeoutMs)]).
Proof.
  split; [reflexivity|].
  split; [intros t Ht; simpl; rewrite Ht; reflexivity|].
  split; [intros t Ht; simpl; rewrite Ht; reflexivity|].
  split; [intros bf t; simpl; rewrite pickTimeout_truthy; reflexivity|].
  split; [intros bf t Ht; simpl; rewrite Ht; split; reflexivity|].
  intros timeoutMs bf g pre post Hpre h s.
  destruct (ended_session p g bf (pickTimeout timeoutMs) pre TimerFires post
              Hpre (pickTimeout_truthy timeoutMs)) as (C & S & _).
  fold s in C, S.
  split; [exact S|]. destruct C.
  repeat (split; [assumption|]).
  unfold Element.pickElement. simpl. fold s. rewrite S. reflexivity.
Qed.


End PickFacts.

(** A hover and a click on the first button, on a page without a global
    [resolve], under the default timeout. *)
Lemma click_path_never_settles_witness :
  let h := Element.mkHappenings Sample.before Picker.Unbound
             ([Picker.Mouseover Sample.button] ++
              Picker.Click Sample.button :: [Picker.TimerFires]) in
  let s := Picker.run Sample.page Picker.Unbound
             (Picker.arm Sample.before (Picker.pickTimeout None))
             (Element.events h) in
  Picker.resolved s = true /\
  Picker.cleanupCount (Picker.effects s) = 1 /\
  Picker.settled s = None /\
  (Picker.Unbound = Picker.Unbound ->
   Picker.pickedElement s = Picker.picked0 Sample.before) /\
  Element.pickElement Sample.page None h = Element.Pending.
Proof.
  apply (click_path_never_settles Sample.page None Sample.before Picker.Unbound
           [Picker.Mouseover Sample.button] Sample.button [Picker.TimerFires]).
  reflexivity.
Defined.

(** C3 as stated fails: with a timeout of 0 the pick still arms its
    timer, for 60 000 ms. *)
Lemma timeout_zero_arms_timer :
  ~ (Picker.pendingTimeout
       (Picker.arm Sample.before (Picker.pickTimeout (Some (Js.ofZ 0)))) = None).
Proof. simpl. discriminate. Qed.

(** A hover, then the timer, under a timeout of 0. *)
Lemma picker_timer_semantics_witness :
  let h := Element.mkHappenings Sample.before Picker.Unbound
             ([Picker.Mouseover Sample.button] ++ Picker.TimerFires :: []) in
  let s := Picker.run Sample.page Picker.Unbound
             (Picker.arm Sample.before (Picker.pickTimeout (Some (Js.ofZ 0))))
             (Element.events h) in
  Picker.settled s = Some None /\
  Picker.cleanupCount (Picker.effects s) = 1 /\
  Picker.hoverListener s = false /\ Picker.clickListener s = false /\
  (forall r, Picker.outline s r = Picker.outline0 Sample.before r) /\
  Picker.cursor s = Picker.cursor0 Sample.before /\
  Element.pickElement Sample.page (Some (Js.ofZ 0)) h =
    Element.Done None
      [Element.EvaluatedPicker (Picker.pickTimeout (Some (Js.ofZ 0)))].
Proof.
  apply (proj2 (proj2 (proj2 (proj2 (proj2
           (picker_timer_semantics Sample.page)))))
           (Some (Js.ofZ 0)) Sample.before Picker.Unbound
           [Picker.Mouseover Sample.button] []).
  reflexivity.
Defined.


(** ** The main flow of the command *)

Section MainFacts.
Import Js Dom Page.
Import Element.

Variable query : Page -> string -> string + option Ref.
Variable scrollIntoView : Page -> Ref -> Page.
Variable clickElement : Page -> Ref -> string + Page.
Variable xpathError : string.
Variable stringToNumber : string -> Number.

Local Abbreviation resolveElement := (Element.resolveElement query xpathError).
Local Abbreviation main :=
  (Element.main query scrollIntoView clickElement xpathError stringToNumber).

Lemma truthyString_some (s : string) : s <> "" -> truthyString (Some s) = true.
Proof.
  intros H. simpl. destruct (String.eqb_spec s ""); [contradiction | reflexivity].
Qed.

(** Every resolution that yields an element has captured its descriptor
    on the page as it was handed over. *)
Lemma resolved_is_captured (p : Page) (rawSelector rawText : option string)
    (t : Number) (h : Happenings) (handle : Ref) (found : Info)
    (done : list Step) :
  resolveElement p rawSelector rawText t h = Done (Some (handle, found)) done ->
  In (Captured handle) done /\
  exists hint, collectElementInfo p handle hint = Some found.
Proof.
  unfold Element.resolveElement.
  destruct (truthyString rawSelector).
  - destruct (query p (nullishOr rawSelector "")) as [m|[r|]]; try discriminate.
    destruct (collectElementInfo p r _) eqn:E; try discriminate.
    intros H. injection H as <- <- <-. split; [simpl; auto|eauto].
  - destruct (truthyString rawText).
    + destruct (TextQuery.findByText _ _) as [|[r|] rest]; try discriminate.
      destruct (collectElementInfo p r None) eqn:E; try discriminate.
      intros H. injection H as <- <- <-. split; [|eauto].
      right. apply in_or_app. right. simpl. auto.
    + intros H. destruct (pickElement_outcomes p (Some t) h) as [E|E];
        rewrite E in H; discriminate.
Qed.

(** Without selector and text the command either keeps waiting for the
    pick or reports that nothing was selected; it never prints a
    descriptor. *)
Lemma interactive_mode_outcomes (a : Args) (p : Page) (h : Happenings) :
  truthyString (positional a) = false ->
  truthyString (textFlag a) = false ->
  outcome (main a p h) = Hung [] \/
  outcome (main a p h) =
    Exited 1
      (if json a
       then [AsJson (Config.JObject
                       [("ok", Config.JBool false);
                        ("error", Config.JString "No element selected.")])]
       else [])
      (if json a then []
       else [Message ("No element selected." ++ String (ascii_of_nat 10) "")]).
Proof.
  intros Hs Ht. unfold Element.main, Element.resolveElement. rewrite Hs, Ht.
  destruct (pickElement_outcomes p
              (Some (Config.normalizeNumber stringToNumber (timeoutFlag a)
                       (ofZ 15000))) h) as [E|E]; rewrite E.
  - left. reflexivity.
  - right. unfold failed, Config.fail. destruct (json a); reflexivity.
Qed.

Lemma collected_rect (p : Page) (handle : Ref) (hint : option string)
    (found : Info) :
  collectElementInfo p handle hint = Some found ->
  rect found = roundRect (getBoundingClientRect p handle).
Proof.
  unfold collectElementInfo. destruct (lookup (document p) handle) as [[|d kids]|];
    try discriminate.
  intros H. injection H as <-. reflexivity.
Qed.

(** C2, as the code has it. The descriptor is captured during
    resolution, on the page as found; scroll and click come afterwards,
    scroll first; and what is emitted is the descriptor captured before
    them, so its rect is the element's position before the scroll. *)
Theorem capture_precedes_scroll_and_click (a : Args) (p0 : Page)
    (h : Happenings) (handle : Ref) (found : Info) (done : list Step)
    (p2 : Page) :
  resolveElement p0 (positional a) (textFlag a)
    (Config.normalizeNumber stringToNumber (timeoutFlag a) (ofZ 15000)) h
    = Done (Some (handle, found)) done ->
  (if click a
   then clickElement (if scroll a then scrollIntoView p0 handle else p0) handle
        = inr p2
   else p2 = if scroll a then scrollIntoView p0 handle else p0) ->
  In (Captured handle) done /\
  rect found = roundRect (getBoundingClientRect p0 handle) /\
  steps (main a p0 h) =
    (done ++ (if scroll a then [ScrolledIntoView handle] else [])
          ++ (if click a then [ClickedOn handle] else [])
          ++ [Emitted; Disposed handle])%list /\
  finalPage (main a p0 h) = p2 /\
  exists err,
    outcome (main a p0 h) =
      Exited 0 [if json a then AsJson (output found) else AsText found] err.
Proof.
  intros Hr Hc.
  destruct (resolved_is_captured _ _ _ _ _ _ _ _ Hr) as (Hin & hint & Hinfo).
  split; [exact Hin|]. split; [exact (collected_rect _ _ _ _ Hinfo)|].
  unfold Element.main. rewrite Hr.
  destruct (scroll a), (click a); simpl; try rewrite Hc; subst; simpl;
    rewrite <- ?app_assoc; simpl;
    (split; [reflexivity|]); (split; [reflexivity|]);
    destruct (json a); eexists; reflexivity.
Qed.


End MainFacts.

(** C2 as stated fails: with [--scroll] the emitted rect is the one
    captured before the scroll, not the element's position after it. *)
Lemma emitted_rect_is_not_post_scroll :
  let run := Element.main Sample.query Sample.scrollIntoView Sample.clickElement
               "" Sample.stringToNumber Sample.scrollArgs Sample.page
               Sample.quietPage in
  exists found,
    Element.outcome run = Element.Exited 0 [Element.AsJson (Element.output found)] [] /\
    Element.steps run =
      [Element.QueriedSelector "button"; Element.Captured Sample.button;
       Element.ScrolledIntoView Sample.button;
       Element.Emitted; Element.Disposed Sample.button] /\
    Page.rect found <>
      Page.roundRect (Page.getBoundingClientRect (Element.finalPage run) Sample.button).
Proof.
  eexists. split; [reflexivity|]. split; [reflexivity|].
  vm_compute. discriminate.
Qed.

(** The sample run with [--scroll]. *)
Lemma capture_precedes_scroll_and_click_witness :
  exists found done,
    In (Element.Captured Sample.button) done /\
    Page.rect found =
      Page.roundRect (Page.getBoundingClientRect Sample.page Sample.button) /\
    Element.steps
      (Element.main Sample.query Sample.scrollIntoView Sample.clickElement
         "" Sample.stringToNumber Sample.scrollArgs Sample.page Sample.quietPage) =
      (done ++ [Element.ScrolledIntoView Sample.button] ++ []
            ++ [Element.Emitted; Element.Disposed Sample.button])%list.
Proof.
  eexists. eexists.
  destruct (capture_precedes_scroll_and_click
              Sample.query Sample.scrollIntoView Sample.clickElement ""
              Sample.stringToNumber Sample.scrollArgs Sample.page Sample.quietPage
              Sample.button _ _ (Sample.scrolled Sample.page)
              eq_refl eq_refl) as (H1 & H2 & H3 & _).
  split; [exact H1|]. split; [exact H2 | exact H3].
Defined.


(** ** The connection resolver *)

Section ResolverFacts.
Import Js Config.

Variable stringToNumber : string -> Number.
Variable numberToString : Number -> string.

Local Abbreviation resolveBrowserConnection :=
  (Config.resolveBrowserConnection stringToNumber numberToString).
Local Abbreviation normalizeNumber := (Config.normalizeNumber stringToNumber).

(** A non-empty explicit endpoint wins; host and port are not looked at. *)
Lemma explicit_endpoint_wins (flags : Flags) (env : Env) :
  truthyString (ws flags) = true ->
  resolveBrowserConnection flags env = browserWSEndpoint (ws flags).
Proof.
  intros H. unfold Config.resolveBrowserConnection. rewrite H. simpl.
  destruct (ws flags); [reflexivity | discriminate].
Qed.

(** With no explicit endpoint at all, a non-empty environment endpoint
    wins. *)
Lemma environment_endpoint_wins (flags : Flags) (env : Env) :
  ws flags = None -> truthyString (BROWSER_WS_URL env) = true ->
  resolveBrowserConnection flags env = browserWSEndpoint (BROWSER_WS_URL env).
Proof.
  intros H1 H2. unfold Config.resolveBrowserConnection. rewrite H1, H2. reflexivity.
Qed.

(** [normalizeNumber] keeps a finite number, converts a string, and
    answers the fallback for everything else. *)
Lemma normalizeNumber_cases (value : Value) (fallback : Number) :
  normalizeNumber value fallback =
    match value with
    | VNum (Finite q) => Finite q
    | VStr s =>
        match stringToNumber s with
        | Finite q => Finite q
        | _ => fallback
        end
    | _ => fallback
    end.
Proof.
  destruct value as [|bv|[q| | |]|s]; try reflexivity.
  unfold Config.normalizeNumber. destruct (stringToNumber s); reflexivity.
Qed.

(** Without any endpoint the address is built from host and port, the
    host defaulting to localhost and the port to 9222 when it is unset or
    not finite. *)
Lemma host_and_port_defaults (flags : Flags) (env : Env) :
  truthyString (ws flags) = false ->
  truthyString (BROWSER_WS_URL env) = false ->
  resolveBrowserConnection flags env =
    browserURL
      ("http://" ++ nullishOr (nullish (host flags) (BROWSER_HOST env)) "localhost"
        ++ ":" ++ numberToString (normalizeNumber (portOperand flags env) DEFAULT_PORT)) /\
  (host flags = None -> BROWSER_HOST env = None ->
   nullishOr (nullish (host flags) (BROWSER_HOST env)) "localhost" = "localhost") /\
  (port flags = VUndefined -> BROWSER_PORT env = None ->
   normalizeNumber (portOperand flags env) DEFAULT_PORT = ofZ 9222) /\
  (isFinite (port flags) = false -> port flags <> VUndefined ->
   (forall s, port flags <> VStr s) ->
   normalizeNumber (portOperand flags env) DEFAULT_PORT = ofZ 9222).
Proof.
  intros H1 H2. unfold Config.resolveBrowserConnection. rewrite H1, H2. simpl.
  split; [reflexivity|]. split; [intros -> ->; reflexivity|].
  split.
  - intros Hp He. unfold portOperand. rewrite Hp, He. reflexivity.
  - intros Hf Hu Hs. unfold portOperand.
    destruct (port flags) as [|bv|[q| | |]|s]; try reflexivity;
      try discriminate; try contradiction.
    exfalso. apply (Hs s). reflexivity.
Qed.

(** C9, where the code departs from it. An explicit endpoint flag that
    is the empty string does not count as present, yet whenever the
    environment supplies an endpoint the resolver hands back the empty
    flag, not the environment's endpoint, whatever host and port are. *)
Theorem empty_endpoint_flag_shadows_environment (endpoint : string)
    (h : option string) (pt : Value) (eh ep : option string) :
  endpoint <> "" ->
  truthyString (ws (mkFlags (Some "") h pt)) = false /\
  truthyString (BROWSER_WS_URL (mkEnv (Some endpoint) eh ep)) = true /\
  resolveBrowserConnection (mkFlags (Some "") h pt) (mkEnv (Some endpoint) eh ep)
    = browserWSEndpoint (Some "") /\
  resolveBrowserConnection (mkFlags (Some "") h pt) (mkEnv (Some endpoint) eh ep)
    <> browserWSEndpoint (Some endpoint).
Proof.
  intros Hne.
  assert (Ht : truthyString (Some endpoint) = true).
  { simpl. destruct (String.eqb_spec endpoint ""); [contradiction | reflexivity]. }
  split; [reflexivity|]. split; [exact Ht|].
  unfold Config.resolveBrowserConnection. cbn [ws BROWSER_WS_URL].
  rewrite Ht. cbn [truthyString String.eqb negb orb nullish].
  split; [reflexivity|].
  intros E. injection E as E. apply Hne. symmetry. exact E.
Qed.

End ResolverFacts.

(** The command line [--ws=] under an environment that names a browser. *)
Lemma empty_endpoint_flag_shadows_environment_witness :
  Config.resolveBrowserConnection Sample.stringToNumber (fun _ => "9222")
    (Config.mkFlags (Some "") None (Js.VNum Config.DEFAULT_PORT))
    (Config.mkEnv (Some "ws://127.0.0.1:9222/devtools/browser/abc") None None)
  = Config.browserWSEndpoint (Some "").
Proof.
  apply (empty_endpoint_flag_shadows_environment Sample.stringToNumber
           (fun _ => "9222") "ws://127.0.0.1:9222/devtools/browser/abc"
           None (Js.VNum Config.DEFAULT_PORT) None None).
  discriminate.
Defined.

(** ** Selector synthesis *)

Section StringFacts.

Lemma append_assoc (a b c : string) : (a ++ b) ++ c = a ++ (b ++ c).
Proof. induction a as [|x a IH]; simpl; [reflexivity | rewrite IH; reflexivity]. Qed.

Lemma append_nil_r (a : string) : a ++ "" = a.
Proof. induction a as [|x a IH]; simpl; [reflexivity | rewrite IH; reflexivity]. Qed.

Lemma length_append (a b : string) :
  String.length (a ++ b) = String.length a + String.length b.
Proof. induction a as [|x a IH]; simpl; [reflexivity | rewrite IH; reflexivity]. Qed.

End StringFacts.

Section SynthesisFacts.
Import Dom Css.

Variable cssEscape : option (string -> string).

Local Abbreviation escape := (escapeIdent cssEscape).

(** The filtered sibling array of the loop and the counts of the
    specification agree, whatever position the child nodes start at. *)
Lemma siblings_length (name : string) (k : nat) (kids : list Node) :
  List.length (filter (fun child => nodeName (snd child) =? name)
                 (childrenFrom k kids))
  = sameTypeCount name kids.
Proof.
  unfold sameTypeCount. revert k.
  induction kids as [|[data|d sub] kids IH]; intros k; simpl; [reflexivity| |].
  - apply IH.
  - destruct (nodeName d =? name); simpl; rewrite IH; reflexivity.
Qed.

Lemma siblings_indexOf (name : string) (kids : list Node) :
  forall (k i : nat) (d : ElementData) (sub : list Node),
    nth_error kids i = Some (Element d sub) ->
    nodeName d = name ->
    indexOf (k + i)
      (filter (fun child => nodeName (snd child) =? name) (childrenFrom k kids))
    = Some (sameTypeBefore name i kids).
Proof.
  induction kids as [|n kids IH]; intros k i d sub Hn Hname.
  - destruct i; discriminate.
  - destruct i as [|i].
    + simpl in Hn. injection Hn as ->. simpl. rewrite Hname, String.eqb_refl.
      simpl. rewrite Nat.add_0_r, Nat.eqb_refl. reflexivity.
    + simpl in Hn.
      assert (IH' := IH (S k) i d sub Hn Hname).
      replace (S k + i) with (k + S i) in IH' by lia.
      destruct n as [data|d0 sub0]; simpl; [exact IH'|].
      destruct (nodeName d0 =? name); simpl.
      * replace (k =? k + S i)%nat with false
          by (symmetry; apply Nat.eqb_neq; lia).
        rewrite IH'. reflexivity.
      * exact IH'.
Qed.

(** The class list as the loop joins it and as the segments render it. *)
Lemma classes_joined (classes : list string) (c : string) :
  "." ++ String.concat "." (map escape (c :: classes))
  = renderClasses escape (c :: classes).
Proof.
  revert c. induction classes as [|c' classes IH]; intros c.
  - simpl. rewrite append_nil_r. reflexivity.
  - change (String.concat "." (map escape (c :: c' :: classes)))
      with (escape c ++ "." ++ String.concat "." (map escape (c' :: classes))).
    rewrite IH. reflexivity.
Qed.

Lemma tagAndClasses_rendered (d : ElementData) :
  tagAndClasses cssEscape d
  = toLowerCase (nodeName d) ++ renderClasses escape (classList d).
Proof.
  unfold tagAndClasses. destruct (classList d) as [|c classes].
  - simpl. rewrite append_nil_r. reflexivity.
  - cbn [List.length Nat.ltb Nat.leb]. rewrite classes_joined. reflexivity.
Qed.

(** One iteration of the loop builds the rendered segment. *)
Lemma part_rendered (doc : Node) (i : nat) (parent : Ref) (d : ElementData)
    (sub : list Node) :
  lookup doc (i :: parent) = Some (Element d sub) ->
  withNthOfType (tagAndClasses cssEscape d) d i (childNodesOf doc parent)
  = renderCompound escape (segment doc (i :: parent) d).
Proof.
  intros Hl. unfold withNthOfType, segment, children.
  rewrite siblings_length, tagAndClasses_rendered.
  assert (Hn : nth_error (childNodesOf doc parent) i = Some (Element d sub)).
  { unfold childNodesOf. simpl in Hl.
    destruct (lookup doc parent) as [[|dp kids]|]; try discriminate. exact Hl. }
  destruct (1 <? sameTypeCount (nodeName d) (childNodesOf doc parent))%nat.
  - pose proof (siblings_indexOf (nodeName d) _ 0 i d sub Hn eq_refl) as Hi.
    simpl in Hi. rewrite Hi. simpl.
    rewrite Nat.add_1_r, append_assoc. reflexivity.
  - simpl. rewrite append_nil_r. reflexivity.
Qed.

(** The loop prepends the rendered segments of the walk to [parts]. *)
Lemma loop_rendered (doc : Node) (r : Ref) (parts : list string) :
  toSelectorLoop cssEscape doc r parts
  = (map (renderCompound escape) (rev (segmentsUp doc r)) ++ parts)%list.
Proof.
  revert parts. induction r as [|i parent IH]; intros parts.
  - simpl. unfold element. simpl. destruct doc as [data|d kids]; [reflexivity|].
    destruct (id d =? ""); simpl; [|reflexivity].
    rewrite tagAndClasses_rendered, append_nil_r. reflexivity.
  - cbn [toSelectorLoop segmentsUp]. unfold element.
    destruct (lookup doc (i :: parent)) as [[data|d sub]|] eqn:Hl;
      [reflexivity| |reflexivity].
    destruct (id d =? ""); cbn [negb]; [|reflexivity].
    rewrite IH, (part_rendered doc i parent d sub Hl).
    cbn [rev]. rewrite map_app, <- app_assoc. reflexivity.
Qed.


End SynthesisFacts.

(** ** The text query *)

Section TextQueryFacts.
Import Dom TextQuery.

Lemma stripPrefix_append (prefix s : string) :
  stripPrefix prefix (prefix ++ s) = Some s.
Proof.
  induction prefix as [|c prefix IH]; simpl; [reflexivity|].
  rewrite Ascii.eqb_refl. exact IH.
Qed.

Lemma escapeQuotes_plain (text : string) :
  hasQuote text = false -> escapeQuotes text = text.
Proof.
  induction text as [|c text IH]; simpl; [reflexivity|].
  intros H. apply orb_false_iff in H as [Hc Ht].
  rewrite Hc, (IH Ht). reflexivity.
Qed.

Lemma readLiteral_plain (text after : string) :
  hasQuote text = false ->
  readLiteral (text ++ String dquote after) = Some (text, after).
Proof.
  induction text as [|c text IH]; simpl.
  - intros _. reflexivity.
  - intros H. apply orb_false_iff in H as [Hc Ht].
    rewrite Hc, (IH Ht). reflexivity.
Qed.

(** For a text without a double quote the expression is well formed and
    selects, in document order, the elements whose first text child
    contains the text after white-space normalization. *)
Lemma evaluate_expression (doc : Node) (text : string) :
  hasQuote text = false ->
  evaluate doc (expression text)
  = Some (filter (predicate doc text) (allElements doc)).
Proof.
  intros H. unfold evaluate, expression.
  rewrite stripPrefix_append, (escapeQuotes_plain text H),
    (readLiteral_plain text ")]" H).
  reflexivity.
Qed.

(** C7, as the code has it. For a text without a double quote the query
    matches, case-sensitively, the text against the white-space-normalized
    data of the first text child of each element (not against the
    element's whole text content); of the matching elements, taken in
    document order, the first is returned and all others are disposed
    of; without a match the answer is null. *)
Theorem text_query_resolution (doc : Node) (text : string) :
  hasQuote text = false ->
  findByText doc text =
    match filter (predicate doc text) (allElements doc) with
    | [] => Returned None []
    | first :: rest => Returned (Some first) rest
    end.
Proof.
  intros H. unfold findByText. rewrite (evaluate_expression doc text H).
  destruct (filter _ _); reflexivity.
Qed.

(** What the replace call makes of a text with a double quote: the
    literal of the expression ends at the first quote of the text, and
    something other than the closing of the expression follows. *)
Lemma readLiteral_quoted (text tail : string) :
  hasQuote text = true ->
  exists lit after,
    readLiteral (escapeQuotes text ++ String dquote tail) = Some (lit, after) /\
    String.length tail < String.length after.
Proof.
  induction text as [|c text IH]; simpl; [discriminate|].
  intros H. destruct (Ascii.eqb c dquote) eqn:Hc.
  - apply Ascii.eqb_eq in Hc. subst c. simpl.
    exists "\"%string, (escapeQuotes text ++ String dquote tail).
    split; [reflexivity|]. rewrite length_append. simpl. lia.
  - simpl in H. simpl. rewrite Hc.
    destruct (IH H) as (lit & after & E & L). rewrite E.
    exists (String c lit), after. split; [reflexivity | exact L].
Qed.

(** A text with a double quote makes the expression malformed: the query
    throws instead of answering. *)
Lemma quoted_text_is_rejected (doc : Node) (text : string) :
  hasQuote text = true -> findByText doc text = Threw.
Proof.
  intros H. unfold findByText, evaluate, expression.
  rewrite stripPrefix_append.
  destruct (readLiteral_quoted text ")]" H) as (lit & after & E & L).
  rewrite E. destruct (String.eqb_spec after ")]") as [->|_]; [|reflexivity].
  simpl in L. lia.
Qed.

End TextQueryFacts.

(** C7 as stated fails: on the sample page the first element in
    document order whose text content contains [Submit] is the document
    element, but the query returns the first button. *)
Lemma text_content_is_not_what_is_matched :
  exists first rest,
    filter (TextQuery.textContentPredicate Sample.doc "Submit")
      (Dom.allElements Sample.doc) = first :: rest /\
    TextQuery.findByText Sample.doc "Submit" <> TextQuery.Returned (Some first) rest.
Proof.
  eexists. eexists. split; [vm_compute; reflexivity|].
  vm_compute. discriminate.
Qed.

(** The query for [Submit] on the sample page. *)
Lemma text_query_resolution_witness :
  TextQuery.findByText Sample.doc "Submit" =
    TextQuery.Returned (Some [1; 0; 0]) [[0; 2; 0; 0]].
Proof.
  rewrite (text_query_resolution Sample.doc "Submit" eq_refl).
  reflexivity.
Defined.

(** ** Reading back what the synthesizer writes *)

Section CharacterFacts.
Import Dom Css.

Ltac by_cases c :=
  destruct c as [[] [] [] [] [] [] [] []]; vm_compute; intuition congruence.

Lemma wordChar_identChar (c : ascii) : isWordChar c = true -> isIdentChar c = true.
Proof. by_cases c. Qed.

Lemma nonWord_not_hex (c : ascii) : isWordChar c = false -> isHexDigit c = false.
Proof. by_cases c. Qed.

Lemma wordChar_start (c : ascii) :
  isWordChar c = true -> isDigit c = false -> isHyphen c = false ->
  isIdentStart c = true.
Proof. by_cases c. Qed.

Lemma wordChar_second (c : ascii) :
  isWordChar c = true -> isDigit c = false ->
  isIdentStart c || isHyphen c = true.
Proof. by_cases c. Qed.

Lemma backslash_facts :
  isIdentChar backslash = false /\ isHyphen backslash = false /\
  isIdentStart backslash = false /\ Ascii.eqb backslash backslash = true.
Proof. vm_compute. auto. Qed.

Lemma upper_of_lower (c : ascii) : upperChar (lowerChar c) = upperChar c.
Proof. by_cases c. Qed.

Lemma lower_of_lower (c : ascii) : lowerChar (lowerChar c) = lowerChar c.
Proof. by_cases c. Qed.

End CharacterFacts.

Section ParserFacts.
Import Dom Css.

(** The fallback escaper leaves a name of word characters alone. *)
Lemma fallbackEscape_plain (name : string) :
  allWordChars name = true -> fallbackEscape name = name.
Proof.
  induction name as [|c name IH]; simpl; [reflexivity|].
  intros H. apply andb_true_iff in H as [Hc Hn].
  rewrite Hc, (IH Hn). reflexivity.
Qed.

(** Consuming a name written by the fallback escaper gives the name
    back and stops where it ends. *)
Lemma consumeName_fallback (name rest : string) :
  clean name = true -> delimited rest = true ->
  consumeName (fallbackEscape name ++ rest) = Some (name, rest).
Proof.
  intros Hc Hd. induction name as [|c name IH].
  - simpl. destruct rest as [|d rest]; [reflexivity|].
    simpl in Hd. apply andb_true_iff in Hd as [H1 H2].
    apply negb_true_iff in H1, H2. simpl. rewrite H1, H2. reflexivity.
  - simpl in Hc. apply andb_true_iff in Hc as [Hc Hn].
    apply negb_true_iff, orb_false_iff in Hc as [Hnl Hnul].
    specialize (IH Hn). simpl.
    destruct (isWordChar c) eqn:Hw.
    + simpl. rewrite (wordChar_identChar c Hw), IH. reflexivity.
    + destruct backslash_facts as (B1 & _ & _ & B4).
      change (String "\" (String c (fallbackEscape name)) ++ rest)
        with (String backslash (String c (fallbackEscape name ++ rest))).
      cbn [consumeName]. rewrite B1, B4, Hnl, (nonWord_not_hex c Hw), Hnul.
      simpl. rewrite IH. reflexivity.
Qed.

Lemma startsIdent_fallback (name rest : string) :
  fallbackSafe name = true ->
  startsIdent (fallbackEscape name ++ rest) = true.
Proof.
  destruct name as [|c name]; [discriminate|].
  unfold fallbackSafe. intros H.
  apply andb_true_iff in H as [H Hc].
  apply andb_true_iff in H as [Hd Hh]. apply negb_true_iff in Hd.
  simpl in Hc. apply andb_true_iff in Hc as [Hc Hn].
  apply negb_true_iff, orb_false_iff in Hc as [Hnl _].
  destruct backslash_facts as (B1 & B2 & B3 & B4).
  cbn [fallbackEscape]. destruct (isWordChar c) eqn:Hw.
  - cbn [append startsIdent]. destruct (isHyphen c) eqn:Hy.
    + destruct name as [|d name]; [discriminate|].
      apply negb_true_iff in Hh. cbn [fallbackEscape].
      simpl in Hn. apply andb_true_iff in Hn as [Hdn _].
      apply negb_true_iff, orb_false_iff in Hdn as [Hdnl _].
      destruct (isWordChar d) eqn:Hwd.
      * cbn [append]. rewrite (wordChar_second d Hwd Hh). reflexivity.
      * change (String "\" (String d (fallbackEscape name)) ++ rest)
          with (String backslash (String d (fallbackEscape name ++ rest))).
        cbv beta iota. rewrite B3, B2. cbn [validEscape orb].
        rewrite B4, Hdnl. reflexivity.
    + rewrite (wordChar_start c Hw Hd Hy). reflexivity.
  - change (String "\" (String c (fallbackEscape name)) ++ rest)
      with (String backslash (String c (fallbackEscape name ++ rest))).
    cbn [startsIdent]. rewrite B2, B3. cbn [validEscape orb].
    rewrite B4, Hnl. reflexivity.
Qed.

(** The fallback escaper writes every safe name as an identifier that
    reads back as the name. *)
Lemma parseIdent_fallback (name rest : string) :
  fallbackSafe name = true -> delimited rest = true ->
  parseIdent (fallbackEscape name ++ rest) = Some (name, rest).
Proof.
  intros Hs Hd. unfold parseIdent. rewrite (startsIdent_fallback name rest Hs).
  apply consumeName_fallback; [|exact Hd].
  destruct name as [|c name]; [discriminate|].
  unfold fallbackSafe in Hs. apply andb_true_iff in Hs as [_ Hc]. exact Hc.
Qed.

Lemma parseIdent_plain (name rest : string) :
  plainIdent name = true -> delimited rest = true ->
  parseIdent (name ++ rest) = Some (name, rest).
Proof.
  intros H Hd. apply andb_true_iff in H as [Hw Hs].
  rewrite <- (fallbackEscape_plain name Hw) at 1.
  apply parseIdent_fallback; assumption.
Qed.

Lemma spanDigits_decimal (u : Decimal.uint) (rest : string) :
  spanDigits (NilEmpty.string_of_uint u ++ String ")" rest)
  = (NilEmpty.string_of_uint u, String ")" rest).
Proof.
  induction u as [|u IH|u IH|u IH|u IH|u IH|u IH|u IH|u IH|u IH|u IH];
    [reflexivity|..];
    cbn [NilEmpty.string_of_uint append spanDigits];
    match goal with
    | |- context [isDigit ?c] =>
        change (isDigit c) with true; cbv iota; rewrite IH; reflexivity
    end.
Qed.

Lemma decimal_nonempty (n : nat) : decimal n <> "".
Proof.
  unfold decimal. destruct n as [|n]; [discriminate|].
  intros H. pose proof (DecimalNat.Unsigned.of_to (S n)) as E.
  destruct (Nat.to_uint (S n)); simpl in H; discriminate.
Qed.

Lemma parseNth_rendered (nth : option nat) (rest : string) :
  compoundEnd rest = true ->
  parseNth (renderNth nth ++ rest) = Some (nth, rest).
Proof.
  intros Hr. destruct nth as [n|].
  - unfold renderNth, parseNth.
    rewrite append_assoc, stripPrefix_append, append_assoc.
    unfold decimal at 1. change (")" ++ rest) with (String ")" rest).
    rewrite spanDigits_decimal. fold (decimal n).
    destruct (decimal n) as [|c ds] eqn:E; [exfalso; apply (decimal_nonempty n E)|].
    rewrite <- E. unfold decimal.
    rewrite NilEmpty.usu, DecimalNat.Unsigned.of_to. reflexivity.
  - simpl. unfold parseNth.
    destruct rest as [|c rest]; [reflexivity|].
    simpl in Hr. apply Ascii.eqb_eq in Hr. subst c. reflexivity.
Qed.

Section ReadBack.

Variable escape : string -> string.

Local Abbreviation Readable := (Css.Readable escape).

Lemma delimited_classes (classes : list string) (rest : string) :
  delimited rest = true -> delimited (renderClasses escape classes ++ rest) = true.
Proof. intros H. destruct classes; [exact H | reflexivity]. Qed.

Lemma delimited_nth (nth : option nat) (rest : string) :
  compoundEnd rest = true -> delimited (renderNth nth ++ rest) = true.
Proof.
  intros H. destruct nth; [reflexivity|]. simpl.
  destruct rest as [|c rest]; [reflexivity|].
  simpl in H. apply Ascii.eqb_eq in H. subst c. reflexivity.
Qed.

Lemma parseClasses_rendered (classes : list string) (rest : string) (fuel : nat) :
  Forall (readsBack escape) classes ->
  delimited rest = true ->
  (forall r, rest <> String "." r) ->
  List.length classes <= fuel ->
  parseClasses fuel (renderClasses escape classes ++ rest) = Some (classes, rest).
Proof.
  intros Hc Hd Hdot. revert fuel.
  induction Hc as [|c classes Hrb Hc IH]; intros fuel Hf.
  - simpl. destruct rest as [|x rest]; [destruct fuel; reflexivity|].
    destruct (Ascii.eqb_spec x "."%char) as [->|Hx].
    + exfalso. apply (Hdot rest). reflexivity.
    + destruct fuel; destruct x as [[] [] [] [] [] [] [] []]; try reflexivity;
        exfalso; apply Hx; reflexivity.
  - destruct fuel as [|fuel]; [simpl in Hf; lia|].
    cbn [renderClasses]. rewrite !append_assoc.
    change ("." ++ (escape c ++ renderClasses escape classes ++ rest))
      with (String "." (escape c ++ (renderClasses escape classes ++ rest))).
    cbn [parseClasses].
    rewrite (Hrb _ (delimited_classes classes rest Hd)).
    rewrite IH by (simpl in Hf; lia). reflexivity.
Qed.

Lemma renderClasses_length (classes : list string) :
  List.length classes <= String.length (renderClasses escape classes).
Proof.
  induction classes as [|c classes IH]; simpl; [lia|].
  rewrite length_append. lia.
Qed.

Lemma compoundEnd_delimited (rest : string) :
  compoundEnd rest = true -> delimited rest = true.
Proof.
  destruct rest as [|c rest]; [reflexivity|]. simpl. intros H.
  apply Ascii.eqb_eq in H. subst c. reflexivity.
Qed.

Lemma parseCompound_rendered (c : Compound) (rest : string) (fuel : nat) :
  Readable c -> compoundEnd rest = true ->
  String.length (renderCompound escape c ++ rest) < fuel ->
  parseCompound fuel (renderCompound escape c ++ rest) = Some (c, rest).
Proof.
  intros Hr He Hf. destruct c as [name|tag classes nth].
  - simpl in *. rewrite (Hr rest (compoundEnd_delimited rest He)). reflexivity.
  - destruct Hr as [Ht Hc]. cbn [renderCompound] in *.
    rewrite !append_assoc in *.
    assert (Hp : parseIdent (tag ++ renderClasses escape classes ++ renderNth nth ++ rest)
                 = Some (tag, renderClasses escape classes ++ renderNth nth ++ rest)).
    { apply parseIdent_plain; [exact Ht|].
      apply delimited_classes, delimited_nth, He. }
    unfold parseCompound.
    destruct tag as [|t tag]; [discriminate|].
    assert (Hhash : t <> "#"%char).
    { intros ->. discriminate. }
    cbn [append] in *.
    destruct (Ascii.eqb_spec t "#"%char) as [E|_]; [contradiction|].
    assert (Hcl : parseClasses fuel (renderClasses escape classes ++ renderNth nth ++ rest)
                  = Some (classes, renderNth nth ++ rest)).
    { apply parseClasses_rendered; [exact Hc | apply delimited_nth, He | |].
      - intros r. destruct nth; [discriminate|]. simpl.
        destruct rest as [|x rest]; [discriminate|].
        simpl in He. apply Ascii.eqb_eq in He. subst x. discriminate.
      - pose proof (renderClasses_length classes) as L.
        simpl in Hf. rewrite !length_append in Hf. lia. }
    destruct t as [[] [] [] [] [] [] [] []];
      try (exfalso; apply Hhash; reflexivity);
      rewrite Hp, Hcl, (parseNth_rendered nth rest He); reflexivity.
Qed.

Lemma parseChain_rendered (l : list Compound) :
  l <> [] -> Forall Readable l ->
  forall fuel seen,
    String.length (String.concat " > " (map (renderCompound escape) l)) < fuel ->
    parseChain fuel seen (String.concat " > " (map (renderCompound escape) l))
    = Some (rev l ++ seen)%list.
Proof.
  intros Hne Hr. induction Hr as [|c l Hc Hl IH]; [contradiction|].
  intros fuel seen Hf. destruct fuel as [|fuel]; [lia|].
  destruct l as [|c2 l].
  - cbn [map String.concat] in *. cbn [parseChain].
    rewrite <- (append_nil_r (renderCompound escape c)) at 1.
    rewrite (parseCompound_rendered c "" (S fuel) Hc eq_refl)
      by (rewrite append_nil_r; exact Hf).
    reflexivity.
  - change (String.concat " > " (map (renderCompound escape) (c :: c2 :: l)))
      with (renderCompound escape c ++ " > "
            ++ String.concat " > " (map (renderCompound escape) (c2 :: l))) in *.
    set (tail := String.concat " > " (map (renderCompound escape) (c2 :: l))) in *.
    cbn [parseChain].
    rewrite (parseCompound_rendered c (" > " ++ tail) (S fuel) Hc eq_refl Hf).
    change (" > " ++ tail) with (String " " (">" ++ " " ++ tail)).
    cbv iota.
    change (String " " (">" ++ " " ++ tail)) with (" > " ++ tail).
    rewrite stripPrefix_append.
    rewrite IH; [|discriminate|].
    + cbn [rev]. rewrite <- !app_assoc. reflexivity.
    + rewrite !length_append in Hf. simpl in Hf. lia.
Qed.

(** A chain whose names are written properly reads back as itself. *)
Lemma parseSelector_rendered (chain : Chain) :
  chain <> [] -> Forall Readable chain ->
  parseSelector (render escape chain) = Some chain.
Proof.
  intros Hne Hr. unfold parseSelector, render.
  rewrite parseChain_rendered.
  - rewrite rev_involutive, app_nil_r. reflexivity.
  - intros E. apply Hne. rewrite <- (rev_involutive chain), E. reflexivity.
  - apply Forall_rev. exact Hr.
  - lia.
Qed.

End ReadBack.

End ParserFacts.

(** ** What a synthesized chain matches *)

Section DocumentFacts.
Import Dom Css.

Lemma lookup_app (doc : Node) (rel here : Ref) :
  lookup doc (rel ++ here)%list =
    match lookup doc here with
    | Some n => lookup n rel
    | None => None
    end.
Proof.
  induction rel as [|i rel IH]; simpl.
  - destruct (lookup doc here); reflexivity.
  - rewrite IH. destruct (lookup doc here); reflexivity.
Qed.

Lemma lookup_text (data : string) (rel : Ref) (m : Node) :
  lookup (Text data) rel = Some m -> rel = [].
Proof.
  revert m. induction rel as [|i rel IH]; intros m H; [reflexivity|].
  simpl in H. destruct (lookup (Text data) rel) as [[d0|d0 kids0]|] eqn:E;
    try discriminate.
  specialize (IH _ eq_refl). subst rel. discriminate.
Qed.

Lemma overChildren_in {A : Type} (f : nat -> Node -> list A) (ks : list Node) :
  forall (i j : nat) (k : Node) (x : A),
    nth_error ks j = Some k -> In x (f (i + j) k) ->
    In x (overChildren f i ks).
Proof.
  induction ks as [|k0 ks IH]; intros i j k x Hn Hx.
  - destruct j; discriminate.
  - simpl. apply in_or_app. destruct j as [|j].
    + simpl in Hn. injection Hn as ->. rewrite Nat.add_0_r in Hx. left. exact Hx.
    + right. apply (IH (S i) j k x Hn).
      replace (S i + j) with (i + S j) by lia. exact Hx.
Qed.

(** Every element of the document is visited. *)
Lemma elementsFrom_complete (n : Node) :
  forall (here rel : Ref) (d : ElementData) (kids : list Node),
    lookup n rel = Some (Element d kids) ->
    In (rel ++ here)%list (elementsFrom n here).
Proof.
  induction n as [data|d0 kids0 IH] using Node_induction;
    intros here rel d kids Hl.
  - apply lookup_text in Hl as E. subst rel. discriminate.
  - induction rel as [|j rel' _] using rev_ind.
    + simpl. left. reflexivity.
    + rewrite lookup_app in Hl. simpl in Hl.
      destruct (nth_error kids0 j) as [k|] eqn:Hk; [|discriminate].
      simpl. right.
      apply (overChildren_in _ kids0 0 j k _ Hk). simpl.
      rewrite <- app_assoc. simpl.
      rewrite Forall_forall in IH.
      apply (IH k (nth_error_In _ _ Hk) (j :: here) rel' d kids Hl).
Qed.

Lemma allElements_complete (doc : Node) (r : Ref) (d : ElementData) :
  element doc r = Some d -> In r (allElements doc).
Proof.
  unfold element, allElements. intros H.
  destruct (lookup doc r) as [[data|d' kids]|] eqn:E; try discriminate.
  rewrite <- (app_nil_r r). apply (elementsFrom_complete doc [] r d' kids E).
Qed.

(** The parent of an element is an element. *)
Lemma parent_element (doc : Node) (i : nat) (parent : Ref) (d : ElementData) :
  element doc (i :: parent) = Some d ->
  exists dp sub,
    element doc parent = Some dp /\
    nth_error (childNodesOf doc parent) i = Some (Element d sub).
Proof.
  unfold element, childNodesOf. simpl.
  destruct (lookup doc parent) as [[data|dp kids]|]; try discriminate.
  destruct (nth_error kids i) as [[data|d' sub]|] eqn:E; try discriminate.
  intros H. injection H as <-. eauto.
Qed.

Lemma find_the_only {A : Type} (f : A -> bool) (l : list A) (a : A) :
  In a l -> f a = true ->
  (forall x, In x l -> f x = true -> x = a) ->
  find f l = Some a.
Proof.
  induction l as [|y l IH]; intros Hin Ha Hu; [contradiction|].
  simpl. destruct (f y) eqn:Hy.
  - f_equal. apply Hu; [left; reflexivity | exact Hy].
  - destruct Hin as [->|Hin]; [congruence|].
    apply IH; [exact Hin | exact Ha|].
    intros x Hx. apply Hu. right. exact Hx.
Qed.

Lemma filter_single {A : Type} (f : A -> bool) (l : list A) (a x : A) :
  List.length (filter f l) = 1 ->
  In a l -> f a = true -> In x l -> f x = true -> x = a.
Proof.
  intros Hlen Ha Hfa Hx Hfx.
  assert (Ia : In a (filter f l)) by (apply filter_In; auto).
  assert (Ix : In x (filter f l)) by (apply filter_In; auto).
  destruct (filter f l) as [|y [|z t]]; simpl in Hlen; try discriminate.
  destruct Ia as [<-|[]], Ix as [<-|[]]. reflexivity.
Qed.

(** Counting the siblings of a type. *)
Lemma sameTypeBefore_step (name : string) (kids : list Node) :
  forall (i : nat) (d : ElementData) (sub : list Node),
    nth_error kids i = Some (Element d sub) -> nodeName d = name ->
    sameTypeBefore name (S i) kids = S (sameTypeBefore name i kids).
Proof.
  induction kids as [|k kids IH]; intros i d sub Hn Hname.
  - destruct i; discriminate.
  - destruct i as [|i].
    + simpl in Hn. injection Hn as ->. simpl. rewrite Hname, String.eqb_refl.
      destruct kids; reflexivity.
    + simpl in Hn. specialize (IH i d sub Hn Hname).
      destruct k as [data|d0 sub0].
      * change (sameTypeBefore name (S (S i)) (Text data :: kids))
          with (sameTypeBefore name (S i) kids).
        rewrite IH. reflexivity.
      * change (sameTypeBefore name (S (S i)) (Element d0 sub0 :: kids))
          with ((if nodeName d0 =? name then 1 else 0)
                + sameTypeBefore name (S i) kids).
        rewrite IH. simpl. lia.
Qed.

Lemma sameTypeBefore_mono (name : string) (kids : list Node) :
  forall i j, i <= j -> sameTypeBefore name i kids <= sameTypeBefore name j kids.
Proof.
  induction kids as [|k kids IH]; intros i j Hij.
  - destruct i, j; simpl; lia.
  - destruct i as [|i]; [simpl; lia|].
    destruct j as [|j]; [lia|].
    assert (Hle := IH i j ltac:(lia)).
    destruct k as [data|d0 sub0]; simpl; lia.
Qed.

Lemma sameTypeBefore_count (name : string) (kids : list Node) (i : nat) :
  sameTypeBefore name i kids <= sameTypeCount name kids.
Proof.
  unfold sameTypeCount. revert i.
  induction kids as [|k kids IH]; intros i.
  - destruct i; simpl; lia.
  - destruct i as [|i]; [simpl; lia|].
    specialize (IH i). destruct k as [data|d0 sub0]; simpl; lia.
Qed.

(** Two children of one type at the same position among their type are
    the same child. *)
Lemma sameTypeBefore_injective (name : string) (kids : list Node)
    (i j : nat) (d d' : ElementData) (sub sub' : list Node) :
  nth_error kids i = Some (Element d sub) -> nodeName d = name ->
  nth_error kids j = Some (Element d' sub') -> nodeName d' = name ->
  sameTypeBefore name i kids = sameTypeBefore name j kids ->
  i = j.
Proof.
  intros Hi Hd Hj Hd' E.
  destruct (Nat.lt_trichotomy i j) as [L|[L|L]]; [|exact L|].
  - pose proof (sameTypeBefore_step name kids i d sub Hi Hd).
    pose proof (sameTypeBefore_mono name kids (S i) j L). lia.
  - pose proof (sameTypeBefore_step name kids j d' sub' Hj Hd').
    pose proof (sameTypeBefore_mono name kids (S j) i L). lia.
Qed.

(** A type with at most one child has at most one child. *)
Lemma only_child_of_type (name : string) (kids : list Node)
    (i j : nat) (d d' : ElementData) (sub sub' : list Node) :
  nth_error kids i = Some (Element d sub) -> nodeName d = name ->
  nth_error kids j = Some (Element d' sub') -> nodeName d' = name ->
  sameTypeCount name kids <= 1 ->
  i = j.
Proof.
  intros Hi Hd Hj Hd' Hc.
  pose proof (sameTypeBefore_step name kids i d sub Hi Hd) as Si.
  pose proof (sameTypeBefore_step name kids j d' sub' Hj Hd') as Sj.
  pose proof (sameTypeBefore_count name kids (S i)) as Ci.
  pose proof (sameTypeBefore_count name kids (S j)) as Cj.
  destruct (Nat.lt_trichotomy i j) as [L|[L|L]]; [|exact L|].
  - pose proof (sameTypeBefore_mono name kids (S i) j L). lia.
  - pose proof (sameTypeBefore_mono name kids (S j) i L). lia.
Qed.

(** Letter case. *)
Lemma toLowerCase_idempotent (s : string) :
  toLowerCase (toLowerCase s) = toLowerCase s.
Proof.
  induction s as [|c s IH]; simpl; [reflexivity|].
  rewrite lower_of_lower, IH. reflexivity.
Qed.

Lemma toUpperCase_toLowerCase (s : string) :
  toUpperCase (toLowerCase s) = toUpperCase s.
Proof.
  induction s as [|c s IH]; simpl; [reflexivity|].
  rewrite upper_of_lower, IH. reflexivity.
Qed.

Lemma canonical_names_equal (a c : string) :
  a = toUpperCase a -> c = toUpperCase c ->
  toLowerCase a = toLowerCase c -> a = c.
Proof.
  intros Ha Hc E. rewrite Ha, Hc.
  rewrite <- (toUpperCase_toLowerCase a), <- (toUpperCase_toLowerCase c), E.
  reflexivity.
Qed.

End DocumentFacts.

Section ChainFacts.
Import Dom Css.

Variable doc : Node.
Hypothesis canonical : canonicalNames doc = true.

Lemma canonical_at (r : Ref) (d : ElementData) :
  element doc r = Some d -> nodeName d = toUpperCase (nodeName d).
Proof.
  intros H. unfold canonicalNames in canonical.
  rewrite forallb_forall in canonical.
  specialize (canonical r (allElements_complete doc r d H)).
  rewrite H in canonical. apply String.eqb_eq. exact canonical.
Qed.

Lemma matchesCompound_element (r : Ref) (c : Compound) :
  matchesCompound doc r c = true -> exists d, element doc r = Some d.
Proof.
  unfold matchesCompound. destruct (element doc r) as [d|]; [eauto|discriminate].
Qed.

Lemma segmentsUp_nonempty (r : Ref) (d : ElementData) :
  element doc r = Some d -> segmentsUp doc r <> [].
Proof.
  intros H. destruct r; simpl; rewrite H; destruct (id d =? ""); discriminate.
Qed.

Lemma matchesChain_single (r : Ref) (c : Compound) :
  matchesChain doc r [c] = matchesCompound doc r c.
Proof.
  change (matchesChain doc r [c]) with (matchesCompound doc r c && true).
  apply andb_true_r.
Qed.

Lemma matchesChain_cons (r : Ref) (c c2 : Compound) (rest : Chain) :
  matchesChain doc r (c :: c2 :: rest) =
    matchesCompound doc r c &&
    match r with
    | [] => false
    | _ :: parent => matchesChain doc parent (c2 :: rest)
    end.
Proof. reflexivity. Qed.

(** Among the children of one parent, the segment of a child matches
    that child only. *)
Lemma sibling_identified (i i' : nat) (parent : Ref) (d : ElementData) :
  element doc (i :: parent) = Some d ->
  matchesCompound doc (i' :: parent) (segment doc (i :: parent) d) = true ->
  i' = i.
Proof.
  intros Hd Hm.
  destruct (matchesCompound_element _ _ Hm) as [d' Hd'].
  unfold matchesCompound in Hm. rewrite Hd' in Hm. unfold segment in Hm.
  apply andb_true_iff in Hm as [Hm Hnth].
  apply andb_true_iff in Hm as [Hname _].
  apply String.eqb_eq in Hname. rewrite toLowerCase_idempotent in Hname.
  assert (En : nodeName d' = nodeName d).
  { apply canonical_names_equal;
      [exact (canonical_at _ _ Hd') | exact (canonical_at _ _ Hd) | congruence]. }
  destruct (parent_element doc i parent d Hd) as (dp & sub & _ & Hi).
  destruct (parent_element doc i' parent d' Hd') as (dp' & sub' & _ & Hi').
  destruct (1 <? sameTypeCount (nodeName d) (childNodesOf doc parent))%nat eqn:Hc.
  - apply Nat.eqb_eq in Hnth. cbn [typeIndex] in Hnth. rewrite En in Hnth.
    injection Hnth as Hnth.
    apply (sameTypeBefore_injective (nodeName d) (childNodesOf doc parent)
             i' i d' d sub' sub); auto.
  - apply Nat.ltb_ge in Hc.
    apply (only_child_of_type (nodeName d) (childNodesOf doc parent)
             i' i d' d sub' sub); auto.
Qed.

(** The anchor is shared along the walk. *)
Lemma anchoredUniquely_parent (i : nat) (parent : Ref) (d : ElementData) :
  element doc (i :: parent) = Some d -> id d = "" ->
  anchoredUniquely doc (i :: parent) = anchoredUniquely doc parent.
Proof.
  intros Hd Hid. unfold anchoredUniquely. cbn [anchorOf].
  rewrite Hd, Hid. reflexivity.
Qed.

(** The chain synthesized for a uniquely anchored node matches no other
    element. *)
Lemma chain_identifies :
  forall (r : Ref) (d : ElementData) (r' : Ref),
    element doc r = Some d ->
    anchoredUniquely doc r = true ->
    matchesChain doc r' (segmentsUp doc r) = true ->
    r' = r.
Proof.
  induction r as [|i parent IH]; intros d r' Hd Ha Hm.
  - (* the document element: it is its own anchor *)
    unfold anchoredUniquely in Ha. cbn [anchorOf segmentsUp] in Ha, Hm.
    rewrite Hd in Ha, Hm.
    destruct (id d =? "") eqn:Hid; cbn [negb] in Ha, Hm; [discriminate|].
    rewrite Hd in Ha. apply Nat.eqb_eq in Ha.
    rewrite matchesChain_single in Hm.
    destruct (matchesCompound_element _ _ Hm) as [d' Hd'].
    apply (filter_single (hasId doc (id d)) (allElements doc) [] r' Ha).
    + exact (allElements_complete doc [] d Hd).
    + unfold hasId. rewrite Hd. apply String.eqb_refl.
    + exact (allElements_complete doc r' d' Hd').
    + unfold hasId. unfold matchesCompound in Hm. exact Hm.
  - cbn [segmentsUp] in Hm. rewrite Hd in Hm.
    destruct (id d =? "") eqn:Hid; cbn [negb] in Hm.
    + apply String.eqb_eq in Hid.
      rewrite (anchoredUniquely_parent i parent d Hd Hid) in Ha.
      destruct (parent_element doc i parent d Hd) as (dp & sub & Hp & _).
      pose proof (segmentsUp_nonempty parent dp Hp) as Hne.
      destruct (segmentsUp doc parent) as [|c2 rest] eqn:Es; [contradiction|].
      rewrite matchesChain_cons in Hm. apply andb_true_iff in Hm as [Hc Hrest].
      destruct r' as [|i' p']; [discriminate|].
      assert (p' = parent) by (apply (IH dp p' Hp Ha); exact Hrest).
      subst p'. f_equal. apply (sibling_identified i i' parent d Hd Hc).
    + unfold anchoredUniquely in Ha. cbn [anchorOf] in Ha.
      rewrite Hd, Hid in Ha. cbn [negb] in Ha. rewrite Hd in Ha.
      apply Nat.eqb_eq in Ha.
      rewrite matchesChain_single in Hm.
      destruct (matchesCompound_element _ _ Hm) as [d' Hd'].
      apply (filter_single (hasId doc (id d)) (allElements doc) (i :: parent) r' Ha).
      * exact (allElements_complete doc _ d Hd).
      * unfold hasId. rewrite Hd. apply String.eqb_refl.
      * exact (allElements_complete doc r' d' Hd').
      * unfold hasId. unfold matchesCompound in Hm. exact Hm.
Qed.

Lemma hasClass_own (d : ElementData) :
  forallb (hasClass d) (classList d) = true.
Proof.
  apply forallb_forall. intros c Hc. unfold hasClass.
  apply existsb_exists. exists c. split; [exact Hc | apply String.eqb_refl].
Qed.

Lemma segment_matches (r : Ref) (d : ElementData) :
  element doc r = Some d -> matchesCompound doc r (segment doc r d) = true.
Proof.
  intros Hd. unfold matchesCompound, segment. rewrite Hd.
  rewrite toLowerCase_idempotent, String.eqb_refl, hasClass_own. simpl.
  destruct r as [|i parent]; [reflexivity|].
  destruct (1 <? sameTypeCount (nodeName d) (childNodesOf doc parent))%nat;
    [|reflexivity].
  cbn [typeIndex]. apply Nat.eqb_refl.
Qed.

(** The chain synthesized for an element matches that element. *)
Lemma chain_matches_itself :
  forall (r : Ref) (d : ElementData),
    element doc r = Some d -> matchesChain doc r (segmentsUp doc r) = true.
Proof.
  induction r as [|i parent IH]; intros d Hd; cbn [segmentsUp]; rewrite Hd.
  - destruct (id d =? "") eqn:Hid; cbn [negb]; rewrite matchesChain_single.
    + exact (segment_matches [] d Hd).
    + unfold matchesCompound. rewrite Hd. apply String.eqb_refl.
  - destruct (id d =? "") eqn:Hid; cbn [negb].
    + destruct (parent_element doc i parent d Hd) as (dp & sub & Hp & _).
      specialize (IH dp Hp).
      destruct (segmentsUp doc parent) as [|c2 rest].
      * rewrite matchesChain_single. exact (segment_matches _ d Hd).
      * rewrite matchesChain_cons, (segment_matches _ d Hd). exact IH.
    + rewrite matchesChain_single.
      unfold matchesCompound. rewrite Hd. apply String.eqb_refl.
Qed.

End ChainFacts.

(** ** The round trip *)

Section RoundTrip.
Import Dom Css.

Variable cssEscape : option (string -> string).

Lemma escapesProperly_readsBack (names : list string) :
  escapesProperly cssEscape names ->
  Forall (readsBack (escapeIdent cssEscape)) names.
Proof.
  unfold escapesProperly, escapeIdent. destruct cssEscape as [native|].
  - intros H. exact H.
  - intros H. rewrite forallb_forall in H. apply Forall_forall.
    intros name Hin rest Hrest. apply parseIdent_fallback; auto.
Qed.

Lemma readable_chain (chain : Chain) :
  plainTags chain = true ->
  Forall (readsBack (escapeIdent cssEscape)) (escapedNames chain) ->
  Forall (Readable (escapeIdent cssEscape)) chain.
Proof.
  induction chain as [|c chain IH]; intros Ht Hn; [constructor|].
  destruct c as [name|tag classes nth]; simpl in Ht, Hn.
  - inversion Hn; subst. constructor; [assumption | apply IH; assumption].
  - apply andb_true_iff in Ht as [Ht1 Ht2].
    apply Forall_app in Hn as [Hc Hrest].
    constructor; [split; assumption | apply IH; assumption].
Qed.

Lemma anchored_is_element (doc : Node) (r : Ref) :
  anchoredUniquely doc r = true -> exists d, element doc r = Some d.
Proof.
  unfold anchoredUniquely. destruct r; cbn [anchorOf];
    destruct (element doc _) as [d|]; [eauto|discriminate|eauto|discriminate].
Qed.


End RoundTrip.



(** The fallback escaper leaves a leading digit alone, and what it then
    writes is no identifier. *)
Lemma fallback_leaves_leading_digit :
  Dom.fallbackEscape "1abc" = "1abc" /\ Css.parseIdent "1abc" = None.
Proof. split; reflexivity. Qed.

(** ** The command line parser *)

Section ArgvFacts.
Import Js Argv.

Variable stringToNumber : string -> Number.
Variable nativeText : string -> string.

Local Abbreviation scan := (Argv.scan stringToNumber nativeText).
Local Abbreviation parseArgs := (Argv.parseArgs stringToNumber nativeText).
Local Abbreviation assignValue := (Argv.assignValue nativeText).

(** A token that starts with two dashes is never swallowed as the value
    of the flag before it: the loop reaches it as a token of its own. *)
Lemma scan_at_flag (o : Options) (token : string) (rest : list string) :
  prefix "--" token = true ->
  forall (n : nat) (pre : list string) (r : Object),
    List.length pre <= n -> ~ In "--" pre ->
    scan o (pre ++ token :: rest) r =
      match scan o pre r with
      | Parsed r' => scan o (token :: rest) r'
      | TypeError => TypeError
      end.
Proof.
  intros Htoken. remember (scan o (token :: rest)) as K eqn:HK.
  induction n as [|n IH]; intros pre r Hlen Hpre.
  - destruct pre; [|simpl in Hlen; lia]. simpl. rewrite HK. reflexivity.
  - destruct pre as [|t pre]; [simpl; rewrite HK; reflexivity|].
    assert (Ht : t <> "--") by (intros ->; apply Hpre; left; reflexivity).
    assert (Hpre' : ~ In "--" pre) by (intros H; apply Hpre; right; exact H).
    simpl in Hlen. cbn [app Argv.scan].
    destruct (String.eqb_spec t "--") as [|_]; [contradiction|].
    destruct (prefix "-" t); cbn [negb].
    + destruct (prefix "--no-" t); [apply IH; [lia | exact Hpre']|].
      destruct (split2 t) as [rawKey inlineValue].
      destruct (member (boolean o) (normalizeKey rawKey));
        [apply IH; [lia | exact Hpre']|].
      destruct inlineValue as [v|]; [apply IH; [lia | exact Hpre']|].
      destruct pre as [|next pre]; cbn [app].
      * rewrite Htoken. cbn [negb]. rewrite andb_false_r.
        destruct (member (string_ o) _ || member (number o) _);
          cbn [Argv.scan]; rewrite HK; reflexivity.
      * assert (Hpre'' : ~ In "--" pre) by (intros H; apply Hpre'; right; exact H).
        simpl in Hlen.
        destruct ((member (string_ o) _ || member (number o) _)
                  && negb (prefix "--" next)).
        -- apply IH; [lia | exact Hpre''].
        -- destruct (member (string_ o) _ || member (number o) _);
             apply (IH (next :: pre)); simpl; try lia; exact Hpre'.
    + destruct (push r [t]) as [|r1]; [reflexivity|].
      apply IH; [lia | exact Hpre'].
Qed.

(** What is to be shown of a property of the loop: one case for each way
    a token is handled. *)
Lemma scan_induction (o : Options) (P : list string -> Object -> Outcome -> Prop) :
  (forall r, P [] r (Parsed r)) ->
  (forall rest r, P ("--" :: rest) r (push r rest)) ->
  (forall t rest r,
     prefix "-" t = false -> push r [t] = TypeError -> P (t :: rest) r TypeError) ->
  (forall t rest r r1,
     prefix "-" t = false -> push r [t] = Parsed r1 ->
     P rest r1 (scan o rest r1) -> P (t :: rest) r (scan o rest r1)) ->
  (forall t rest r key v,
     prefix "-" t = true ->
     P rest (assignValue o r key v) (scan o rest (assignValue o r key v)) ->
     P (t :: rest) r (scan o rest (assignValue o r key v))) ->
  (forall t next rest r key v,
     prefix "-" t = true -> prefix "--" next = false ->
     P rest (assignValue o r key v) (scan o rest (assignValue o r key v)) ->
     P (t :: next :: rest) r (scan o rest (assignValue o r key v))) ->
  forall argv r, P argv r (scan o argv r).
Proof.
  intros Hnil Hend Hthrow Hpos Hflag Hvalue.
  assert (G : forall n argv r, List.length argv <= n -> P argv r (scan o argv r)).
  { induction n as [|n IH]; intros argv r Hlen.
    - destruct argv; [apply Hnil | simpl in Hlen; lia].
    - destruct argv as [|t rest]; [apply Hnil|].
      simpl in Hlen. cbn [Argv.scan].
      destruct (String.eqb_spec t "--") as [->|_]; [apply Hend|].
      destruct (prefix "-" t) eqn:Hdash; cbn [negb].
      + destruct (prefix "--no-" t); [apply Hflag; [exact Hdash | apply IH; lia]|].
        destruct (split2 t) as [rawKey inlineValue].
        destruct (member (boolean o) (normalizeKey rawKey));
          [apply Hflag; [exact Hdash | apply IH; lia]|].
        destruct inlineValue as [v|]; [apply Hflag; [exact Hdash | apply IH; lia]|].
        destruct rest as [|next rest].
        * destruct (member (string_ o) _ || member (number o) _);
            apply Hflag; try exact Hdash; apply IH; simpl; lia.
        * simpl in Hlen.
          destruct (member (string_ o) _ || member (number o) _); cbn [andb].
          -- destruct (prefix "--" next) eqn:Hnext; cbn [negb].
             ++ apply Hflag; [exact Hdash | apply IH; simpl; lia].
             ++ apply Hvalue; [exact Hdash | exact Hnext | apply IH; lia].
          -- apply Hflag; [exact Hdash | apply IH; simpl; lia].
      + destruct (push r [t]) as [|r1] eqn:Hpush.
        * apply Hthrow; assumption.
        * apply Hpos; [exact Hdash | exact Hpush | apply IH; lia]. }
  intros argv r. apply (G (List.length argv)). lia.
Qed.

Lemma own_assign (r : Object) (key : string) (e : Entry) (k : string) :
  own (assign r key e) k =
    if key =? "__proto__" then own r k
    else if key =? k then Some e else own r k.
Proof. unfold assign. destruct (key =? "__proto__"); reflexivity. Qed.

(** The entry under [_] after an assignment of a flag. *)
Lemma own_assign_flag (r : Object) (key : string) (v : Value) :
  own (assign r key (Flag v)) "_" = own r "_" \/
  own (assign r key (Flag v)) "_" = Some (Flag v).
Proof.
  rewrite own_assign. destruct (key =? "__proto__"); [left; reflexivity|].
  destruct (key =? "_"); [right | left]; reflexivity.
Qed.

(** Whether [_] still holds the array. *)
Local Abbreviation collecting r :=
  (match own r "_" with Some (Positional _) => True | _ => False end).

(** Once a flag has taken the place of the array under [_], no array
    comes back. *)
Lemma clobbered_stays (o : Options) (argv : list string) (r : Object) :
  ~ collecting r ->
  forall r', scan o argv r = Parsed r' -> ~ collecting r'.
Proof.
  revert argv r.
  apply (scan_induction o
           (fun argv r out => ~ collecting r ->
              forall r', out = Parsed r' -> ~ collecting r')).
  - intros r H r' E. injection E as <-. exact H.
  - intros rest r H r' E. unfold push in E.
    destruct (own r "_") as [[items|v]|]; try discriminate.
    exfalso. apply H. exact I.
  - intros; discriminate.
  - intros t rest r r1 _ Hpush _ H. unfold push in Hpush.
    destruct (own r "_") as [[items|v]|]; try discriminate.
    exfalso. apply H. exact I.
  - intros t rest r key v _ IH H. apply IH. unfold Argv.assignValue.
    destruct (own_assign_flag r (target nativeText o key) v) as [E|E]; rewrite E;
      [exact H | intros []].
  - intros t next rest r key v _ _ IH H. apply IH. unfold Argv.assignValue.
    destruct (own_assign_flag r (target nativeText o key) v) as [E|E]; rewrite E;
      [exact H | intros []].
Qed.

Lemma subsequence_nothing (argv : list string) : Subsequence [] argv.
Proof. induction argv; constructor; assumption. Qed.

Lemma subsequence_all (argv : list string) : Subsequence argv argv.
Proof. induction argv; constructor; assumption. Qed.

(** What the loop adds to the array is a part of [argv], in order. *)
Lemma positionals_grow (o : Options) (argv : list string) (r : Object) :
  forall items r' items',
    own r "_" = Some (Positional items) ->
    scan o argv r = Parsed r' ->
    own r' "_" = Some (Positional items') ->
    exists added, items' = (items ++ added)%list /\ Subsequence added argv.
Proof.
  revert argv r.
  apply (scan_induction o
           (fun argv r out => forall items r' items',
              own r "_" = Some (Positional items) ->
              out = Parsed r' ->
              own r' "_" = Some (Positional items') ->
              exists added, items' = (items ++ added)%list /\
                            Subsequence added argv)).
  - intros r items r' items' H E H'. injection E as <-.
    rewrite H in H'. injection H' as <-. exists []. rewrite app_nil_r.
    split; [reflexivity | constructor].
  - intros rest r items r' items' H E H'. unfold push in E. rewrite H in E.
    injection E as <-. simpl in H'. injection H' as <-.
    exists rest. split; [reflexivity|]. constructor. apply subsequence_all.
  - intros; discriminate.
  - intros t rest r r1 _ Hpush IH items r' items' H E H'.
    unfold push in Hpush. rewrite H in Hpush. injection Hpush as <-.
    destruct (IH (items ++ [t])%list r' items' eq_refl E H') as (added & -> & S).
    exists (t :: added). rewrite <- app_assoc. split; [reflexivity|].
    apply subsequence_keep. exact S.
  - intros t rest r key v _ IH items r' items' H E H'.
    unfold Argv.assignValue in *.
    destruct (own_assign_flag r (target nativeText o key) v) as [A|A].
    + rewrite H in A. destruct (IH items r' items' A E H') as (added & -> & S).
      exists added. split; [reflexivity | constructor; exact S].
    + exfalso. refine (clobbered_stays o rest _ _ r' E _).
      * rewrite A. intros [].
      * rewrite H'. exact I.
  - intros t next rest r key v _ _ IH items r' items' H E H'.
    unfold Argv.assignValue in *.
    destruct (own_assign_flag r (target nativeText o key) v) as [A|A].
    + rewrite H in A. destruct (IH items r' items' A E H') as (added & -> & S).
      exists added. split; [reflexivity | do 2 constructor; exact S].
    + exfalso. refine (clobbered_stays o rest _ _ r' E _).
      * rewrite A. intros [].
      * rewrite H'. exact I.
Qed.

(** The default loop leaves every own key alone and gives every other
    key that is not inherited its default. *)
Lemma applyDefaults_own (ds : list (string * Default)) (r : Object) (k : string) :
  own (applyDefaults ds r) k =
    match own r k with
    | Some e => Some e
    | None =>
        if inherited k then None
        else option_map (fun d => Flag (force d)) (defaultFor ds k)
    end.
Proof.
  revert r. induction ds as [|[key d] ds IH]; intros r; cbn [applyDefaults defaultFor].
  - destruct (own r k); [reflexivity|]. destruct (inherited k); reflexivity.
  - rewrite IH. unfold has. destruct (own r key) eqn:Ek.
    + destruct (own r k) eqn:E; [reflexivity|].
      destruct (String.eqb_spec key k) as [->|_]; [congruence | reflexivity].
    + destruct (inherited key) eqn:Hi.
      * destruct (own r k); [reflexivity|].
        destruct (String.eqb_spec key k) as [->|_]; [rewrite Hi|]; reflexivity.
      * rewrite own_assign.
        destruct (String.eqb_spec key "__proto__") as [->|_]; [discriminate|].
        destruct (String.eqb_spec key k) as [->|_].
        -- rewrite Ek, Hi. reflexivity.
        -- reflexivity.
Qed.

(** X1. Everything after the first [--] is positional: the tokens
    behind it are appended to the array under [_] as they stand, none of
    them is read as a flag, and every flag keeps the value the tokens in
    front of [--] gave it. *)
Theorem terminator_ends_flag_parsing (o : Options) (pre post : list string) :
  ~ In "--" pre ->
  match parseArgs o pre with
  | TypeError => parseArgs o (pre ++ "--" :: post) = TypeError
  | Parsed r =>
      match own r "_" with
      | Some (Positional items) =>
          exists r',
            parseArgs o (pre ++ "--" :: post) = Parsed r' /\
            own r' "_" = Some (Positional (items ++ post)) /\
            forall key, key <> "_" -> own r' key = own r key
      | _ => parseArgs o (pre ++ "--" :: post) = TypeError
      end
  end.
Proof.
  intros Hpre. unfold Argv.parseArgs.
  rewrite (scan_at_flag o "--" post eq_refl (List.length pre) pre _ (le_n _) Hpre).
  destruct (scan o pre [("_", Positional [])]) as [|r]; [reflexivity|].
  rewrite applyDefaults_own. cbn [Argv.scan String.eqb Ascii.eqb Bool.eqb].
  unfold push. destruct (own r "_") as [[items|v]|]; try reflexivity.
  - eexists. split; [reflexivity|]. split.
    + rewrite applyDefaults_own. reflexivity.
    + intros key Hkey. rewrite !applyDefaults_own. cbn [own].
      destruct (String.eqb_spec "_" key) as [<-|_]; [contradiction | reflexivity].
  - change (inherited "_") with false. cbv iota.
    destruct (defaultFor (defaults o) "_"); reflexivity.
Qed.

(** X2. The positional arguments of a result are tokens of the command
    line, in the order of the command line: the parser neither invents
    nor reorders them. *)
Theorem positionals_are_argv_tokens (o : Options) (argv : list string)
    (result : Object) (items : list string) :
  parseArgs o argv = Parsed result ->
  own result "_" = Some (Positional items) ->
  Subsequence items argv.
Proof.
  unfold Argv.parseArgs.
  destruct (scan o argv [("_", Positional [])]) as [|r] eqn:E; [discriminate|].
  intros H. injection H as <-. rewrite applyDefaults_own.
  destruct (own r "_") as [e|] eqn:Hr.
  2:{ change (inherited "_") with false. cbv iota.
      destruct (defaultFor (defaults o) "_"); discriminate. }
  intros H. injection H as ->.
  destruct (positionals_grow o argv [("_", Positional [])] [] r items eq_refl E Hr) as (added & -> & S).
  exact S.
Qed.

(** X3. A default never replaces what a token has assigned, whatever
    the assigned value is; it is given exactly to the keys no token
    assigned, unless the key names a member of [Object.prototype]. *)
Theorem defaults_fill_only_absent_keys (o : Options) (argv : list string)
    (scanned : Object) :
  scan o argv [("_", Positional [])] = Parsed scanned ->
  exists result,
    parseArgs o argv = Parsed result /\
    forall key,
      own result key =
        match own scanned key with
        | Some e => Some e
        | None =>
            if inherited key then None
            else option_map (fun d => Flag (force d)) (defaultFor (defaults o) key)
        end.
Proof.
  intros E. unfold Argv.parseArgs. rewrite E. eexists. split; [reflexivity|].
  intros key. apply applyDefaults_own.
Qed.

Lemma cut_plain (s : string) : hasEquals s = false -> cut s = (s, None).
Proof.
  induction s as [|c s IH]; simpl; [reflexivity|].
  intros H. apply orb_false_iff in H as [Hc Hs].
  rewrite Hc, (IH Hs). reflexivity.
Qed.

Lemma cut_append (s x : string) :
  hasEquals s = true ->
  cut (s ++ x) = (fst (cut s), option_map (fun b => b ++ x) (snd (cut s))).
Proof.
  induction s as [|c s IH]; simpl; [discriminate|].
  destruct (Ascii.eqb c "="); simpl; [reflexivity|].
  intros H. rewrite (IH H). destruct (cut s) as [a b]. reflexivity.
Qed.

Lemma cut_some (s : string) :
  hasEquals s = true -> exists b, snd (cut s) = Some b.
Proof.
  induction s as [|c s IH]; simpl; [discriminate|].
  destruct (Ascii.eqb c "="); simpl; [eauto|].
  intros H. destruct (IH H) as [b Hb]. destruct (cut s) as [a b']. simpl in *. eauto.
Qed.

(** The first piece of a string does not depend on what follows a [=]
    put behind the string. *)
Lemma cut_first (b w : string) : fst (cut (b ++ String "=" w)) = fst (cut b).
Proof.
  induction b as [|c b IH]; simpl; [reflexivity|].
  destruct (Ascii.eqb c "="); [reflexivity|].
  destruct (cut (b ++ String "=" w)), (cut b). simpl in *. congruence.
Qed.

Lemma split2_append (t w : string) :
  hasEquals t = true -> split2 (t ++ String "=" w) = split2 t.
Proof.
  intros H. unfold split2. rewrite (cut_append t _ H).
  destruct (cut_some t H) as [b Hb]. destruct (cut t) as [a b']. simpl in *.
  subst b'. simpl. rewrite cut_first. reflexivity.
Qed.

Lemma hasEquals_append (t x : string) :
  hasEquals t = true -> hasEquals (t ++ x) = true.
Proof.
  induction t as [|c t IH]; simpl; [discriminate|].
  destruct (Ascii.eqb c "="); [reflexivity | exact IH].
Qed.

Lemma prefix_nil (t : string) : prefix "" t = true.
Proof. destruct t; reflexivity. Qed.

Lemma prefix_append (p t x : string) :
  prefix p t = true -> prefix p (t ++ x) = true.
Proof.
  revert t. induction p as [|a p IH]; intros t; [intros _; apply prefix_nil|].
  destruct t as [|c t]; simpl; [discriminate|].
  destruct (ascii_dec a c); [apply IH | discriminate].
Qed.

(** A string with a [=] is no beginning of a string without one. *)
Lemma prefix_of_plain (t p : string) :
  hasEquals t = true -> hasEquals p = false -> prefix t p = false.
Proof.
  revert p. induction t as [|c t IH]; intros p; simpl; [discriminate|].
  destruct p as [|a p]; [reflexivity|]. simpl.
  intros Ht Hp. apply orb_false_iff in Hp as [Ha Hp].
  destruct (ascii_dec c a) as [->|_]; [|reflexivity].
  rewrite Ha in Ht. apply IH; assumption.
Qed.

Lemma prefix_append_false (p t x : string) :
  prefix p t = false -> prefix t p = false -> prefix p (t ++ x) = false.
Proof.
  revert t. induction p as [|a p IH]; intros t.
  - rewrite prefix_nil. discriminate.
  - destruct t as [|c t]; simpl; [discriminate|].
    destruct (ascii_dec a c) as [->|_]; [|reflexivity].
    destruct (ascii_dec c c); [apply IH | contradiction].
Qed.

(** X4. In a flag token with an inline value, whatever follows a second
    [=] is dropped: [--text=a=b] is parsed exactly as [--text=a]. *)
Theorem inline_value_ends_at_second_equals (o : Options) (t w : string)
    (rest : list string) (r : Object) :
  prefix "-" t = true -> prefix "--no-" t = false -> hasEquals t = true ->
  scan o ((t ++ String "=" w) :: rest) r = scan o (t :: rest) r.
Proof.
  intros Hdash Hno Heq. cbn [Argv.scan].
  assert (E1 : (t =? "--") = false).
  { destruct (String.eqb_spec t "--") as [->|_]; [discriminate | reflexivity]. }
  assert (E2 : (t ++ String "=" w =? "--") = false).
  { destruct (String.eqb_spec (t ++ String "=" w) "--") as [E|_]; [|reflexivity].
    pose proof (hasEquals_append t (String "=" w) Heq) as H.
    rewrite E in H. discriminate. }
  rewrite E1, E2, (prefix_append _ _ (String "=" w) Hdash),
    (prefix_append_false _ _ (String "=" w) Hno
       (prefix_of_plain t "--no-" Heq eq_refl)),
    (split2_append t w Heq), Hdash, Hno.
  reflexivity.
Qed.

Lemma plainKey_parts (key : string) :
  plainKey key = true ->
  key <> "" /\ prefix "-" key = false /\ hasEquals key = false.
Proof.
  unfold plainKey. intros H.
  apply andb_true_iff in H as [H H3]. apply andb_true_iff in H as [H1 H2].
  apply negb_true_iff in H1, H2, H3.
  split; [|split; assumption].
  intros ->. discriminate.
Qed.

Lemma normalizeKey_plain (key : string) :
  prefix "-" key = false -> normalizeKey key = key.
Proof.
  destruct key as [|c key]; [reflexivity|]. simpl.
  destruct (ascii_dec "-" c) as [<-|Hc]; [destruct key; discriminate|].
  intros _. unfold normalizeKey.
  destruct c as [[] [] [] [] [] [] [] []]; try reflexivity.
  contradiction Hc. reflexivity.
Qed.

(** How a long flag without an inline value is read. *)
Lemma long_flag_read (key : string) :
  plainKey key = true -> prefix "no-" key = false ->
  prefix "--" ("--" ++ key) = true /\
  ("--" ++ key =? "--") = false /\
  prefix "-" ("--" ++ key) = true /\
  prefix "--no-" ("--" ++ key) = false /\
  split2 ("--" ++ key) = ("--" ++ key, None) /\
  normalizeKey ("--" ++ key) = key.
Proof.
  intros Hk Hno. destruct (plainKey_parts key Hk) as (Hne & Hdash & Heq).
  split; [simpl; apply prefix_nil|].
  split; [|split; [reflexivity|split; [exact Hno|split; [|reflexivity]]]].
  - simpl. destruct (String.eqb_spec key "") as [->|_]; [contradiction | reflexivity].
  - unfold split2. simpl. rewrite (cut_plain key Heq). reflexivity.
Qed.

(** X5. A flag that takes a value and is last on the command line, or
    is followed by a token starting with two dashes, gets the empty
    string (a string flag) or NaN (a number flag); the token behind it
    is read as a flag of its own. *)
Theorem flag_without_value (o : Options) (key : string)
    (pre tail : list string) (r : Object) :
  plainKey key = true -> prefix "no-" key = false ->
  member (boolean o) key = false ->
  member (string_ o) key || member (number o) key = true ->
  ~ In "--" pre ->
  tail = [] \/
    (exists token rest, tail = token :: rest /\ prefix "--" token = true) ->
  scan o (pre ++ ("--" ++ key) :: tail) r =
    match scan o pre r with
    | Parsed r' =>
        scan o tail
          (assignValue o r' key
             (if member (number o) key then VNum NaN else VStr ""))
    | TypeError => TypeError
    end.
Proof.
  intros Hk Hno Hb Hv Hpre Htail.
  destruct (long_flag_read key Hk Hno) as (E0 & E1 & E2 & E3 & E4 & E5).
  rewrite (scan_at_flag o ("--" ++ key) tail E0 (List.length pre) pre r
             (le_n _) Hpre).
  destruct (scan o pre r) as [|r']; [reflexivity|].
  cbn [Argv.scan]. rewrite E1, E2, E3, E4, E5, Hb, Hv. cbn [negb andb].
  destruct Htail as [->|(token & rest & -> & Ht)]; [reflexivity|].
  rewrite Ht. reflexivity.
Qed.

(** X24. A flag that takes a value takes the token behind it whenever
    that token does not start with two dashes: also a token with one
    dash, which is then not read as a flag of its own ([--text -q]
    makes [-q] the text and leaves [quiet] alone). *)
Theorem flag_takes_next_token (o : Options) (key next : string)
    (pre rest : list string) (r : Object) :
  plainKey key = true -> prefix "no-" key = false ->
  member (boolean o) key = false ->
  member (string_ o) key || member (number o) key = true ->
  ~ In "--" pre ->
  prefix "--" next = false ->
  scan o (pre ++ ("--" ++ key) :: next :: rest) r =
    match scan o pre r with
    | Parsed r' =>
        scan o rest
          (assignValue o r' key
             (if member (number o) key then VNum (stringToNumber next)
              else VStr next))
    | TypeError => TypeError
    end.
Proof.
  intros Hk Hno Hb Hv Hpre Hnext.
  destruct (long_flag_read key Hk Hno) as (E0 & E1 & E2 & E3 & E4 & E5).
  rewrite (scan_at_flag o ("--" ++ key) (next :: rest) E0 (List.length pre) pre r
             (le_n _) Hpre).
  destruct (scan o pre r) as [|r']; [reflexivity|].
  cbn [Argv.scan]. rewrite E1, E2, E3, E4, E5, Hb, Hv, Hnext. reflexivity.
Qed.

(** X25. A token that starts with [--no-] stores false under all that
    follows the prefix, taken as one key: a [=] in it belongs to the key
    and starts no value, the token behind it is never taken as a value,
    and it makes no difference whether the flag was declared a boolean,
    a string or a number. *)
Theorem negated_flag_is_false (o : Options) (key : string)
    (pre rest : list string) (r : Object) :
  ~ In "--" pre ->
  scan o (pre ++ ("--no-" ++ key) :: rest) r =
    match scan o pre r with
    | Parsed r' => scan o rest (assignValue o r' key (VBool false))
    | TypeError => TypeError
    end.
Proof.
  intros Hpre.
  rewrite (scan_at_flag o ("--no-" ++ key) rest eq_refl (List.length pre) pre r
             (le_n _) Hpre).
  destruct (scan o pre r) as [|r']; [reflexivity|].
  cbn [Argv.scan].
  replace ("--no-" ++ key =? "--") with false by reflexivity.
  replace (prefix "-" ("--no-" ++ key)) with true by reflexivity.
  replace (prefix "--no-" ("--no-" ++ key)) with true
    by (symmetry; simpl; apply prefix_nil).
  reflexivity.
Qed.

Lemma prefix_cons (a c : ascii) (p t : string) :
  prefix (String a p) (String c t) = if Ascii.eqb a c then prefix p t else false.
Proof.
  simpl. destruct (ascii_dec a c) as [->|H].
  - rewrite Ascii.eqb_refl. reflexivity.
  - destruct (Ascii.eqb_spec a c); [contradiction | reflexivity].
Qed.

Lemma prefix_before_equals (p t w : string) :
  hasEquals p = false -> prefix p t = false ->
  prefix p (t ++ String "=" w) = false.
Proof.
  revert t. induction p as [|a p IH]; intros t Hp.
  - rewrite prefix_nil. discriminate.
  - simpl in Hp. apply orb_false_iff in Hp as [Ha Hp].
    destruct t as [|c t]; simpl.
    + intros _. destruct (ascii_dec a "=") as [->|_]; [discriminate | reflexivity].
    + destruct (ascii_dec a c); [apply IH; exact Hp | reflexivity].
Qed.

Lemma cut_at_equals (s v : string) :
  hasEquals s = false -> cut (s ++ String "=" v) = (s, Some v).
Proof.
  induction s as [|c s IH]; simpl; [reflexivity|].
  intros H. apply orb_false_iff in H as [Hc Hs].
  rewrite Hc, (IH Hs). reflexivity.
Qed.

(** X6. An alias is resolved only when the value is stored; whether the
    flag is a boolean is looked up under the name as it was typed. So a
    short alias of a boolean flag with an inline value stores the text
    of the value (truthy unless empty) where the long form stores the
    coerced boolean: [-j=false] leaves the string [false] under [json],
    [--json=false] the boolean. *)
Theorem alias_with_value_is_not_coerced (o : Options) (a t v : string)
    (rest : list string) (r : Object) :
  plainKey a = true -> plainKey t = true -> prefix "no-" t = false ->
  hasEquals v = false ->
  ownAlias (alias o) a = Some t ->
  member (boolean o) a = false -> member (number o) a = false ->
  member (boolean o) t = true ->
  scan o (("-" ++ a ++ "=" ++ v) :: rest) r
    = scan o rest (assign r t (Flag (VStr v))) /\
  scan o (("--" ++ t ++ "=" ++ v) :: rest) r
    = scan o rest (assignValue o r t (VBool (coerceBoolean (inr v)))) /\
  truthy (VStr v) = negb (v =? "").
Proof.
  intros Ha Ht Hno Hv Halias Hba Hna Hbt.
  destruct (plainKey_parts a Ha) as (Hane & Hadash & Haeq).
  destruct (plainKey_parts t Ht) as (Htne & Htdash & Hteq).
  split; [|split; [|reflexivity]].
  - assert (Hcut : split2 ("-" ++ a ++ "=" ++ v) = ("-" ++ a, Some v)).
    { unfold split2. simpl. rewrite (cut_at_equals a v Haeq). simpl.
      rewrite (cut_plain v Hv). reflexivity. }
    assert (Hfirst : exists c a', a = String c a' /\ c <> "-"%char).
    { destruct a as [|c a']; [contradiction Hane; reflexivity|].
      exists c, a'. split; [reflexivity|]. intros ->.
      simpl in Hadash. rewrite prefix_nil in Hadash. discriminate. }
    destruct Hfirst as (c & a' & Ea & Hc).
    assert (Hkey : normalizeKey ("-" ++ a) = a).
    { subst a. simpl.
      destruct c as [[] [] [] [] [] [] [] []]; try reflexivity.
      contradiction Hc. reflexivity. }
    cbn [Argv.scan]. rewrite Hcut, Hkey, Hba, Hna.
    replace ("-" ++ a ++ "=" ++ v =? "--") with false.
    2:{ subst a. simpl. destruct (Ascii.eqb_spec c "-"); [contradiction|reflexivity]. }
    replace (prefix "-" ("-" ++ a ++ "=" ++ v)) with true
      by (symmetry; simpl; apply prefix_nil).
    replace (prefix "--no-" ("-" ++ a ++ "=" ++ v)) with false.
    2:{ subst a. cbn [append]. rewrite !prefix_cons.
        change (Ascii.eqb "-" "-") with true. cbv iota.
        destruct (Ascii.eqb_spec "-" c) as [<-|_];
          [contradiction Hc; reflexivity | reflexivity]. }
    cbn [negb]. unfold Argv.assignValue, target.
    rewrite (normalizeKey_plain a Hadash), Halias. reflexivity.
  - assert (Hcut : split2 ("--" ++ t ++ "=" ++ v) = ("--" ++ t, Some v)).
    { unfold split2. simpl. rewrite (cut_at_equals t v Hteq). simpl.
      rewrite (cut_plain v Hv). reflexivity. }
    cbn [Argv.scan]. rewrite Hcut.
    replace ("--" ++ t ++ "=" ++ v =? "--") with false.
    2:{ destruct t; [contradiction Htne; reflexivity | reflexivity]. }
    replace (prefix "-" ("--" ++ t ++ "=" ++ v)) with true by reflexivity.
    replace (prefix "--no-" ("--" ++ t ++ "=" ++ v)) with false.
    2:{ symmetry. simpl. apply prefix_before_equals; [reflexivity | exact Hno]. }
    cbn [negb]. replace (normalizeKey ("--" ++ t)) with t by reflexivity.
    rewrite Hbt. reflexivity.
Qed.
End ArgvFacts.

(** ** Pages, paths and polling *)

Section UtilFacts.
Import Js Util.

Lemma elementAt_natural {P : Type} (pages : list P) (i : nat) :
  elementAt pages (ofZ (Z.of_nat i)) = nth_error pages i.
Proof.
  unfold elementAt, ofZ, inject_Z. cbn [Qnum Qden].
  rewrite Z.mod_1_r, Z.div_1_r. cbn [Z.eqb andb].
  destruct (Z.leb_spec 0 (Z.of_nat i)); [|lia].
  rewrite Nat2Z.id. reflexivity.
Qed.

Lemma elementAt_negative {P : Type} (pages : list P) (z : Z) :
  (z < 0)%Z -> elementAt pages (ofZ z) = None.
Proof.
  intros H. unfold elementAt, ofZ, inject_Z. cbn [Qnum Qden].
  rewrite Z.mod_1_r. cbn [Z.eqb andb].
  destruct (Z.leb_spec 0 z); [lia | reflexivity].
Qed.

Lemma isMinusOne_integer (z : Z) : isMinusOne (ofZ z) = (z =? -1)%Z.
Proof.
  unfold isMinusOne, ofZ, Qeq_bool, inject_Z. simpl.
  rewrite Z.mul_1_r. reflexivity.
Qed.

(** X7. [getActivePage] only ever answers one of the open pages. With
    no index, or with -1, it is the last page; a natural number selects
    by position, and past the end the answer is null; an integer below
    -1 does not count from the end: the answer is null. *)
Theorem getActivePage_answers {P : Type} (pages : list P) :
  (forall index page, getActivePage pages index = Some page -> In page pages) /\
  getActivePage pages None = nth_error pages (List.length pages - 1) /\
  getActivePage pages (Some (ofZ (-1))) = nth_error pages (List.length pages - 1) /\
  (forall front page, pages = (front ++ [page])%list ->
     getActivePage pages None = Some page) /\
  (forall i : nat, getActivePage pages (Some (ofZ (Z.of_nat i))) = nth_error pages i) /\
  (forall z : Z, (z < -1)%Z -> getActivePage pages (Some (ofZ z)) = None).
Proof.
  assert (Hlast : getActivePage pages None = nth_error pages (List.length pages - 1)).
  { unfold getActivePage. destruct pages; reflexivity. }
  split; [|split; [exact Hlast|split; [|split; [|split]]]].
  - intros index page. unfold getActivePage.
    destruct (List.length pages =? 0)%nat; [discriminate|].
    destruct (isMinusOne _); [apply nth_error_In|].
    unfold elementAt. destruct (nullishOr index (ofZ (-1))) as [q| | |];
      try discriminate.
    destruct (_ && _)%bool; [apply nth_error_In | discriminate].
  - unfold getActivePage. destruct pages; reflexivity.
  - intros front page ->. rewrite Hlast, length_app. simpl.
    rewrite nth_error_app2 by lia.
    replace (List.length front + 1 - 1 - List.length front) with 0 by lia.
    reflexivity.
  - intros i. unfold getActivePage. cbn [nullishOr].
    rewrite isMinusOne_integer.
    destruct (Z.eqb_spec (Z.of_nat i) (-1)); [lia|].
    rewrite elementAt_natural.
    destruct pages; [destruct i; reflexivity | reflexivity].
  - intros z Hz. unfold getActivePage. cbn [nullishOr].
    rewrite isMinusOne_integer.
    destruct (Z.eqb_spec z (-1)); [lia|].
    rewrite elementAt_negative by lia.
    destruct (_ =? _)%nat; reflexivity.
Qed.

Section FileFacts.

Variable existsSync : string -> bool.
Variable homedir : string.
Variable join : string -> string -> string.
Variable resolvePath : string -> string.

Local Abbreviation findExistingPath := (Util.findExistingPath existsSync).
Local Abbreviation resolveChromeExecutable :=
  (Util.resolveChromeExecutable existsSync homedir join resolvePath).

(** A candidate that is passed over: empty or not there. *)
Local Abbreviation passedOver :=
  (fun c : option string => forall q, c = Some q -> q = "" \/ existsSync q = false).

(** X8. [findExistingPath] answers the first candidate that is a
    non-empty path of an existing file: every candidate in front of it is
    undefined, empty or missing from the file system, and the answer is
    null exactly when that holds for all candidates. *)
Theorem findExistingPath_first (paths : list (option string)) :
  match findExistingPath paths with
  | Some p =>
      exists pre post,
        paths = (pre ++ Some p :: post)%list /\
        p <> "" /\ existsSync p = true /\ Forall passedOver pre
  | None => Forall passedOver paths
  end.
Proof.
  induction paths as [|c paths IH]; cbn [Util.findExistingPath]; [constructor|].
  destruct c as [q|]; cbn [truthyString negb nullishOr].
  - destruct (String.eqb_spec q "") as [->|Hq]; cbn [negb].
    + destruct (findExistingPath paths) as [p|].
      * destruct IH as (pre & post & -> & H1 & H2 & H3).
        exists (Some "" :: pre), post. repeat split; try assumption.
        constructor; [|exact H3]. intros q' E. injection E as <-. left. reflexivity.
      * constructor; [|exact IH]. intros q' E. injection E as <-. left. reflexivity.
    + destruct (existsSync q) eqn:Hex.
      * exists [], paths. repeat split; try assumption. constructor.
      * destruct (findExistingPath paths) as [p|].
        -- destruct IH as (pre & post & -> & H1 & H2 & H3).
           exists (Some q :: pre), post. repeat split; try assumption.
           constructor; [|exact H3]. intros q' E. injection E as <-. right. exact Hex.
        -- constructor; [|exact IH]. intros q' E. injection E as <-. right. exact Hex.
  - destruct (findExistingPath paths) as [p|].
    + destruct IH as (pre & post & -> & H1 & H2 & H3).
      exists (None :: pre), post. repeat split; try assumption.
      constructor; [|exact H3]. intros q' E. discriminate.
    + constructor; [|exact IH]. intros q' E. discriminate.
Qed.

(** X9. A Chrome path flag that is the empty string ([--chrome-path=],
    or the flag without a value) is not used itself, and it keeps
    [CHROME_PATH] from being used: the executable is looked for among
    [PUPPETEER_EXECUTABLE_PATH] and the candidates of the platform
    only. With neither spelling of the flag the variable is used. *)
Theorem empty_chrome_path_flag_hides_environment
    (camel CHROME_PATH PUPPETEER_EXECUTABLE_PATH : option string)
    (platformCandidates : list (option string)) :
  let others :=
    findExistingPath
      (expanded homedir join resolvePath PUPPETEER_EXECUTABLE_PATH
         :: platformCandidates) in
  resolveChromeExecutable (Some "") camel CHROME_PATH PUPPETEER_EXECUTABLE_PATH
    platformCandidates = others /\
  resolveChromeExecutable None (Some "") CHROME_PATH PUPPETEER_EXECUTABLE_PATH
    platformCandidates = others /\
  resolveChromeExecutable None None CHROME_PATH PUPPETEER_EXECUTABLE_PATH
    platformCandidates
  = findExistingPath
      (expanded homedir join resolvePath CHROME_PATH
         :: expanded homedir join resolvePath PUPPETEER_EXECUTABLE_PATH
         :: platformCandidates).
Proof. repeat split. Qed.

End FileFacts.

Section PollingFacts.

Variables A E : Type.
Variable truthy : A -> bool.
Variable truthyError : E -> bool.

Local Abbreviation waitForLoop := (Util.waitForLoop A E truthy truthyError).
Local Abbreviation waitFor := (Util.waitFor A E truthy truthyError).
Local Abbreviation fruitless := (Util.fruitless A E truthy).
Local Abbreviation lastThrown := (Util.lastThrown A E).

(** Through fruitless rounds the loop goes on, holding the last error
    thrown. *)
Lemma waitForLoop_fruitless (start : Z) (timeout : Number)
    (pre rest : list (Round A E)) (lastError : option E) :
  forallb (fruitless start timeout) pre = true ->
  waitForLoop start timeout lastError (pre ++ rest) =
    waitForLoop start timeout (lastThrown lastError pre) rest.
Proof.
  revert lastError. induction pre as [|round pre IH]; intros lastError; [reflexivity|].
  cbn [forallb app Util.waitForLoop Util.lastThrown]. intros H.
  apply andb_true_iff in H as [Hr Hpre]. unfold Util.fruitless in Hr.
  apply andb_true_iff in Hr as [Htime Hfn]. rewrite Htime.
  destruct (attempt round) as [result|error|]; [| |discriminate].
  - apply negb_true_iff in Hfn. rewrite Hfn. apply IH. exact Hpre.
  - apply IH. exact Hpre.
Qed.

(** X10. [waitFor] answers a truthy value exactly when some call of
    [fn] answers it in time after fruitless rounds only: it is the
    first truthy answer, and [fn] is not called again. *)
Theorem waitFor_answers_first_truthy (start : Z) (timeout : option Number)
    (rounds : list (Round A E)) (v : A) :
  waitFor start timeout rounds = Answered (Some v) <->
  exists pre round post,
    rounds = (pre ++ round :: post)%list /\
    forallb (fruitless start (nullishOr timeout (ofZ 10000))) pre = true /\
    lessThan (now round - start) (nullishOr timeout (ofZ 10000)) = true /\
    attempt round = Returns v /\ truthy v = true.
Proof.
  unfold Util.waitFor. set (T := nullishOr timeout (ofZ 10000)).
  split.
  - generalize (@None E) as lastError.
    induction rounds as [|round rounds IH]; intros lastError; [discriminate|].
    cbn [Util.waitForLoop].
    destruct (lessThan (now round - start) T) eqn:Htime.
    + destruct (attempt round) as [result|error|] eqn:Hfn; [| |discriminate].
      * destruct (truthy result) eqn:Ht.
        -- intros H. injection H as ->. exists [], round, rounds.
           repeat split; assumption.
        -- intros H. destruct (IH _ H) as (pre & r & post & -> & H1 & H2 & H3 & H4).
           exists (round :: pre), r, post. repeat split; try assumption.
           cbn [forallb]. rewrite H1. unfold Util.fruitless. rewrite Htime, Hfn, Ht.
           reflexivity.
      * intros H. destruct (IH _ H) as (pre & r & post & -> & H1 & H2 & H3 & H4).
        exists (round :: pre), r, post. repeat split; try assumption.
        cbn [forallb]. rewrite H1. unfold Util.fruitless. rewrite Htime, Hfn.
        reflexivity.
    + destruct lastError as [e|]; [destruct (truthyError e)|]; discriminate.
  - intros (pre & round & post & -> & H1 & H2 & H3 & H4).
    rewrite (waitForLoop_fruitless start T pre _ None H1).
    cbn [Util.waitForLoop]. rewrite H2, H3, H4. reflexivity.
Qed.

(** X11. When the clock is past the timeout at a loop test after
    fruitless rounds, [fn] is not called again and [waitFor] ends: it
    rethrows the last error any round has thrown, even if later rounds
    ended without one, unless that error is falsy; without such an error
    it answers null. *)
Theorem waitFor_expiry (start : Z) (timeout : option Number)
    (pre : list (Round A E)) (round : Round A E) (post : list (Round A E)) :
  forallb (fruitless start (nullishOr timeout (ofZ 10000))) pre = true ->
  lessThan (now round - start) (nullishOr timeout (ofZ 10000)) = false ->
  waitFor start timeout (pre ++ round :: post) =
    match lastThrown None pre with
    | Some error => if truthyError error then Rethrown error else Answered None
    | None => Answered None
    end.
Proof.
  intros H1 H2. unfold Util.waitFor.
  rewrite (waitForLoop_fruitless start _ pre _ None H1).
  cbn [Util.waitForLoop]. rewrite H2. reflexivity.
Qed.

(** X12. [waitFor] comes to an end: when no call of [fn] hangs and the
    clock gets past the timeout at some loop test, it has answered or
    rethrown by then. With a timeout of zero or less and a clock that
    does not run backwards, [fn] is never called and the answer is
    null. *)
Theorem waitFor_ends (start : Z) (timeout : option Number)
    (rounds : list (Round A E)) :
  ((forall round, In round rounds -> attempt round <> Hangs) ->
   (exists round, In round rounds /\
      lessThan (now round - start) (nullishOr timeout (ofZ 10000)) = false) ->
   waitFor start timeout rounds <> Waiting) /\
  (forall q first rest,
     timeout = Some (Finite q) -> (q <= 0)%Q -> (start <= now first)%Z ->
     rounds = first :: rest ->
     waitFor start timeout rounds = Answered None).
Proof.
  split.
  - unfold Util.waitFor. set (T := nullishOr timeout (ofZ 10000)).
    generalize (@None E) as lastError.
    induction rounds as [|round rounds IH]; intros lastError Hfn (late & Hin & Hlate).
    + destruct Hin.
    + cbn [Util.waitForLoop].
      destruct (lessThan (now round - start) T) eqn:Htime.
      * assert (Hrest : exists r, In r rounds /\ lessThan (now r - start) T = false).
        { destruct Hin as [<-|Hin]; [congruence|]. exists late. split; assumption. }
        assert (Hfn' : forall r, In r rounds -> attempt r <> Hangs).
        { intros r Hr. apply Hfn. right. exact Hr. }
        pose proof (Hfn round (or_introl eq_refl)) as Hround.
        destruct (attempt round) as [result|error|]; [| |contradiction].
        -- destruct (truthy result); [discriminate|]. apply IH; assumption.
        -- apply IH; assumption.
      * destruct lastError as [e|]; [destruct (truthyError e)|]; discriminate.
  - intros q first rest -> Hq Hclock ->. unfold Util.waitFor.
    cbn [nullishOr Util.waitForLoop lessThan].
    replace (Qle_bool q (inject_Z (now first - start))) with true; [reflexivity|].
    symmetry. apply Qle_bool_iff. apply Qle_trans with (y := 0%Q); [exact Hq|].
    unfold Qle, inject_Z. simpl. lia.
Qed.

End PollingFacts.

End UtilFacts.

(** ** The quality of a screenshot *)

Section ScreenshotFacts.
Import Js Screenshot.

Variable stringToNumber : string -> Number.

(** X13. For a JPEG the quality handed to the browser is always a
    finite number from 1 to 100, whatever the flag held (a number
    outside the range, NaN, an infinity, a string, nothing); for every
    other format no quality is handed over. *)
Theorem determineQuality_range (value : Value) (currentFormat : string) :
  match determineQuality stringToNumber value currentFormat with
  | Some n =>
      currentFormat = "jpeg" /\
      exists q, n = Finite q /\ (inject_Z 1 <= q)%Q /\ (q <= inject_Z 100)%Q
  | None => currentFormat <> "jpeg"
  end.
Proof.
  unfold determineQuality.
  destruct (String.eqb_spec currentFormat "jpeg") as [->|Hf]; cbn [negb];
    [|exact Hf].
  assert (G : forall numeric,
            (exists q, numeric = Finite q) ->
            exists q, mathMin (ofZ 100) (mathMax (ofZ 1) numeric) = Finite q /\
                      (inject_Z 1 <= q)%Q /\ (q <= inject_Z 100)%Q).
  { intros numeric [q ->]. unfold mathMax, mathMin, ofZ.
    destruct (Qle_bool (inject_Z 1) q) eqn:H1.
    - destruct (Qle_bool (inject_Z 100) q) eqn:H2.
      + exists (inject_Z 100). repeat split; [discriminate | apply Qle_refl].
      + exists q. split; [reflexivity|]. split; [apply Qle_bool_iff; exact H1|].
        apply Qnot_lt_le. intros H. apply Qlt_le_weak in H.
        apply Qle_bool_iff in H. congruence.
    - exists (inject_Z 1). split; [reflexivity|].
      split; [apply Qle_refl | discriminate]. }
  assert (N : forall v, exists q,
            Config.normalizeNumber stringToNumber v (ofZ 80) = Finite q).
  { intros v. rewrite normalizeNumber_cases.
    destruct v as [|bv|[q| | |]|s]; try (eexists; reflexivity).
    destruct (stringToNumber s); eexists; reflexivity. }
  destruct value as [|bv|n|s]; (split; [reflexivity|]).
  - exists (inject_Z 80). split; [reflexivity|]. split; discriminate.
  - apply G, N.
  - apply G, N.
  - apply G, N.
Qed.

End ScreenshotFacts.

(** ** The cookie import *)

Section CookieFacts.
Import Js Cookies.

Variable numberToString : Number -> string.

Local Abbreviation normalizeSameSite := (Cookies.normalizeSameSite numberToString).
Local Abbreviation normalizeCookie := (Cookies.normalizeCookie numberToString).

Lemma lower_of_upper (c : ascii) : Dom.lowerChar (Dom.upperChar c) = Dom.lowerChar c.
Proof. destruct c as [[] [] [] [] [] [] [] []]; reflexivity. Qed.

Lemma toLowerCase_toUpperCase (s : string) :
  Dom.toLowerCase (Dom.toUpperCase s) = Dom.toLowerCase s.
Proof.
  induction s as [|c s IH]; simpl; [reflexivity|].
  rewrite lower_of_upper, IH. reflexivity.
Qed.

Lemma sameSite_canonical (value : Field) (s : string) :
  normalizeSameSite value = Some s ->
  In s ["Lax"; "Strict"; "None"] /\ normalizeSameSite (Str s) = Some s.
Proof.
  unfold Cookies.normalizeSameSite. destruct (falsy value); [discriminate|].
  destruct (_ =? "lax"); [intros H; injection H as <-; simpl; auto|].
  destruct (_ =? "strict"); [intros H; injection H as <-; simpl; auto|].
  destruct (_ =? "none"); [intros H; injection H as <-; simpl; auto 6|].
  discriminate.
Qed.


(** X15. Normalizing a cookie twice is normalizing it once: the
    parameter object built from a cookie, read as a cookie again, gives
    the same parameter object. The name, the value and the domain pass
    through as they are, and the priority never does. *)
Theorem normalizeCookie_idempotent (cookie : Cookie) :
  normalizeCookie (asCookie (normalizeCookie cookie)) = normalizeCookie cookie /\
  paramName (normalizeCookie cookie) = name cookie /\
  paramValue (normalizeCookie cookie) = value cookie /\
  paramDomain (normalizeCookie cookie) = domain cookie /\
  (forall p, normalizeCookie cookie
             = normalizeCookie
                 (mkCookie (name cookie) (value cookie) (domain cookie)
                    (path cookie) (expires cookie) (httpOnly cookie)
                    (secure cookie) (sameSite cookie) p)).
Proof.
  split; [|repeat split].
  destruct cookie as [n v d p e h s ss pr].
  unfold Cookies.normalizeCookie, asCookie.
  cbn [name value domain path expires httpOnly secure sameSite
       paramName paramValue paramDomain paramPath paramExpires paramHttpOnly
       paramSecure paramSameSite].
  f_equal.
  - destruct p; reflexivity.
  - destruct e as [| | |x|]; try reflexivity.
    destruct (truthyNumber x && isFinite (VNum x))%bool eqn:E; [|reflexivity].
    rewrite E. reflexivity.
  - destruct h as [| |[]|x|x]; try reflexivity; cbn [falsy].
    + destruct (truthyNumber x); reflexivity.
    + destruct (x =? ""); reflexivity.
  - destruct s as [| |[]|x|x]; try reflexivity; cbn [falsy].
    + destruct (truthyNumber x); reflexivity.
    + destruct (x =? ""); reflexivity.
  - destruct (normalizeSameSite ss) as [x|] eqn:E; [|reflexivity].
    destruct (sameSite_canonical ss x E) as [Hin Hx].
    assert (Hne : truthyString (Some x) = true).
    { destruct Hin as [<-|[<-|[<-|[]]]]; reflexivity. }
    rewrite Hne. cbn iota. rewrite Hx, Hne. reflexivity.
Qed.

End CookieFacts.

(** ** What the picker does to the page while it runs *)

Section OnlookerFacts.
Import Js Dom Page Picker Onlooker.

Variable page : Page.
Variable globalResolve : GlobalBinding.
Variable b : Before.
Variable timeout : Number.

Local Abbreviation dispatch := (Picker.dispatch page globalResolve).
Local Abbreviation run := (Picker.run page globalResolve).
Local Abbreviation Open := (Picker.Open b).
Local Abbreviation Closed := (Picker.Closed b).
Local Abbreviation Fresh := (Picker.Fresh b timeout).

Lemma prevented_app (l1 l2 : list Effect) :
  prevented (l1 ++ l2) = prevented l1 + prevented l2.
Proof.
  induction l1 as [|e l1 IH]; simpl; [reflexivity|].
  destruct e; simpl; rewrite IH; reflexivity.
Qed.

Lemma stopped_app (l1 l2 : list Effect) :
  stopped (l1 ++ l2) = stopped l1 + stopped l2.
Proof.
  induction l1 as [|e l1 IH]; simpl; [reflexivity|].
  destruct e; simpl; rewrite IH; reflexivity.
Qed.

(** What the three handlers of the promise executor leave in the log. *)
Lemma noSelection_effects (s : State) :
  let s' := settle (cleanup (setResolved s true)) None in
  effects s' = (effects s ++ [Cleanup])%list /\ clickListener s' = false.
Proof.
  destruct s as [oc hl po rs ti ol cu hv ck bl ch pt pk st ef].
  unfold settle, cleanup. simpl. destruct hl, ti, st; simpl; split; reflexivity.
Qed.

Lemma highlight_effects (s : State) (element : Ref) :
  effects (highlightElement s element) = effects s.
Proof.
  unfold highlightElement. destruct (highlight s) as [h|]; [|reflexivity].
  destruct (refEqb h element); reflexivity.
Qed.

(** Every event but a click leaves the count of intercepted clicks as
    it is, and puts no click listener back. *)
Lemma other_events_keep_count (s : State) (e : Event) :
  (forall t, e <> Click t) ->
  prevented (effects (dispatch s e)) = prevented (effects s) /\
  stopped (effects (dispatch s e)) = stopped (effects s) /\
  (clickListener s = false -> clickListener (dispatch s e) = false).
Proof.
  intros He. destruct e as [t|t| | |]; cbn [Picker.dispatch].
  - destruct (hoverListener s); [|auto]. unfold onHover.
    destruct (resolved s); [auto|].
    destruct (isHTMLElement page t); cbn [negb]; [|auto].
    rewrite highlight_effects.
    destruct (highlight_frame s t) as (_ & _ & F & _).
    repeat split. intros H. cbv zeta in F. congruence.
  - exfalso. apply (He t). reflexivity.
  - destruct (pendingTimeout s); [|auto]. unfold onTimeout.
    cbn [resolved setPendingTimeout]. destruct (resolved s); [auto|].
    destruct (noSelection_effects (setPendingTimeout s None)) as [E C].
    cbv zeta in E, C. rewrite E, C, prevented_app, stopped_app. simpl.
    repeat split; lia.
  - destruct (blurListener s); [|auto]. unfold onBlur.
    cbn [resolved setBlurListener]. destruct (resolved s); [auto|].
    destruct (noSelection_effects (setBlurListener s false)) as [E C].
    cbv zeta in E, C. rewrite E, C, prevented_app, stopped_app. simpl.
    repeat split; lia.
  - destruct (cancelHook s); [|auto]. unfold cancel.
    destruct (resolved s); [auto|].
    destruct (noSelection_effects s) as [E C].
    cbv zeta in E, C. rewrite E, C, prevented_app, stopped_app. simpl.
    repeat split; lia.
Qed.

(** The click that ends a session is kept from the page, once. *)
Lemma click_counts (s : State) (t : Ref) :
  clickListener s = true -> resolved s = false ->
  prevented (effects (dispatch s (Click t))) = prevented (effects s) + 1 /\
  stopped (effects (dispatch s (Click t))) = stopped (effects s) + 1.
Proof.
  intros Hc Hr. cbn [Picker.dispatch]. rewrite Hc. unfold onClick.
  cbn [resolved emit setEffects]. rewrite Hr.
  destruct s as [oc hl po rs ti ol cu hv ck bl ch pt pk st ef].
  unfold resolveSelection, cleanup.
  destruct globalResolve, (buildInfo page t), hl, ti; simpl;
    rewrite ?prevented_app, ?stopped_app; simpl; split; lia.
Qed.

Lemma click_or_not (e : Event) :
  (exists t, e = Click t) \/ (forall t, e <> Click t).
Proof. destruct e; try (right; discriminate). left. eauto. Qed.

(** X16. A session keeps at most one click from the page, and stops
    the propagation of exactly the clicks it prevents. The click that
    ends a session is the one kept; in a session ended by the timer, a
    blur or the cancel hook no click is kept, and whatever ended the
    session, the clicks after it reach the page untouched. *)
Theorem picker_intercepts_one_click :
  (forall events : list Event,
     let s := run (arm b timeout) events in
     prevented (effects s) <= 1 /\ stopped (effects s) = prevented (effects s)) /\
  (forall (pre : list Event) (e : Event) (post : list Event),
     forallb (fun e => negb (ends timeout e)) pre = true ->
     ends timeout e = true ->
     let s := run (arm b timeout) (pre ++ e :: post) in
     prevented (effects s) = match e with Click _ => 1 | _ => 0 end).
Proof.
  assert (K : forall events,
            let s := run (arm b timeout) events in
            stopped (effects s) = prevented (effects s) /\
            (Open s -> prevented (effects s) = 0) /\
            prevented (effects s) <= 1).
  { induction events as [|e events IH] using rev_ind.
    - simpl. repeat split; lia.
    - cbv zeta in *. rewrite run_app. cbn [Picker.run fold_left].
      fold (run (arm b timeout) events).
      destruct IH as (I1 & I2 & I3).
      set (s0 := run (arm b timeout) events) in *.
      destruct (open_or_closed page globalResolve b timeout events)
        as [[H F]|C]; fold s0 in H || fold s0 in C.
      + destruct (click_or_not e) as [[t ->]|Hother].
        2:{ destruct (other_events_keep_count s0 e Hother) as (P1 & P2 & _).
            rewrite P1, P2, I1, (I2 H). repeat split; lia. }
        destruct (click_counts s0 t (Picker.open_click b s0 H)
                    (Picker.open_resolved b s0 H)) as [P1 P2].
        rewrite P1, P2, I1, (I2 H). repeat split; try lia.
        intros O. pose proof (Picker.open_resolved b _ O) as R.
        destruct (ending_closes page globalResolve b timeout s0 (Click t) H F eq_refl)
          as [C _].
        pose proof (Picker.closed_resolved b _ C). congruence.
      + destruct (closed_dispatch page globalResolve b s0 e C) as (C' & _ & _ & E).
        cbv zeta in C', E. rewrite E. repeat split; try assumption.
        intros O. pose proof (Picker.open_resolved b _ O).
        pose proof (Picker.closed_resolved b _ C'). congruence. }
  split.
  - intros events. destruct (K events) as (K1 & _ & K3). split; assumption.
  - intros pre e post Hpre He. cbv zeta. rewrite run_app.
    cbn [Picker.run fold_left].
    fold (run (arm b timeout) pre).
    destruct (idle_run page globalResolve b timeout (arm b timeout) pre Hpre
                (arm_open b timeout) (arm_fresh b timeout)) as [H F].
    destruct (K pre) as (_ & K2 & _). specialize (K2 H).
    set (s0 := run (arm b timeout) pre) in *.
    destruct (ending_closes page globalResolve b timeout s0 e H F He) as [C _].
    destruct (closed_run page globalResolve b (dispatch s0 e) post C)
      as (_ & _ & _ & E).
    cbv zeta in E. unfold Picker.run in E. rewrite E.
    destruct (click_or_not e) as [[t ->]|Hother].
    2:{ destruct (other_events_keep_count s0 e Hother) as (P1 & _).
        rewrite P1, K2. destruct e; try reflexivity.
        exfalso. apply (Hother target). reflexivity. }
    destruct (click_counts s0 t (Picker.open_click b s0 H)
                (Picker.open_resolved b s0 H)) as [P1 _].
    rewrite P1, K2. reflexivity.
Qed.

Local Abbreviation shown := (Onlooker.shown b).

Lemma highlight_shown (s : State) (t : Ref) :
  match highlight s with
  | Some h => previousOutline s = Some (outline0 b h)
  | None => True
  end ->
  (forall r, outline s r = shown (highlight s) r) ->
  let s' := highlightElement s t in
  highlight s' = Some t /\
  (forall r, outline s' r = shown (Some t) r) /\
  cursor s' = cursor s /\ effects s' = effects s /\ settled s' = settled s.
Proof.
  destruct s as [oc hl po rs ti ol cu hv ck bl ch pt pk st ef].
  unfold highlightElement. cbn [highlight previousOutline outline].
  unfold Onlooker.shown. intros Hp Ho. destruct hl as [h|].
  - destruct (refEqb h t) eqn:E.
    + apply refEqb_true in E. subst t. simpl.
      repeat split. exact Ho.
    + subst po. simpl. repeat split. intros r.
      destruct (refEqb r t) eqn:E1; [reflexivity|].
      destruct (refEqb r h) eqn:E2.
      * apply refEqb_true in E2. subst r. reflexivity.
      * rewrite Ho, E2. reflexivity.
  - simpl. repeat split. intros r.
    destruct (refEqb r t); [reflexivity | apply Ho].
Qed.

Lemma lastHovered_snoc (events : list Event) (t : Ref) :
  lastHovered page (events ++ [Mouseover t]) =
    if isHTMLElement page t then Some t else lastHovered page events.
Proof. unfold lastHovered. rewrite fold_left_app. reflexivity. Qed.


End OnlookerFacts.

(** ** The descriptor *)

Section DescriptorFacts.
Import Js Dom Page.

Lemma substring_length (n : nat) (s : string) :
  String.length (substring 0 n s) <= n.
Proof.
  revert s. induction n as [|n IH]; intros s; destruct s as [|c s]; simpl; try lia.
  specialize (IH s). lia.
Qed.

Lemma trimStart_head (s : string) (c : ascii) (rest : string) :
  trimStart s = String c rest -> isWhiteSpace c = false.
Proof.
  induction s as [|a s IH]; simpl; [discriminate|].
  destruct (isWhiteSpace a) eqn:E; [exact IH|].
  intros H. injection H as <- _. exact E.
Qed.

Lemma trimStart_snoc (u : string) (c : ascii) :
  isWhiteSpace c = false ->
  trimStart (u ++ String c "") = trimStart u ++ String c "".
Proof.
  intros Hc. induction u as [|a u IH]; simpl; [rewrite Hc; reflexivity|].
  destruct (isWhiteSpace a); [exact IH | reflexivity].
Qed.

Lemma reverse_snoc (w : string) (c : ascii) :
  reverse (w ++ String c "") = String c (reverse w).
Proof.
  induction w as [|a w IH]; simpl; [reflexivity|].
  rewrite IH. reflexivity.
Qed.

(** A trimmed text does not start with white space. *)
Lemma trim_head (s : string) (c : ascii) (rest : string) :
  trim s = String c rest -> isWhiteSpace c = false.
Proof.
  unfold trim. destruct (trimStart s) as [|a t] eqn:E; [discriminate|].
  pose proof (trimStart_head s a t E) as Ha.
  cbn [reverse]. rewrite (trimStart_snoc (reverse t) a Ha), reverse_snoc.
  intros H. injection H as <- _. exact Ha.
Qed.

Lemma children_length (kids : list Node) (i : nat) :
  List.length (childrenFrom i kids) <= List.length kids.
Proof.
  revert i. induction kids as [|[data|d sub] kids IH]; intros i; simpl;
    [lia | |]; specialize (IH (S i)); lia.
Qed.

(** X18. Every descriptor [collectElementInfo] returns keeps to this:
    the text is at most 160 characters long and does not start with
    white space; the id is null rather than the empty string; the tag
    is in lower case; the number of children counts elements only, so it
    is not above the number of child nodes; and a selector handed in is
    the selector handed out. *)
Theorem descriptor_invariants (p : Page) (handle : Ref)
    (selectorOverride : option string) (found : Info) :
  collectElementInfo p handle selectorOverride = Some found ->
  String.length (text found) <= 160 /\
  (forall c rest, text found = String c rest -> isWhiteSpace c = false) /\
  Page.id found <> Some "" /\
  toLowerCase (tag found) = tag found /\
  children found <= List.length (childNodesOf (document p) handle) /\
  (forall s, selectorOverride = Some s -> selector found = s).
Proof.
  unfold collectElementInfo, childNodesOf.
  destruct (lookup (document p) handle) as [[data|d kids]|]; try discriminate.
  intros H. injection H as <-.
  cbn [text Page.id tag children selector].
  split; [apply substring_length|].
  split.
  { intros c rest. unfold shortText, slice0.
    destruct (trim _) as [|a t] eqn:E; [discriminate|].
    cbn [substring]. intros H. injection H as <- _.
    exact (trim_head _ _ _ E). }
  split.
  { destruct (String.eqb_spec (Dom.id d) ""); [discriminate|].
    intros H. injection H as H. contradiction. }
  split; [apply toLowerCase_idempotent|].
  split; [apply children_length|].
  intros s ->. reflexivity.
Qed.

End DescriptorFacts.

(** ** The streams and the exit code of the command *)

Section StreamFacts.
Import Js Dom Page.
Import Element.

Variable query : Page -> string -> string + option Ref.
Variable scrollIntoView : Page -> Ref -> Page.
Variable clickElement : Page -> Ref -> string + Page.
Variable xpathError : string.
Variable stringToNumber : string -> Number.

Local Abbreviation main :=
  (Element.main query scrollIntoView clickElement xpathError stringToNumber).

(** How a run that stopped through [fail] looks. *)
Lemma failed_streams (a : Args) (message : string) (logs : list ErrLine)
    (done : list Step) (p : Page) :
  outcome (failed a message logs done p) =
    Exited 1
      (if json a
       then [AsJson (Config.JObject
                       [("ok", Config.JBool false);
                        ("error", Config.JString message)])]
       else [])
      (if json a then logs
       else (logs ++ [Message (message ++ String (ascii_of_nat 10) "")])%list).
Proof.
  unfold failed, Config.fail. destruct (json a); simpl; [|reflexivity].
  rewrite app_nil_r. reflexivity.
Qed.

Ltac streams :=
  repeat split; try discriminate; intros;
  try match goal with
      | H : In _ _ |- _ =>
          simpl in H; repeat (destruct H as [<-|H]); try contradiction
      end;
  eauto.

(** X19. The command ends with exit code 0 or 1, and the streams tell
    the two apart. With [--json] the standard output carries exactly one
    JSON value, the descriptor or the error object, and the error
    stream stays empty; without it a success puts the descriptor on the
    standard output and log lines only on the error stream, and a
    failure puts nothing on the standard output and its message last on
    the error stream. With [--quiet] no log line is written at all. *)
Theorem exit_code_and_streams (a : Args) (p : Page) (h : Happenings)
    (code : Z) (out : list Printed) (err : list ErrLine) :
  outcome (main a p h) = Exited code out err ->
  (code = 0%Z \/ code = 1%Z) /\
  (json a = true -> err = [] /\ exists j, out = [AsJson j]) /\
  (json a = false -> code = 0%Z ->
   (exists found, out = [AsText found]) /\
   forall line, In line err -> exists l, line = Log l) /\
  (json a = false -> code = 1%Z ->
   out = [] /\ exists logs message, err = (logs ++ [Message message])%list) /\
  (quiet a = true -> forall line, In line err -> exists m, line = Message m).
Proof.
  unfold Element.main.
  destruct (resolveElement _ _ _ _ _ _ _) as [m| |[[handle found]|] done].
  - rewrite failed_streams. intros H. injection H as <- <- <-.
    destruct (json a); streams.
    exists [], ("Element lookup failed: " ++ m ++ String (ascii_of_nat 10) "").
    reflexivity.
  - discriminate.
  - unfold Element.info.
    destruct (scroll a), (click a); cbn -[output failed];
      try destruct (clickElement _ handle) as [m|p2];
      cbn -[output failed];
      rewrite ?failed_streams;
      destruct (json a), (quiet a); cbn -[output];
      intros H; injection H as <- <- <-; streams.
    all: first [ exists [], ("Click failed: " ++ m ++ String (ascii_of_nat 10) "");
                 reflexivity
               | exists [Log LogScrolled],
                   ("Click failed: " ++ m ++ String (ascii_of_nat 10) "");
                 reflexivity ].
  - rewrite failed_streams. intros H. injection H as <- <- <-.
    destruct (json a); streams.
    eexists [], _. reflexivity.
Qed.

(** X20. A text query that holds a double quote never finds anything:
    the expression built from it is rejected, the command stops with the
    lookup error and exit code 1, and the page has not been touched:
    no element was captured, scrolled to or clicked, whatever the flags
    ask for. *)
Theorem quoted_text_fails_the_lookup (a : Args) (p : Page) (h : Happenings)
    (text : string) :
  truthyString (positional a) = false ->
  textFlag a = Some text ->
  TextQuery.hasQuote text = true ->
  outcome (main a p h) =
    Exited 1
      (if json a
       then [AsJson (Config.JObject
                       [("ok", Config.JBool false);
                        ("error",
                         Config.JString ("Element lookup failed: " ++ xpathError))])]
       else [])
      (if json a then []
       else [Message ("Element lookup failed: " ++ xpathError
                       ++ String (ascii_of_nat 10) "")]) /\
  steps (main a p h) = [] /\
  finalPage (main a p h) = p.
Proof.
  intros Hs Ht Hq. unfold Element.main, Element.resolveElement.
  rewrite Hs, Ht.
  assert (Hne : truthyString (Some text) = true).
  { destruct text; [discriminate | reflexivity]. }
  rewrite Hne. cbn [nullishOr].
  rewrite (quoted_text_is_rejected (document p) text Hq).
  rewrite failed_streams. cbn [steps finalPage failed].
  destruct (json a); repeat split; reflexivity.
Qed.

End StreamFacts.

(** ** Numbers and the connection *)

Section NumberFacts.
Import Js Config.

Variable stringToNumber : string -> Number.
Variable numberToString : Number -> string.

Local Abbreviation resolveBrowserConnection :=
  (Config.resolveBrowserConnection stringToNumber numberToString).
Local Abbreviation normalizeNumber := (Config.normalizeNumber stringToNumber).

(** X21. [normalizeNumber] answers a finite number whenever the
    fallback is one; it answers the fallback or the finite number the
    value holds or spells; and applying it to its own answer changes
    nothing. *)
Theorem normalizeNumber_finite_and_idempotent (value : Value) (fallback : Number) :
  (isFinite (VNum fallback) = true ->
   isFinite (VNum (normalizeNumber value fallback)) = true) /\
  (normalizeNumber value fallback = fallback \/
   exists q, normalizeNumber value fallback = Finite q /\
             (value = VNum (Finite q) \/
              exists s, value = VStr s /\ stringToNumber s = Finite q)) /\
  normalizeNumber (VNum (normalizeNumber value fallback)) fallback
    = normalizeNumber value fallback.
Proof.
  rewrite !normalizeNumber_cases.
  destruct value as [|bv|[q| | |]|s].
  all: try (split; [auto|]; split; [left; reflexivity|];
            destruct fallback; reflexivity).
  - split; [reflexivity|]. split; [right; eauto | reflexivity].
  - destruct (stringToNumber s) as [q| | |] eqn:E.
    all: try (split; [auto|]; split; [left; reflexivity|];
              destruct fallback; reflexivity).
    split; [reflexivity|]. split; [|reflexivity].
    right. exists q. split; [reflexivity|]. right. exists s. split; [reflexivity | exact E].
Qed.

(** X22. The commands hand the resolver a port they have normalized
    themselves ([normalizeNumber(args.port, DEFAULT_PORT)], a finite
    number in every case), so the resolver never reads the environment
    variable [BROWSER_PORT]: the connection is the same whatever that
    variable holds, and the port of the address is the normalized flag. *)
Theorem port_variable_is_never_read (wsFlag hostFlag : option string)
    (portFlag : Value) (wsUrl hostName port1 port2 : option string) :
  let flags :=
    mkFlags wsFlag hostFlag (VNum (normalizeNumber portFlag DEFAULT_PORT)) in
  resolveBrowserConnection flags (mkEnv wsUrl hostName port1)
    = resolveBrowserConnection flags (mkEnv wsUrl hostName port2) /\
  (truthyString wsFlag = false -> truthyString wsUrl = false ->
   resolveBrowserConnection flags (mkEnv wsUrl hostName port1)
     = browserURL
         ("http://" ++ nullishOr (nullish hostFlag hostName) "localhost" ++ ":"
            ++ numberToString (normalizeNumber portFlag DEFAULT_PORT))).
Proof.
  cbv zeta. split; [reflexivity|].
  intros H1 H2. unfold Config.resolveBrowserConnection.
  cbn [ws host port BROWSER_WS_URL BROWSER_HOST BROWSER_PORT portOperand].
  rewrite H1, H2. cbn [orb].
  rewrite !normalizeNumber_cases.
  destruct portFlag as [|bv|[q| | |]|s]; try reflexivity.
  destruct (stringToNumber s); reflexivity.
Qed.

End NumberFacts.

(** ** How long a pick waits *)

Section PickTimeoutFacts.
Import Js Dom Page.
Import Element.

Variable query : Page -> string -> string + option Ref.
Variable scrollIntoView : Page -> Ref -> Page.
Variable clickElement : Page -> Ref -> string + Page.
Variable xpathError : string.
Variable stringToNumber : string -> Number.

Local Abbreviation main :=
  (Element.main query scrollIntoView clickElement xpathError stringToNumber).

(** X23. In a run without selector and text the picker is evaluated
    with the timeout of the command line: the [--timeout] flag when it
    is a finite number other than zero, 15 000 ms when the flag holds
    no finite number (the flag without a value is NaN), and the 60 000
    ms of [pickElement] only for [--timeout 0]. *)
Theorem picker_waits_for_the_timeout_flag (a : Args) (p : Page) (h : Happenings) :
  truthyString (positional a) = false ->
  truthyString (textFlag a) = false ->
  let t := Config.normalizeNumber stringToNumber (timeoutFlag a) (ofZ 15000) in
  (outcome (main a p h) = Hung [] \/
   steps (main a p h)
     = [EvaluatedPicker (if truthyNumber t then t else ofZ 60000)]) /\
  isFinite (VNum t) = true /\
  (isFinite (timeoutFlag a) = false -> (forall s, timeoutFlag a <> VStr s) ->
   t = ofZ 15000) /\
  (forall q, timeoutFlag a = VNum (Finite q) -> t = Finite q).
Proof.
  intros Hs Ht t. split; [|split; [|split]].
  - unfold Element.main, Element.resolveElement. rewrite Hs, Ht. fold t.
    destruct (pickElement_outcomes p (Some t) h) as [E|E]; rewrite E.
    + left. reflexivity.
    + right. cbn [Picker.pickTimeout steps failed]. reflexivity.
  - subst t. rewrite normalizeNumber_cases.
    destruct (timeoutFlag a) as [|bv|[q| | |]|s]; try reflexivity.
    destruct (stringToNumber s); reflexivity.
  - intros Hf Hn. subst t. rewrite normalizeNumber_cases.
    destruct (timeoutFlag a) as [|bv|[q| | |]|s]; try reflexivity.
    + discriminate.
    + contradiction (Hn s). reflexivity.
  - intros q Hq. subst t. rewrite Hq. reflexivity.
Qed.

End PickTimeoutFacts.

(** ** The theorems on sample runs *)

(** The command line [--json page.html -- --scroll]. *)
Lemma terminator_ends_flag_parsing_witness :
  exists r',
    Argv.parseArgs Examples.stringToNumber Examples.nativeText Argv.elementOptions
      (["--json"; "page.html"] ++ "--" :: ["--scroll"]) = Argv.Parsed r' /\
    Argv.own r' "_" = Some (Argv.Positional (["page.html"] ++ ["--scroll"])) /\
    forall key, key <> "_" ->
      Argv.own r' key =
      Argv.own
        [("timeout", Argv.Flag (Js.VNum (Js.ofZ 15000)));
         ("port", Argv.Flag (Js.VNum Config.DEFAULT_PORT));
         ("_", Argv.Positional ["page.html"]);
         ("json", Argv.Flag (Js.VBool true));
         ("_", Argv.Positional [])] key.
Proof.
  refine (terminator_ends_flag_parsing Examples.stringToNumber Examples.nativeText
            Argv.elementOptions ["--json"; "page.html"] ["--scroll"] _).
  simpl. intuition discriminate.
Defined.

(** The command line [#main --timeout 500 --click now]: [500] is the
    value of the flag, [now] is positional. *)
Lemma positionals_are_argv_tokens_witness :
  Argv.Subsequence ["#main"; "now"] ["#main"; "--timeout"; "500"; "--click"; "now"].
Proof.
  eapply (positionals_are_argv_tokens Examples.stringToNumber Examples.nativeText
            Argv.elementOptions);
    reflexivity.
Defined.

(** The command line [--port --json]: the port is NaN, not 9222. *)
Lemma defaults_fill_only_absent_keys_witness :
  exists result,
    Argv.parseArgs Examples.stringToNumber Examples.nativeText Argv.elementOptions
      ["--port"; "--json"] = Argv.Parsed result /\
    forall key,
      Argv.own result key =
        match
          Argv.own
            [("json", Argv.Flag (Js.VBool true));
             ("port", Argv.Flag (Js.VNum Js.NaN));
             ("_", Argv.Positional [])] key
        with
        | Some e => Some e
        | None =>
            if Argv.inherited key then None
            else option_map (fun d => Argv.Flag (Argv.force d))
                   (Argv.defaultFor (Argv.defaults Argv.elementOptions) key)
        end.
Proof.
  apply (defaults_fill_only_absent_keys Examples.stringToNumber Examples.nativeText
           Argv.elementOptions ["--port"; "--json"]).
  reflexivity.
Defined.

(** The token [--text=a=b]. *)
Lemma inline_value_ends_at_second_equals_witness :
  Argv.scan Examples.stringToNumber Examples.nativeText Argv.elementOptions
    (("--text=a" ++ String "=" "b") :: ["--json"]) [("_", Argv.Positional [])]
  = Argv.scan Examples.stringToNumber Examples.nativeText Argv.elementOptions
      ("--text=a" :: ["--json"]) [("_", Argv.Positional [])].
Proof.
  apply (inline_value_ends_at_second_equals Examples.stringToNumber
           Examples.nativeText Argv.elementOptions "--text=a" "b");
    reflexivity.
Defined.

(** The command line [page.html --port --json]. *)
Lemma flag_without_value_witness :
  Argv.scan Examples.stringToNumber Examples.nativeText Argv.elementOptions
    (["page.html"] ++ ("--" ++ "port") :: ["--json"]) [("_", Argv.Positional [])]
  = Argv.Parsed
      [("json", Argv.Flag (Js.VBool true));
       ("port", Argv.Flag (Js.VNum Js.NaN));
       ("_", Argv.Positional ["page.html"]);
       ("_", Argv.Positional [])].
Proof.
  refine (flag_without_value Examples.stringToNumber Examples.nativeText
            Argv.elementOptions "port" ["page.html"] ["--json"]
            [("_", Argv.Positional [])] _ _ _ _ _ _); try reflexivity.
  - simpl. intuition discriminate.
  - right. exists "--json", []. split; reflexivity.
Defined.

(** The command line [--text -q --json]. *)
Lemma flag_takes_next_token_witness :
  Argv.scan Examples.stringToNumber Examples.nativeText Argv.elementOptions
    ([] ++ ("--" ++ "text") :: "-q" :: ["--json"]) [("_", Argv.Positional [])]
  = Argv.Parsed
      [("json", Argv.Flag (Js.VBool true));
       ("text", Argv.Flag (Js.VStr "-q"));
       ("_", Argv.Positional [])].
Proof.
  refine (flag_takes_next_token Examples.stringToNumber Examples.nativeText
            Argv.elementOptions "text" "-q" [] ["--json"]
            [("_", Argv.Positional [])] _ _ _ _ _ _); try reflexivity.
  simpl. intuition.
Defined.

(** The command line [--no-text foo]. *)
Lemma negated_flag_is_false_witness :
  Argv.scan Examples.stringToNumber Examples.nativeText Argv.elementOptions
    ([] ++ ("--no-" ++ "text") :: ["foo"]) [("_", Argv.Positional [])]
  = Argv.Parsed
      [("_", Argv.Positional ["foo"]);
       ("text", Argv.Flag (Js.VBool false));
       ("_", Argv.Positional [])].
Proof.
  refine (negated_flag_is_false Examples.stringToNumber Examples.nativeText
            Argv.elementOptions "text" [] ["foo"] [("_", Argv.Positional [])] _).
  simpl. intuition.
Defined.

(** The tokens [-j=false] and [--json=false]. *)
Lemma alias_with_value_is_not_coerced_witness :
  Argv.scan Examples.stringToNumber Examples.nativeText Argv.elementOptions
    ["-j=false"] [("_", Argv.Positional [])]
  = Argv.Parsed [("json", Argv.Flag (Js.VStr "false")); ("_", Argv.Positional [])] /\
  Argv.scan Examples.stringToNumber Examples.nativeText Argv.elementOptions
    ["--json=false"] [("_", Argv.Positional [])]
  = Argv.Parsed [("json", Argv.Flag (Js.VBool false)); ("_", Argv.Positional [])] /\
  Argv.truthy (Js.VStr "false") = true.
Proof.
  refine (alias_with_value_is_not_coerced Examples.stringToNumber
            Examples.nativeText Argv.elementOptions "j" "json" "false" []
            [("_", Argv.Positional [])] _ _ _ _ _ _ _ _); reflexivity.
Defined.

(** A refused connection, a falsy answer, then the loop test at the
    timeout: the error of the first round is rethrown. *)
Lemma waitFor_expiry_witness :
  Util.waitFor bool string (fun v => v) Examples.truthyError 0 (Some (Js.ofZ 1000))
    ([Examples.refused; Examples.notYet] ++ Examples.tooLate :: [])
  = Util.Rethrown "ECONNREFUSED".
Proof.
  refine (waitFor_expiry bool string (fun v => v) Examples.truthyError 0
            (Some (Js.ofZ 1000)) [Examples.refused; Examples.notYet]
            Examples.tooLate [] _ _); reflexivity.
Defined.


(** The descriptor of the first button of the sample page. *)
Lemma descriptor_invariants_witness :
  String.length (Page.text Examples.buttonInfo) <= 160 /\
  (forall c rest, Page.text Examples.buttonInfo = String c rest ->
                  Page.isWhiteSpace c = false) /\
  Page.id Examples.buttonInfo <> Some "" /\
  Dom.toLowerCase (Page.tag Examples.buttonInfo) = Page.tag Examples.buttonInfo /\
  Page.children Examples.buttonInfo
    <= List.length (Dom.childNodesOf (Page.document Sample.page) Sample.button) /\
  (forall s, None = Some s -> Page.selector Examples.buttonInfo = s).
Proof.
  apply (descriptor_invariants Sample.page Sample.button None Examples.buttonInfo).
  reflexivity.
Defined.

(** The command [element.js .missing --json] on the sample page. *)
Lemma exit_code_and_streams_witness :
  (1 = 0 \/ 1 = 1)%Z /\
  (Element.json Sample.missingArgs = true ->
   @nil Element.ErrLine = [] /\
   exists j,
     [Element.AsJson
        (Config.JObject
           [("ok", Config.JBool false);
            ("error", Config.JString "Selector not found: .missing")])]
     = [Element.AsJson j]).
Proof.
  pose proof
    (exit_code_and_streams Sample.query Sample.scrollIntoView Sample.clickElement
       "bad expression" Examples.stringToNumber Sample.missingArgs Sample.page
       Sample.quietPage 1%Z
       [Element.AsJson
          (Config.JObject
             [("ok", Config.JBool false);
              ("error", Config.JString "Selector not found: .missing")])]
       [] eq_refl) as (H1 & H2 & _).
  split; assumption.
Defined.

(** The command [element.js --click --text <text>] with a text that
    holds a double quote, on the sample page. *)
Lemma quoted_text_fails_the_lookup_witness :
  Element.outcome
    (Element.main Sample.query Sample.scrollIntoView Sample.clickElement
       "bad expression" Examples.stringToNumber Examples.quotedArgs Sample.page
       Sample.quietPage)
  = Element.Exited 1 []
      [Element.Message
         ("Element lookup failed: bad expression" ++ String (ascii_of_nat 10) "")] /\
  Element.steps
    (Element.main Sample.query Sample.scrollIntoView Sample.clickElement
       "bad expression" Examples.stringToNumber Examples.quotedArgs Sample.page
       Sample.quietPage) = [] /\
  Element.finalPage
    (Element.main Sample.query Sample.scrollIntoView Sample.clickElement
       "bad expression" Examples.stringToNumber Examples.quotedArgs Sample.page
       Sample.quietPage) = Sample.page.
Proof.
  refine (quoted_text_fails_the_lookup Sample.query Sample.scrollIntoView
            Sample.clickElement "bad expression" Examples.stringToNumber
            Examples.quotedArgs Sample.page Sample.quietPage
            ("Say " ++ String TextQuery.dquote "hi") _ _ _); reflexivity.
Defined.

(** The command [element.js --timeout 0], the timer firing. *)
Lemma picker_waits_for_the_timeout_flag_witness :
  Element.steps
    (Element.main Sample.query Sample.scrollIntoView Sample.clickElement
       "bad expression" Examples.stringToNumber Examples.pickArgs Sample.page
       (Element.mkHappenings Sample.before Picker.Unbound [Picker.TimerFires]))
  = [Element.EvaluatedPicker (Js.ofZ 60000)].
Proof.
  destruct
    (picker_waits_for_the_timeout_flag Sample.query Sample.scrollIntoView
       Sample.clickElement "bad expression" Examples.stringToNumber
       Examples.pickArgs Sample.page
       (Element.mkHappenings Sample.before Picker.Unbound [Picker.TimerFires])
       eq_refl eq_refl) as ([H|H] & _).
  - discriminate H.
  - exact H.
Defined.
